(** * pysteps: the Proesmans optical-flow wrapper and the test helpers

    A shallow embedding of [pysteps/motion/proesmans.py] and of
    [get_precipitation_fields] and [smart_assert] from
    [pysteps/tests/helpers.py].

    - The input is an array of dtype [float64]. Its elements are IEEE 754
      binary64 numbers, modelled with the standard library's executable
      specification [spec_float] ([prec = 53], [emax = 1024], rounding to
      nearest even); NaN payloads are not distinguished, and NumPy's
      floating-point warnings are not exceptions.
    - A NumPy array is an object in a store of buffers: an [ndarray] is a
      C-contiguous window (buffer, offset, shape) on a buffer, so that a
      basic slice aliases its base array while [copy], [np.stack] and the
      arithmetic operators allocate fresh buffers.
    - The function runs in a state-and-exception monad over that store; the
      state also records the calls made to the two external routines
      [gaussian_filter] (SciPy) and [_compute_advection_field] (the compiled
      solver), which are parameters of the development. *)

From Stdlib Require Import ZArith List Bool Lia String Ascii DecimalString.
From Stdlib Require Import Floats.SpecFloat.
From stdpp Require Import base list.

Local Open Scope Z_scope.

(** ** IEEE 754 binary64 *)

Module F64.

Definition prec : Z := 53.
Definition emax : Z := 1024.

Definition float := spec_float.

Definition sub : float -> float -> float := SFsub prec emax.
Definition div : float -> float -> float := SFdiv prec emax.
Definition mul : float -> float -> float := SFmul prec emax.
Definition eqb : float -> float -> bool := SFeqb.
Definition ltb : float -> float -> bool := SFltb.
Definition leb : float -> float -> bool := SFleb.

Definition is_nan (x : float) : bool :=
  match x with S754_nan => true | _ => false end.

Definition is_finite (x : float) : bool :=
  match x with S754_zero _ | S754_finite _ _ _ => true | _ => false end.

Definition valid (x : float) : bool := valid_binary prec emax x.

Definition zero : float := S754_zero false.
Definition nan : float := S754_nan.

(** Integers of absolute value below [2^53] are binary64 numbers. *)
Definition of_Z (z : Z) : float := binary_normalize prec emax z 0 false.

Definition one : float := Eval vm_compute in of_Z 1.
(** The literal [255.0]. *)
Definition f255 : float := Eval vm_compute in of_Z 255.

(** The largest finite number, [(2^53 - 1) * 2^971]. *)
Definition max_float : float := S754_finite false 9007199254740991 971.

End F64.

(** ** Values and rounding of binary64 numbers

    The definitions below describe the standard library's rounding
    ([binary_round_aux]) on integers, so that the order of the results of
    [-], [/] and [*] can be reasoned about with [lia]. *)

(** The value of a number in units of [2^-1074], the smallest positive
    binary64 number. The infinities are given a magnitude beyond every
    finite value; NaN has no value and is mapped to 0. *)
Definition F2Z (x : F64.float) : Z :=
  match x with
  | S754_zero _ => 0
  | S754_finite s m e => cond_Zopp s (Zpos m * 2 ^ (e + 1074))
  | S754_infinity s => cond_Zopp s (2 ^ 2100)
  | S754_nan => 0
  end.

(** A number the comparisons order: a valid binary64 number, not NaN. *)
Definition ordered (x : F64.float) : Prop :=
  F64.valid x = true /\ F64.is_nan x = false.

(** A mantissa with its round and sticky bits, as one integer: four times
    the mantissa, plus 2 for the round bit, plus 1 for the sticky bit. *)
Definition key (mrs : shr_record) : Z :=
  4 * shr_m mrs + (if shr_r mrs then 2 else 0) + (if shr_s mrs then 1 else 0).

Definition key_loc (m : Z) (l : location) : Z :=
  4 * m + match l with
          | loc_Exact => 0
          | loc_Inexact Lt => 1
          | loc_Inexact Eq => 2
          | loc_Inexact Gt => 3
          end.

(** [shr_1] on keys: one shift to the right that keeps the sticky bit. *)
Definition sticky_half (K : Z) : Z :=
  2 * (K / 4) + (if K mod 4 =? 0 then 0 else 1).

Definition sticky_shift (n : nat) (K : Z) : Z := Nat.iter n sticky_half K.

(** [round_nearest_even] on keys. *)
Definition rne (K : Z) : Z :=
  let q := K / 4 in
  let c := K mod 4 in
  if c <=? 1 then q
  else if c =? 2 then (if Z.even q then q else q + 1)
  else q + 1.

(** The mantissa that [binary_round_aux] obtains for mantissa [m], exponent
    [e] and location [l], at the exponent [fexp (Zdigits2 m + e)]. *)
Definition round_mantissa (m e : Z) (l : location) : Z :=
  rne (sticky_shift (Z.to_nat (fexp F64.prec F64.emax (Zdigits2 m + e) - e))
         (key_loc m l)).

(** The number [binary_round_aux] returns for a rounded mantissa [m1] at
    exponent [er]: a carry into bit 53 moves to the next exponent, and an
    exponent above 971 overflows. *)
Definition finite_or_inf (sx : bool) (m e : Z) : spec_float :=
  if e <=? 971 then S754_finite sx (Z.to_pos m) e else S754_infinity sx.

Definition round_result (sx : bool) (m1 er : Z) : spec_float :=
  if m1 =? 0 then S754_zero sx
  else if m1 =? 2 ^ 53 then finite_or_inf sx (2 ^ 52) (er + 1)
  else finite_or_inf sx m1 er.

(** Rounding of a non-negative multiple [N] of [2^-1074], again in units of
    [2^-1074]. *)
Definition rnd_exponent (N : Z) : Z :=
  fexp F64.prec F64.emax (Zdigits2 N + -1074).

Definition rnd_mantissa (N : Z) : Z := round_mantissa N (-1074) loc_Exact.

Definition rnd (N : Z) : Z := rnd_mantissa N * 2 ^ (rnd_exponent N + 1074).

(** ** Python values of the model *)

(** The exceptions the modelled code can raise. *)
Inductive exn : Type :=
| ValueError (msg : string)
| IndexError (msg : string)
| AssertionError.

(** The contents of an array: its shape and its elements in row-major
    (C) order. *)
Record contents : Type := { c_shape : list nat; c_data : list F64.float }.

(** An array object: a C-contiguous window on buffer [base] that starts at
    element [offset]. Two objects with the same [base] share memory. *)
Record ndarray : Type := { base : nat; offset : nat; shape : list nat }.

(** [np.prod(shape)], the number of elements. *)
Definition size (s : list nat) : nat := foldr Nat.mul 1%nat s.

Definition ndim (a : ndarray) : nat := length (shape a).

(** Calls to the external routines, in the order they are made. *)
Inductive extcall : Type :=
| Call_gaussian_filter (input : contents) (sigma : F64.float)
| Call_compute_advection_field (im : contents) (lam : F64.float)
                               (num_iter num_levels : Z).

Record state : Type := { heap : list (list F64.float); calls : list extcall }.

(** ** The state-and-exception monad *)

Definition M (A : Type) : Type := state -> (exn + A) * state.

#[global] Instance M_ret : MRet M := fun A x st => (inr x, st).

#[global] Instance M_bind : MBind M := fun A B f m st =>
  match m st with
  | (inr x, st') => f x st'
  | (inl e, st') => (inl e, st')
  end.

Definition raise {A : Type} (e : exn) : M A := fun st => (inl e, st).

Definition run {A : Type} (m : M A) (st : state) : (exn + A) * state := m st.

(** ** Store primitives *)

Definition buffer (st : state) (l : nat) : list F64.float :=
  default [] (heap st !! l).

(** The elements an array object denotes in a state. *)
Definition elements (st : state) (a : ndarray) : list F64.float :=
  take (size (shape a)) (drop (offset a) (buffer st (base a))).

Definition snapshot (st : state) (a : ndarray) : contents :=
  {| c_shape := shape a; c_data := elements st a |}.

Definition read (a : ndarray) : M contents :=
  fun st => (inr (snapshot st a), st).

(** Allocation of a fresh buffer holding [v]. *)
Definition new_array (v : contents) : M ndarray :=
  fun st =>
    (inr {| base := length (heap st); offset := 0; shape := c_shape v |},
     {| heap := heap st ++ [c_data v]; calls := calls st |}).

(** In-place write of [d] over the elements of [a]. *)
Definition write (a : ndarray) (d : list F64.float) : M unit :=
  fun st =>
    (inr tt,
     {| heap := alter (list_inserts (offset a) d) (base a) (heap st);
        calls := calls st |}).

Definition log (c : extcall) : M unit :=
  fun st => (inr tt, {| heap := heap st; calls := calls st ++ [c] |}).

(** ** The NumPy operations used by [proesmans] *)

Definition nl : string := String (ascii_of_nat 10) EmptyString.

Definition str_nat (n : nat) : string :=
  NilEmpty.string_of_uint (Nat.to_uint n).

(** [str] of a shape tuple: [()], [(5,)], [(2, 3, 4)]. *)
Definition str_shape (s : list nat) : string :=
  match s with
  | [] => "()"
  | [n] => "(" ++ str_nat n ++ ",)"
  | n :: rest =>
      "(" ++ str_nat n ++
      foldr (fun k acc => ", " ++ str_nat k ++ acc) ")" rest
  end%string.

(** [a[i, :, :]]: a view on frame [i] of [a]; a negative [i] counts from the
    end. *)
Definition getitem_frame (a : ndarray) (i : Z) : M ndarray :=
  match shape a with
  | d0 :: rest =>
      if (length rest <? 2)%nat then
        raise (IndexError "too many indices for array")
      else
        let j := if i <? 0 then i + Z.of_nat d0 else i in
        if (0 <=? j) && (j <? Z.of_nat d0) then
          mret {| base := base a;
                  offset := offset a + Z.to_nat j * size rest;
                  shape := rest |}
        else raise (IndexError "index out of bounds")
  | [] => raise (IndexError "too many indices for array")
  end.

(** [a.copy()] *)
Definition ndarray_copy (a : ndarray) : M ndarray :=
  v ← read a; new_array v.

(** [np.stack([a, b])] *)
Definition np_stack (a b : ndarray) : M ndarray :=
  va ← read a;
  vb ← read b;
  if decide (c_shape va = c_shape vb) then
    new_array {| c_shape := 2%nat :: c_shape va;
                 c_data := c_data va ++ c_data vb |}
  else raise (ValueError "all input arrays must have the same shape").

(** The reduction loops of [np.min] and [np.max]: the accumulator is kept
    when it compares [<=] (resp. [>=]) to the next element or is NaN, so a
    NaN anywhere in the array is the result. *)
Definition fmin (acc x : F64.float) : F64.float :=
  if F64.leb acc x || F64.is_nan acc then acc else x.

Definition fmax (acc x : F64.float) : F64.float :=
  if F64.leb x acc || F64.is_nan acc then acc else x.

Definition reduce (f : F64.float -> F64.float -> F64.float)
    (l : list F64.float) : option F64.float :=
  match l with
  | [] => None
  | x :: r => Some (fold_left f r x)
  end.

Definition np_min (a : ndarray) : M F64.float :=
  v ← read a;
  match reduce fmin (c_data v) with
  | Some r => mret r
  | None =>
      raise (ValueError
        "zero-size array to reduction operation minimum which has no identity")
  end.

Definition np_max (a : ndarray) : M F64.float :=
  v ← read a;
  match reduce fmax (c_data v) with
  | Some r => mret r
  | None =>
      raise (ValueError
        "zero-size array to reduction operation maximum which has no identity")
  end.

(** [a op s] for an array [a] and a scalar [s]: a new array. *)
Definition array_scalar (op : F64.float -> F64.float -> F64.float)
    (a : ndarray) (s : F64.float) : M ndarray :=
  v ← read a;
  new_array {| c_shape := c_shape v;
               c_data := map (fun x => op x s) (c_data v) |}.

(** [a[i, :, :] = v]. The right-hand sides in [proesmans] have the shape of
    the frame; any other shape is reported as NumPy's broadcast error. *)
Definition setitem_frame (a : ndarray) (i : Z) (v : ndarray) : M unit :=
  w ← getitem_frame a i;
  x ← read v;
  if decide (c_shape x = shape w) then write w (c_data x)
  else raise (ValueError "could not broadcast input array").

(** ** The external routines *)

Class Collaborators : Type := {
(** [scipy.ndimage.gaussian_filter(input, sigma)] *)
  gaussian_filter : contents -> F64.float -> contents;
(** [pysteps.motion._proesmans._compute_advection_field] *)
  _compute_advection_field : contents -> F64.float -> Z -> Z -> contents
}.

Section Proesmans.

Context `{Collaborators}.

Definition call_gaussian_filter (a : ndarray) (sigma : F64.float) : M ndarray :=
  v ← read a;
  log (Call_gaussian_filter v sigma);;
  new_array (gaussian_filter v sigma).

Definition call_compute_advection_field (im : ndarray) (lam : F64.float)
    (num_iter num_levels : Z) : M ndarray :=
  v ← read im;
  log (Call_compute_advection_field v lam num_iter num_levels);;
  new_array (_compute_advection_field v lam num_iter num_levels).

(** The test of line 40. *)
Definition dimension_mismatch (a : ndarray) : bool :=
  negb (ndim a =? 3)%nat || negb (default 0%nat (shape a !! 0%nat) =? 2)%nat.

Definition mismatch_message (s : list nat) : string :=
  ("input_images dimension mismatch." ++ nl ++
   "input_images.shape: " ++ str_shape s ++
   nl ++ "(2, m, n) expected")%string.

(** Lines 40-43. *)
Definition validate (input_images : ndarray) : M unit :=
  if dimension_mismatch input_images then
    raise (ValueError (mismatch_message (shape input_images)))
  else mret tt.

(** Lines 45-46. *)
Definition extract (input_images : ndarray) : M (ndarray * ndarray) :=
  v1 ← getitem_frame input_images (-2);
  im1 ← ndarray_copy v1;
  v2 ← getitem_frame input_images (-1);
  im2 ← ndarray_copy v2;
  mret (im1, im2).

(** Lines 48-51. *)
Definition rescale (im1 im2 : ndarray) : M ndarray :=
  im ← np_stack im1 im2;
  im_min ← np_min im;
  im_max ← np_max im;
  t ← array_scalar F64.sub im im_min;
  q ← array_scalar F64.div t (F64.sub im_max im_min);
  array_scalar F64.mul q F64.f255.

(** Lines 53-55. *)
Definition smooth (im : ndarray) (filter_std : F64.float) : M unit :=
  if F64.ltb F64.zero filter_std then
    v0 ← getitem_frame im 0;
    g0 ← call_gaussian_filter v0 filter_std;
    setitem_frame im 0 g0;;
    v1 ← getitem_frame im 1;
    g1 ← call_gaussian_filter v1 filter_std;
    setitem_frame im 1 g1
  else mret tt.

(** Lines 40-55: everything before the call of the solver. *)
Definition preprocess (input_images : ndarray) (filter_std : F64.float)
    : M ndarray :=
  validate input_images;;
  '(im1, im2) ← extract input_images;
  im ← rescale im1 im2;
  smooth im filter_std;;
  mret im.

Definition proesmans (input_images : ndarray) (lam : F64.float)
    (num_iter num_levels : Z) (filter_std : F64.float) : M ndarray :=
  im ← preprocess input_images filter_std;
  call_compute_advection_field im lam num_iter num_levels.

End Proesmans.

(** ** Definitions used to state the properties *)

(** The state after allocating one more buffer. *)
Definition with_buffer (st : state) (d : list F64.float) : state :=
  {| heap := heap st ++ [d]; calls := calls st |}.

(** [a] lives in a buffer of [st], and its window fits in that buffer. *)
Definition allocated (st : state) (a : ndarray) : Prop :=
  (base a < length (heap st))%nat.

Definition in_bounds (st : state) (a : ndarray) : Prop :=
  (offset a + size (shape a) <= length (buffer st (base a)))%nat.

(** The view [a[k]] for an index [k] counted from the start. *)
Definition frame (a : ndarray) (k : nat) : ndarray :=
  {| base := base a;
     offset := offset a + k * size (tail (shape a));
     shape := tail (shape a) |}.

(** Lines 49-51 on the elements of the stacked array. *)
Definition rescale_value (mn mx x : F64.float) : F64.float :=
  F64.mul (F64.div (F64.sub x mn) (F64.sub mx mn)) F64.f255.

Definition rescale_data (d : list F64.float) : option (list F64.float) :=
  match reduce fmin d, reduce fmax d with
  | Some mn, Some mx => Some (map (rescale_value mn mx) d)
  | _, _ => None
  end.

Definition zero_size_message : string :=
  "zero-size array to reduction operation minimum which has no identity".

(** An error whose message contains the text of the shape [s]. *)
Definition carries_shape (e : exn) (s : list nat) : Prop :=
  exists pre post : string,
    e = ValueError (pre ++ str_shape s ++ post)%string.



(** Occurrence of a character in a string. *)
Fixpoint has_char (c : ascii) (s : string) : bool :=
  match s with
  | EmptyString => false
  | String x rest => Ascii.eqb x c || has_char c rest
  end.

(** What a caller observes of a finished call: the exception, or the
    contents of the returned array. *)
Definition observe (r : (exn + ndarray) * state) : exn + contents :=
  match r with
  | (inl e, _) => inl e
  | (inr a, st) => inr (snapshot st a)
  end.

(** The preprocessing with the smoothing step (lines 53-55) removed. *)
Definition preprocess_without_smoothing `{Collaborators}
    (input_images : ndarray) : M ndarray :=
  validate input_images;;
  '(im1, im2) ← extract input_images;
  rescale im1 im2.

(** Contents whose data fill their shape. *)
Definition well_formed (v : contents) : Prop :=
  length (c_data v) = size (c_shape v).

(** SciPy documents that [gaussian_filter] returns an array of the shape of
    its input. *)
Definition gaussian_filter_contract (C : Collaborators) : Prop :=
  forall v sigma,
    well_formed v ->
    c_shape (gaussian_filter v sigma) = c_shape v /\
    well_formed (gaussian_filter v sigma).

(** Modelled from the spec: [_compute_advection_field] is the compiled
    solver of this repository (module [pysteps.motion._proesmans]), which is
    not among the sources. The specification gives its result as the motion
    field of the finest pyramid level, "an array of shape (2, m, n) (u and v
    displacement components stacked, matching the original image
    resolution)". *)
Definition advection_field_contract (C : Collaborators) : Prop :=
  forall im lam num_iter num_levels m n,
    c_shape im = [2; m; n]%nat ->
    well_formed im ->
    c_shape (_compute_advection_field im lam num_iter num_levels)
      = [2; m; n]%nat /\
    well_formed (_compute_advection_field im lam num_iter num_levels).

(** [st'] extends [st] with new buffers and differs from it on the buffers
    of [st] at most in buffer [b]. *)
Definition updates_only (b : nat) (st st' : state) : Prop :=
  (length (heap st) <= length (heap st'))%nat /\
  forall l, (l < length (heap st))%nat -> l <> b ->
            heap st' !! l = heap st !! l.

(** [st'] extends [st] with new buffers only. *)
Definition extends (st st' : state) : Prop :=
  exists tail, heap st' = heap st ++ tail.

(** The states and the array that lines 45-51 produce from the input [a]. *)
Definition after_extract (st : state) (a : ndarray) : state :=
  with_buffer (with_buffer st (elements st (frame a 0)))
              (elements st (frame a 1)).

Definition after_rescale (st : state) (a : ndarray) (mn mx : F64.float)
    : state :=
  let E := elements st a in
  with_buffer
    (with_buffer
       (with_buffer (with_buffer (after_extract st a) E)
          (map (fun x => F64.sub x mn) E))
       (map (fun x => F64.div x (F64.sub mx mn))
          (map (fun x => F64.sub x mn) E)))
    (map (rescale_value mn mx) E).

Definition rescaled_array (st : state) (s : list nat) : ndarray :=
  {| base := length (heap st) + 5; offset := 0; shape := s |}.

(** *** The function computed on contents

    What one call computes from the elements [E] of its argument, with the
    store left out; [proesmans_run] below relates it to [proesmans]. *)

Definition broadcast_message : string := "could not broadcast input array".

Section Values.

Context `{Collaborators}.

(** Lines 54 and 55 on the buffer [R] of [im], for frame [k] of shape [s]. *)
Definition smooth_frame (s : list nat) (k : nat) (filter_std : F64.float)
    (R : list F64.float) : exn + list F64.float :=
  let G := gaussian_filter
             {| c_shape := s;
                c_data := take (size s) (drop (k * size s) R) |} filter_std in
  if decide (c_shape G = s) then
    inr (list_inserts (k * size s) (take (size (c_shape G)) (c_data G)) R)
  else inl (ValueError broadcast_message).

Definition smooth_value (s : list nat) (filter_std : F64.float)
    (R : list F64.float) : exn + list F64.float :=
  if F64.ltb F64.zero filter_std then
    match smooth_frame s 0 filter_std R with
    | inr R0 => smooth_frame s 1 filter_std R0
    | inl e => inl e
    end
  else inr R.

Definition preprocess_value (s : list nat) (filter_std : F64.float)
    (E : list F64.float) : exn + list F64.float :=
  match rescale_data E with
  | Some R => smooth_value s filter_std R
  | None => inl (ValueError zero_size_message)
  end.

Definition proesmans_value (s : list nat) (E : list F64.float)
    (lam : F64.float) (num_iter num_levels : Z) (filter_std : F64.float)
    : exn + contents :=
  match preprocess_value s filter_std E with
  | inr R =>
      let V := _compute_advection_field
                 {| c_shape := 2%nat :: s;
                    c_data := take (size (2%nat :: s)) R |}
                 lam num_iter num_levels in
      inr {| c_shape := c_shape V;
             c_data := take (size (c_shape V)) (c_data V) |}
  | inl e => inl e
  end.

End Values.

(** Stand-ins for the external routines, to run the model on concrete
    inputs: a filter that returns its input and a solver that returns the
    zero field. *)
Definition zero_field (im : contents) : contents :=
  {| c_shape := c_shape im; c_data := map (fun _ => F64.zero) (c_data im) |}.

Definition sample_collaborators : Collaborators :=
  {| gaussian_filter := fun v _ => v;
     _compute_advection_field := fun im _ _ _ => zero_field im |}.

(** A state holding one array with the given elements, and that array. *)
Definition state_of (d : list F64.float) : state :=
  {| heap := [d]; calls := [] |}.

Definition array_of (s : list nat) : ndarray :=
  {| base := 0; offset := 0; shape := s |}.

(** ** [smart_assert] *)




(** ** Definitions for the properties of the preprocessing *)

(** The contents of the array in which the result [v] of an external
    routine is stored. *)
Definition returned (v : contents) : contents :=
  {| c_shape := c_shape v; c_data := take (size (c_shape v)) (c_data v) |}.

(** A state, an array of shape (2, 1, 2) in it, and the elements that lines
    48-51 make of the array, to run the model on. *)
Definition sample_state : state :=
  state_of [F64.one; F64.zero; F64.f255; F64.one].

Definition sample_array : ndarray := array_of [2; 1; 2]%nat.

Definition sample_rescaled : list F64.float :=
  map (rescale_value F64.zero F64.f255) (elements sample_state sample_array).

(** The quotient [N / D] rounded down to an integer, with a sticky bit: twice
    the integer part, plus one when the quotient is not an integer. *)
Definition sticky_quot (N D : Z) : Z :=
  2 * (N / D) + (if N mod D =? 0 then 0 else 1).

(** Two binary64 numbers are the same datum ([0.0] and [-0.0] are not). *)
Definition float_eqb (x y : F64.float) : bool :=
  match x, y with
  | S754_zero s, S754_zero t => Bool.eqb s t
  | S754_infinity s, S754_infinity t => Bool.eqb s t
  | S754_nan, S754_nan => true
  | S754_finite s m e, S754_finite t n f =>
      Bool.eqb s t && Pos.eqb m n && Z.eqb e f
  | _, _ => false
  end.

(** The pixel values of an 8-bit image, as floats. *)
Definition is_byte (x : F64.float) : Prop :=
  exists k, 0 <= k <= 255 /\ x = F64.of_Z k.

(** The facts about the pixel value [k] that are checked by computation for
    [k = 0, ..., 255]. *)
Definition byte_checked (k : Z) : bool :=
  let x := F64.of_Z k in
  F64.valid x && negb (F64.is_nan x) && (F2Z x =? k * 2 ^ 1074) &&
  float_eqb (rescale_value (F64.of_Z 0) (F64.of_Z 255) x) x.

(** ** [get_precipitation_fields]

    The helper reads a reference field from the data archive. The archive,
    the configuration and the conversions of pysteps are parameters; the
    model follows the control flow of the function, records the calls it
    makes, and computes the NumPy operations on the field. *)

(** A [datetime] without seconds; the format ["%Y/%m/%d %H%M"] has none. *)
Record datetime : Type :=
  { year : Z; month : Z; day : Z; hour : Z; minute : Z }.

(** Lines 15-21: the dictionary of reference dates, in insertion order. The
    entries are the values of [datetime.strptime] on the literals of the
    source, e.g. ["2018/06/16 1000"] for ["bom"]. *)
Definition _reference_dates : list (string * datetime) :=
  [ ("bom",
     {| year := 2018; month := 6; day := 16; hour := 10; minute := 0 |});
    ("fmi",
     {| year := 2016; month := 9; day := 28; hour := 16; minute := 0 |});
    ("knmi",
     {| year := 2010; month := 8; day := 26; hour := 0; minute := 0 |});
    ("mch",
     {| year := 2015; month := 5; day := 15; hour := 16; minute := 30 |});
    ("opera",
     {| year := 2018; month := 8; day := 24; hour := 18; minute := 0 |});
    ("saf",
     {| year := 2018; month := 6; day := 1; hour := 7; minute := 0 |})
  ]%string.

(** [d[key]] on a dictionary given by its items; [None] stands for
    [KeyError]. *)
Fixpoint dict_get {A : Type} (key : string) (d : list (string * A))
    : option A :=
  match d with
  | [] => None
  | (k, v) :: rest => if String.eqb key k then Some v else dict_get key rest
  end.

(** [repr] of a string without quotes or escapes, and [str] of a list of
    such strings: ['a', 'b']. *)
Definition repr_str (s : string) : string := ("'" ++ s ++ "'")%string.

Definition str_list (l : list string) : string :=
  match l with
  | [] => "[]"
  | x :: rest =>
      "[" ++ repr_str x ++
      foldr (fun k acc => ", " ++ repr_str k ++ acc) "]" rest
  end%string.

(** A NumPy masked array: the data, the mask ([true] marks a masked
    element; [nomask] is the mask without [true]) and the fill value. *)
Record masked_array : Type :=
  { ma_shape : list nat;
    ma_data : list F64.float;
    ma_mask : list bool;
    ma_fill_value : F64.float }.

(** [np.squeeze]: the axes of length one are removed. *)
Definition np_squeeze (v : contents) : contents :=
  {| c_shape := filter (fun d => d <> 1%nat) (c_shape v);
     c_data := c_data v |}.

(** The default fill value of a masked array of floats, [1e20]. *)
Definition default_fill_value : F64.float :=
  Eval vm_compute in F64.of_Z (10 ^ 20).

(** [np.ma.masked_invalid] on an array that is not masked: NaN and the
    infinities are masked, the data are kept. *)
Definition masked_invalid (v : contents) : masked_array :=
  {| ma_shape := c_shape v;
     ma_data := c_data v;
     ma_mask := map (fun x => negb (F64.is_finite x)) (c_data v);
     ma_fill_value := default_fill_value |}.

(** [np.ma.set_fill_value] *)
Definition set_fill_value (a : masked_array) (v : F64.float) : masked_array :=
  {| ma_shape := ma_shape a; ma_data := ma_data a; ma_mask := ma_mask a;
     ma_fill_value := v |}.

(** [data[mask] = v] on the elements, for a mask of the shape of the
    data. *)
Fixpoint assign_where (mask : list bool) (v : F64.float)
    (data : list F64.float) : list F64.float :=
  match data, mask with
  | x :: data', b :: mask' =>
      (if b then v else x) :: assign_where mask' v data'
  | _, _ => data
  end.

(** The literals [-15.0] and [0.1]. *)
Definition minus_15 : F64.float := Eval vm_compute in F64.of_Z (-15).
Definition one_tenth : F64.float := S754_finite false 7205759403792794 (-56).

(** The field that is returned: the array as it was read, or the masked
    array that the preprocessing makes of it. *)
Inductive field : Type :=
| Raw (v : contents)
| Masked (a : masked_array).

(** The routines of pysteps and pytest that the helper calls, and the
    configuration it reads. A routine returns its result or the exception
    it raises. *)
Class Archive : Type := {
(** the values of an entry of the configuration, the lists of file names,
    the importers, the quality fields, the metadata and the exceptions of
    the routines *)
  cfg : Type;
  file_names : Type;
  importer_fn : Type;
  quality_t : Type;
  meta : Type;
  ext_error : Type;
(** whether the module can be imported, for [pytest.importorskip] *)
  importable : string -> bool;
(** [rcparams.data_sources] *)
  data_sources : string -> option (string -> option cfg);
(** [io.archive.find_by_date] *)
  find_by_date : datetime -> cfg -> cfg -> cfg -> cfg -> cfg -> Z -> Z ->
                 ext_error + file_names;
(** [io.get_method] *)
  get_method : cfg -> string -> ext_error + importer_fn;
(** [io.read_timeseries] *)
  read_timeseries : file_names -> importer_fn -> cfg ->
                    ext_error + (contents * quality_t * meta);
(** [pysteps.utils.to_rainrate] *)
  to_rainrate : contents -> meta -> ext_error + (contents * meta);
(** [pysteps.utils.aggregate_fields_space] *)
  aggregate_fields_space : contents -> meta -> option F64.float ->
                           ext_error + (contents * meta);
(** [pysteps.utils.dB_transform] *)
  dB_transform : masked_array -> meta -> F64.float -> F64.float ->
                 ext_error + (masked_array * meta)
}.

Section Helpers.

Context `{Archive}.

(** The exceptions of the helper: those of Python, [KeyError], the
    exception with which pytest skips a test, and those of the routines. *)
Inductive test_exn : Type :=
| Python (e : exn)
| KeyError (key : string)
| Skipped (modname : string)
| External (e : ext_error).

(** The calls of the external routines, with their arguments. *)
Inductive iocall : Type :=
| Call_importorskip (modname : string)
| Call_find_by_date (date : datetime)
    (root_path path_fmt fn_pattern fn_ext timestep : cfg)
    (num_prev_files num_next_files : Z)
| Call_get_method (name : cfg) (method_type : string)
| Call_read_timeseries (fns : file_names) (importer : importer_fn)
    (importer_kwargs : cfg)
| Call_to_rainrate (R : contents) (md : meta)
| Call_aggregate_fields_space (R : contents) (md : meta)
    (upscale : option F64.float)
| Call_dB_transform (R : masked_array) (md : meta)
    (threshold zerovalue : F64.float).

(** What the function returns: the field, with the metadata when they are
    asked for. *)
Inductive result : Type :=
| Field (f : field)
| Field_and_metadata (f : field) (md : meta).

Definition result_field (r : result) : field :=
  match r with Field f | Field_and_metadata f _ => f end.

(** The helper runs in an exception monad that records the calls. *)
Definition IO (A : Type) : Type :=
  list iocall -> (test_exn + A) * list iocall.

#[global] Instance IO_ret : MRet IO := fun A x tr => (inr x, tr).

#[global] Instance IO_bind : MBind IO := fun A B f m tr =>
  match m tr with
  | (inr x, tr') => f x tr'
  | (inl e, tr') => (inl e, tr')
  end.

Definition io_raise {A : Type} (e : test_exn) : IO A := fun tr => (inl e, tr).

Definition io_run {A : Type} (m : IO A) (tr : list iocall)
  : (test_exn + A) * list iocall := m tr.

(** A call of an external routine: it is recorded, and the exception it
    ends with, if any, is raised. *)
Definition call {A : Type} (c : iocall) (r : ext_error + A) : IO A :=
  fun tr => (match r with inr x => inr x | inl e => inl (External e) end,
             tr ++ [c]).

(** [pytest.importorskip(modname)] *)
Definition importorskip (modname : string) : IO unit :=
  fun tr => (if importable modname then inr tt else inl (Skipped modname),
             tr ++ [Call_importorskip modname]).

(** [d[key]] on a dictionary of the configuration. *)
Definition getitem {A : Type} (d : string -> option A) (key : string) : IO A :=
  match d key with
  | Some v => mret v
  | None => io_raise (KeyError key)
  end.

(** An [if] statement without [else]. *)
Definition when (b : bool) (m : IO unit) : IO unit :=
  if b then m else mret tt.

(** Lines 89-105. *)
Definition import_dependencies (source : string) : IO unit :=
  when (String.eqb source "bom") (importorskip "netCDF4");;
  when (String.eqb source "fmi") (importorskip "pyproj");;
  when (String.eqb source "knmi") (importorskip "h5py");;
  when (String.eqb source "mch") (importorskip "PIL");;
  when (String.eqb source "opera") (importorskip "h5py");;
  when (String.eqb source "saf") (importorskip "netCDF4").

(** Lines 110-112. *)
Definition unknown_source_message (source : string) : string :=
  ("Unknown source name '" ++ source ++ "'" ++ nl ++
   "The available data sources are: " ++
   str_list (map fst _reference_dates))%string.

(** Lines 107-112. *)
Definition reference_date (source : string) : IO datetime :=
  match dict_get source _reference_dates with
  | Some d => mret d
  | None => io_raise (Python (ValueError (unknown_source_message source)))
  end.

(** Lines 114-136: the files of the reference date are found and read. *)
Definition read_reference_field (date : datetime)
    (num_prev_files num_next_files : Z) (source : string)
    : IO (contents * quality_t * meta) :=
  data_source ← getitem data_sources source;
  root_path ← getitem data_source "root_path";
  path_fmt ← getitem data_source "path_fmt";
  fn_pattern ← getitem data_source "fn_pattern";
  fn_ext ← getitem data_source "fn_ext";
  importer_name ← getitem data_source "importer";
  importer_kwargs ← getitem data_source "importer_kwargs";
  timestep ← getitem data_source "timestep";
  fns ← call (Call_find_by_date date root_path path_fmt fn_pattern fn_ext
                timestep num_prev_files num_next_files)
             (find_by_date date root_path path_fmt fn_pattern fn_ext timestep
                num_prev_files num_next_files);
  importer ← call (Call_get_method importer_name "importer")
                  (get_method importer_name "importer");
  call (Call_read_timeseries fns importer importer_kwargs)
       (read_timeseries fns importer importer_kwargs).

(** Line 164, [reference_field.data[reference_field.mask] = -15.0]. NumPy
    raises [IndexError] for a boolean index that has not the shape of the
    data. *)
Definition fill_masked (a : masked_array) (v : F64.float) : IO masked_array :=
  if decide (length (ma_mask a) = length (ma_data a)) then
    mret {| ma_shape := ma_shape a;
            ma_data := assign_where (ma_mask a) v (ma_data a);
            ma_mask := ma_mask a;
            ma_fill_value := ma_fill_value a |}
  else
    io_raise (Python (IndexError
      "boolean index did not match indexed array")).

(** Lines 140-164, the preprocessing of the field that was read. *)
Definition preprocess_field (num_prev_files num_next_files : Z)
    (upscale : option F64.float) (reference_field : contents)
    (ref_metadata : meta) : IO (masked_array * meta) :=
  let reference_field :=
    if (num_prev_files =? 0) && (num_next_files =? 0)
    then np_squeeze reference_field else reference_field in
  '(reference_field, ref_metadata) ←
    call (Call_to_rainrate reference_field ref_metadata)
         (to_rainrate reference_field ref_metadata);
  '(reference_field, ref_metadata) ←
    call (Call_aggregate_fields_space reference_field ref_metadata upscale)
         (aggregate_fields_space reference_field ref_metadata upscale);
  let reference_field := masked_invalid reference_field in
  '(reference_field, ref_metadata) ←
    call (Call_dB_transform reference_field ref_metadata one_tenth minus_15)
         (dB_transform reference_field ref_metadata one_tenth minus_15);
  reference_field ← fill_masked (set_fill_value reference_field minus_15)
                      minus_15;
  mret (reference_field, ref_metadata).

(** Lines 24-169. The parameters have the defaults [0], [0], [False],
    [False], [None] and ["mch"]. *)
Definition get_precipitation_fields (num_prev_files num_next_files : Z)
    (return_raw metadata : bool) (upscale : option F64.float)
    (source : string) : IO result :=
  import_dependencies source;;
  date ← reference_date source;
  '(reference_field, _, ref_metadata) ←
    read_reference_field date num_prev_files num_next_files source;
  '(reference_field, ref_metadata) ←
    (if return_raw then mret (Raw reference_field, ref_metadata)
     else
       '(a, md) ← preprocess_field num_prev_files num_next_files upscale
                    reference_field ref_metadata;
       mret (Masked a, md));
  if metadata then mret (Field_and_metadata reference_field ref_metadata)
  else mret (Field reference_field).

(** The calls of the routines that change the field. *)
Definition is_transform (c : iocall) : bool :=
  match c with
  | Call_to_rainrate _ _ | Call_aggregate_fields_space _ _ _
  | Call_dB_transform _ _ _ _ => true
  | _ => false
  end.

Definition is_importorskip (c : iocall) : bool :=
  match c with Call_importorskip _ => true | _ => false end.

End Helpers.

(** The module that lines 89-105 require for each source. *)
Definition source_modules : list (string * string) :=
  [ ("bom", "netCDF4"); ("fmi", "pyproj"); ("knmi", "h5py");
    ("mch", "PIL"); ("opera", "h5py"); ("saf", "netCDF4") ]%string.

(** The keys read from an entry of [rcparams.data_sources], in the order of
    lines 115-121. *)
Definition data_source_keys : list string :=
  [ "root_path"; "path_fmt"; "fn_pattern"; "fn_ext"; "importer";
    "importer_kwargs"; "timestep" ]%string.

(** Archives for running the helper on concrete inputs. In the first every
    module can be imported, every key of the configuration is present, and
    one field of four pixels, one of them NaN, is read; the conversions
    return their argument. In the second only [PIL] can be imported and the
    entries of the configuration lack the key ["fn_ext"]. *)
Definition sample_archive : Archive :=
  {| cfg := string; file_names := list string; importer_fn := unit;
     quality_t := unit; meta := unit; ext_error := string;
     importable := fun _ => true;
     data_sources := fun _ => Some (fun key => Some key);
     find_by_date := fun _ _ _ _ _ _ _ _ => inr ["file"%string];
     get_method := fun _ _ => inr tt;
     read_timeseries := fun _ _ _ =>
       inr ({| c_shape := [1; 2; 2]%nat;
               c_data := [F64.one; F64.nan; F64.f255; F64.zero] |}, tt, tt);
     to_rainrate := fun R md => inr (R, md);
     aggregate_fields_space := fun R md _ => inr (R, md);
     dB_transform := fun a md _ _ => inr (a, md) |}.

Definition incomplete_archive : Archive :=
  {| cfg := string; file_names := list string; importer_fn := unit;
     quality_t := unit; meta := unit; ext_error := string;
     importable := fun modname => String.eqb modname "PIL";
     data_sources := fun _ =>
       Some (fun key => if String.eqb key "fn_ext" then None else Some key);
     find_by_date := fun _ _ _ _ _ _ _ _ => inr ["file"%string];
     get_method := fun _ _ => inr tt;
     read_timeseries := fun _ _ _ =>
       inr ({| c_shape := [1; 2; 2]%nat;
               c_data := [F64.one; F64.nan; F64.f255; F64.zero] |}, tt, tt);
     to_rainrate := fun R md => inr (R, md);
     aggregate_fields_space := fun R md _ => inr (R, md);
     dB_transform := fun a md _ _ => inr (a, md) |}.

(** * Properties *)

(** ** Running the monad *)

Lemma run_bind {A B : Type} (m : M A) (f : A -> M B) (st : state) :
  run (m ≫= f) st =
    match run m st with
    | (inr x, st') => run (f x) st'
    | (inl e, st') => (inl e, st')
    end.
Proof. reflexivity. Qed.

Lemma run_bind_ok {A B : Type} (m : M A) (f : A -> M B) st x st' :
  run m st = (inr x, st') -> run (m ≫= f) st = run (f x) st'.
Proof. intros E. rewrite run_bind, E. reflexivity. Qed.

Lemma run_bind_raise {A B : Type} (m : M A) (f : A -> M B) st e st' :
  run m st = (inl e, st') -> run (m ≫= f) st = (inl e, st').
Proof. intros E. rewrite run_bind, E. reflexivity. Qed.

Lemma run_ret {A : Type} (x : A) st : run (mret x) st = (inr x, st).
Proof. reflexivity. Qed.


(** ** The store *)

Lemma length_elements st a : (length (elements st a) <= size (shape a))%nat.
Proof. unfold elements. rewrite length_take. lia. Qed.

Lemma length_elements_in_bounds st a :
  in_bounds st a -> length (elements st a) = size (shape a).
Proof.
  unfold in_bounds, elements. intros Hb.
  rewrite length_take, length_drop. lia.
Qed.

(** An array that fills a newly allocated buffer denotes that buffer. *)
Lemma elements_fresh h d rest c s :
  elements {| heap := h ++ d :: rest; calls := c |}
           {| base := length h; offset := 0; shape := s |}
  = take (size s) d.
Proof.
  unfold elements, buffer. simpl.
  rewrite list_lookup_middle by reflexivity. reflexivity.
Qed.

Lemma buffer_app_l st l tail c :
  (l < length (heap st))%nat ->
  buffer {| heap := heap st ++ tail; calls := c |} l = buffer st l.
Proof.
  intros Hl. unfold buffer. simpl. rewrite lookup_app_l by exact Hl.
  reflexivity.
Qed.

(** Allocation leaves the arrays that exist untouched. *)
Lemma elements_app_l st a tail c :
  allocated st a ->
  elements {| heap := heap st ++ tail; calls := c |} a = elements st a.
Proof.
  intros Ha. unfold elements. rewrite buffer_app_l by exact Ha. reflexivity.
Qed.

(** The two frames of a stack, one after the other, are the stack. *)
Lemma elements_frames st a m n :
  shape a = [2; m; n]%nat ->
  elements st (frame a 0) ++ elements st (frame a 1) = elements st a.
Proof.
  intros Hs. unfold elements, frame. rewrite Hs. simpl.
  rewrite !Nat.add_0_r, <- drop_drop, take_take_drop.
  reflexivity.
Qed.

(** ** The NumPy operations *)

Lemma getitem_frame_run a i st d0 rest (j : nat) :
  shape a = d0 :: rest ->
  (2 <= length rest)%nat ->
  (j < d0)%nat ->
  i = Z.of_nat j \/ i = Z.of_nat j - Z.of_nat d0 ->
  run (getitem_frame a i) st = (inr (frame a j), st).
Proof.
  intros Hs Hr Hj Hi. unfold getitem_frame, frame. rewrite Hs. simpl tail.
  destruct (Nat.ltb_spec (length rest) 2) as [Hlt | _]; [lia |].
  assert (Hn : (if i <? 0 then i + Z.of_nat d0 else i) = Z.of_nat j).
  { destruct (Z.ltb_spec i 0); lia. }
  rewrite Hn.
  destruct (Z.leb_spec 0 (Z.of_nat j)); [| lia].
  destruct (Z.ltb_spec (Z.of_nat j) (Z.of_nat d0)); [| lia].
  simpl. rewrite Nat2Z.id. reflexivity.
Qed.

Lemma ndarray_copy_run a st :
  run (ndarray_copy a) st =
    (inr {| base := length (heap st); offset := 0; shape := shape a |},
     with_buffer st (elements st a)).
Proof. reflexivity. Qed.

Lemma np_stack_run a b st :
  shape a = shape b ->
  run (np_stack a b) st =
    (inr {| base := length (heap st); offset := 0;
            shape := 2%nat :: shape a |},
     with_buffer st (elements st a ++ elements st b)).
Proof.
  intros Hs. unfold np_stack, run, read, mbind, M_bind. simpl.
  destruct (decide (shape a = shape b)) as [_ | Hn]; [| contradiction].
  reflexivity.
Qed.

Lemma np_min_run a st :
  run (np_min a) st =
    match reduce fmin (elements st a) with
    | Some r => (inr r, st)
    | None => (inl (ValueError zero_size_message), st)
    end.
Proof.
  unfold np_min, run, read, mbind, M_bind. simpl.
  destruct (reduce fmin (elements st a)); reflexivity.
Qed.

Lemma np_max_run_nonempty a st r :
  reduce fmax (elements st a) = Some r ->
  run (np_max a) st = (inr r, st).
Proof.
  intros E. unfold np_max, run, read, mbind, M_bind. simpl.
  rewrite E. reflexivity.
Qed.

Lemma array_scalar_run op a s st :
  run (array_scalar op a s) st =
    (inr {| base := length (heap st); offset := 0; shape := shape a |},
     with_buffer st (map (fun x => op x s) (elements st a))).
Proof. reflexivity. Qed.



Lemma elements_with_buffer st d s :
  elements (with_buffer st d)
           {| base := length (heap st); offset := 0; shape := s |}
  = take (size s) d.
Proof. destruct st as [h c]. apply elements_fresh. Qed.

Lemma elements_with_buffer_old st d a :
  allocated st a -> elements (with_buffer st d) a = elements st a.
Proof. apply elements_app_l. Qed.

Lemma allocated_with_buffer st d a :
  allocated st a -> allocated (with_buffer st d) a.
Proof. unfold allocated, with_buffer. simpl. rewrite length_app. lia. Qed.

Lemma length_heap_with_buffer st d :
  length (heap (with_buffer st d)) = S (length (heap st)).
Proof. unfold with_buffer. simpl. rewrite length_app. simpl. lia. Qed.

(** ** Lines 45-46 *)

Section Runs.

Context `{Collaborators}.

Lemma extract_run st a m n :
  shape a = [2; m; n]%nat ->
  allocated st a ->
  run (extract a) st =
    (inr ({| base := length (heap st); offset := 0; shape := [m; n]%nat |},
          {| base := S (length (heap st)); offset := 0;
             shape := [m; n]%nat |}),
     with_buffer (with_buffer st (elements st (frame a 0)))
                 (elements st (frame a 1))).
Proof.
  intros Hs Ha. unfold extract.
  assert (Hf : forall k, shape (frame a k) = [m; n]%nat)
    by (intros k; unfold frame; rewrite Hs; reflexivity).
  erewrite run_bind_ok
    by (apply (getitem_frame_run a (-2) st 2%nat [m; n]%nat 0%nat);
        [exact Hs | simpl; lia | lia | right; reflexivity]).
  erewrite run_bind_ok by apply ndarray_copy_run.
  erewrite run_bind_ok
    by (apply (getitem_frame_run a (-1) _ 2%nat [m; n]%nat 1%nat);
        [exact Hs | simpl; lia | lia | right; reflexivity]).
  erewrite run_bind_ok by apply ndarray_copy_run.
  rewrite run_ret, !Hf, length_heap_with_buffer.
  rewrite (elements_with_buffer_old st _ (frame a 1)) by exact Ha.
  reflexivity.
Qed.

(** ** Lines 48-51 *)

Lemma take_size_stack (s : list nat) (e1 e2 : list F64.float) :
  (length e1 <= size s)%nat -> (length e2 <= size s)%nat ->
  take (size (2%nat :: s)) (e1 ++ e2) = e1 ++ e2.
Proof.
  intros H1 H2. apply take_ge. rewrite length_app. simpl. lia.
Qed.

Lemma rescale_run_empty st im1 im2 :
  shape im1 = shape im2 ->
  elements st im1 ++ elements st im2 = [] ->
  run (rescale im1 im2) st
  = (inl (ValueError zero_size_message), with_buffer st []).
Proof.
  intros Hs HE. unfold rescale.
  erewrite run_bind_ok by (apply np_stack_run; exact Hs).
  rewrite HE.
  erewrite run_bind_raise; [reflexivity |].
  rewrite np_min_run, elements_with_buffer, take_nil. reflexivity.
Qed.

Lemma rescale_run st im1 im2 mn mx :
  shape im1 = shape im2 ->
  let E := elements st im1 ++ elements st im2 in
  reduce fmin E = Some mn ->
  reduce fmax E = Some mx ->
  run (rescale im1 im2) st
  = (inr {| base := S (S (S (length (heap st)))); offset := 0;
            shape := 2%nat :: shape im1 |},
     with_buffer
       (with_buffer
          (with_buffer (with_buffer st E)
             (map (fun x => F64.sub x mn) E))
          (map (fun x => F64.div x (F64.sub mx mn))
             (map (fun x => F64.sub x mn) E)))
       (map (rescale_value mn mx) E)).
Proof.
  intros Hs E Hmn Hmx. unfold rescale.
  assert (HE : take (size (2%nat :: shape im1)) E = E).
  { apply take_size_stack; [apply length_elements |].
    rewrite Hs. apply length_elements. }
  erewrite run_bind_ok by (apply np_stack_run; exact Hs).
  fold E.
  erewrite run_bind_ok
    by (rewrite np_min_run, elements_with_buffer, HE, Hmn; reflexivity).
  erewrite run_bind_ok
    by (apply np_max_run_nonempty;
        rewrite elements_with_buffer, HE; exact Hmx).
  erewrite run_bind_ok by apply array_scalar_run.
  erewrite run_bind_ok by apply array_scalar_run.
  rewrite array_scalar_run. cbn [shape].
  rewrite !length_heap_with_buffer.
  rewrite elements_with_buffer, HE.
  rewrite <- (length_heap_with_buffer st E), elements_with_buffer.
  rewrite (take_ge (map _ E))
    by (rewrite length_map, <- HE, length_take; lia).
  rewrite <- (length_heap_with_buffer (with_buffer st E)
               (map (fun x => F64.sub x mn) E)), elements_with_buffer.
  rewrite (take_ge (map _ (map _ E)))
    by (rewrite !length_map, <- HE, length_take; lia).
  rewrite !map_map. reflexivity.
Qed.

(** ** Lines 53-55 *)

Lemma updates_only_refl b st : updates_only b st st.
Proof. split; [lia | reflexivity]. Qed.

Lemma updates_only_trans b st1 st2 st3 :
  updates_only b st1 st2 -> updates_only b st2 st3 -> updates_only b st1 st3.
Proof.
  intros [L1 F1] [L2 F2]. split; [lia |].
  intros l Hl Hb. rewrite F2 by (lia || exact Hb). apply F1; assumption.
Qed.

Lemma call_gaussian_filter_run a fs st :
  run (call_gaussian_filter a fs) st
  = (inr {| base := length (heap st); offset := 0;
            shape := c_shape (gaussian_filter (snapshot st a) fs) |},
     {| heap := heap st ++ [c_data (gaussian_filter (snapshot st a) fs)];
        calls := calls st ++ [Call_gaussian_filter (snapshot st a) fs] |}).
Proof. reflexivity. Qed.

Lemma setitem_frame_run a i v w st :
  run (getitem_frame a i) st = (inr w, st) ->
  run (setitem_frame a i v) st
  = if decide (shape v = shape w) then
      (inr tt,
       {| heap := alter (list_inserts (offset w) (elements st v)) (base w)
                    (heap st);
          calls := calls st |})
    else (inl (ValueError broadcast_message), st).
Proof.
  intros Hg. unfold setitem_frame.
  erewrite run_bind_ok by exact Hg.
  unfold run, read, mbind, M_bind, write, raise. simpl.
  destruct (decide (shape v = shape w)); reflexivity.
Qed.

(** One of the two assignments [im[k, :, :] = gaussian_filter(im[k, :, :],
    filter_std)]. *)
Lemma smooth_step_run st im s k fs :
  shape im = 2%nat :: s -> (2 <= length s)%nat -> offset im = 0%nat ->
  (k < 2)%nat -> allocated st im ->
  exists st',
    run (v ← getitem_frame im (Z.of_nat k);
         g ← call_gaussian_filter v fs;
         setitem_frame im (Z.of_nat k) g) st
    = (match smooth_frame s k fs (buffer st (base im)) with
       | inr _ => inr tt
       | inl e => inl e
       end, st') /\
    updates_only (base im) st st' /\
    (forall R', smooth_frame s k fs (buffer st (base im)) = inr R' ->
                buffer st' (base im) = R').
Proof.
  intros Hs Hl Ho Hk Ha.
  assert (Hg : forall st0, run (getitem_frame im (Z.of_nat k)) st0
                           = (inr (frame im k), st0)).
  { intros st0. apply (getitem_frame_run im _ st0 2%nat s k); auto. }
  erewrite run_bind_ok by apply Hg.
  erewrite run_bind_ok by apply call_gaussian_filter_run.
  erewrite setitem_frame_run by apply Hg.
  assert (Hsnap : snapshot st (frame im k)
          = {| c_shape := s;
               c_data := take (size s)
                           (drop (k * size s) (buffer st (base im))) |}).
  { unfold snapshot, elements, frame. rewrite Hs, Ho. reflexivity. }
  rewrite Hsnap. unfold smooth_frame.
  set (G := gaussian_filter _ fs).
  assert (Hfs : shape (frame im k) = s)
    by (unfold frame; rewrite Hs; reflexivity).
  rewrite Hfs. cbn [shape].
  destruct (decide (c_shape G = s)) as [HG | HG].
  - eexists. split; [reflexivity |]. split.
    + split; simpl.
      * rewrite length_alter, length_app. lia.
      * intros l Hlt Hne. cbn [base frame].
        rewrite list_lookup_alter_ne by congruence.
        apply lookup_app_l. exact Hlt.
    + intros R' HR. injection HR as <-. unfold buffer. simpl.
      rewrite list_lookup_alter_eq, lookup_app_l by exact Ha.
      unfold allocated in Ha. apply lookup_lt_is_Some_2 in Ha as [buf Hbuf].
      rewrite Hbuf. simpl. rewrite Ho. simpl.
      f_equal; [rewrite Hs; reflexivity |].
      apply elements_fresh.
  - eexists. split; [reflexivity |]. split.
    + split; simpl.
      * rewrite length_app. lia.
      * intros l Hlt _. apply lookup_app_l. exact Hlt.
    + intros R' HR. discriminate HR.
Qed.

Lemma allocated_updates_only b st st' a :
  updates_only b st st' -> allocated st a -> allocated st' a.
Proof. intros [L _]. unfold allocated. lia. Qed.

Lemma smooth_run st im s fs :
  shape im = 2%nat :: s -> (2 <= length s)%nat -> offset im = 0%nat ->
  allocated st im ->
  exists st',
    run (smooth im fs) st
    = (match smooth_value s fs (buffer st (base im)) with
       | inr _ => inr tt
       | inl e => inl e
       end, st') /\
    updates_only (base im) st st' /\
    (forall R', smooth_value s fs (buffer st (base im)) = inr R' ->
                buffer st' (base im) = R').
Proof.
  intros Hs Hl Ho Ha. unfold smooth, smooth_value.
  destruct (F64.ltb F64.zero fs).
  - destruct (smooth_step_run st im s 0 fs Hs Hl Ho ltac:(lia) Ha)
      as (st1 & Hrun1 & Hup1 & Hbuf1).
    change (Z.of_nat 0) with 0 in Hrun1.
    rewrite run_bind in Hrun1.
    rewrite run_bind.
    destruct (run (getitem_frame im 0) st) as [[e0 | w0] stw].
    + rewrite Hrun1.
      destruct (smooth_frame s 0 fs (buffer st (base im))) as [e | R0] eqn:E0.
      * exists st1. repeat split; try apply Hup1. intros R' HR. discriminate HR.
      * discriminate Hrun1.
    + rewrite run_bind in Hrun1. rewrite run_bind.
      destruct (run (call_gaussian_filter w0 fs) stw) as [[e1 | g0] stg].
      * rewrite Hrun1.
        destruct (smooth_frame s 0 fs (buffer st (base im))) as [e | R0] eqn:E0.
        -- exists st1. repeat split; try apply Hup1.
           intros R' HR. discriminate HR.
        -- discriminate Hrun1.
      * rewrite run_bind. rewrite Hrun1.
        destruct (smooth_frame s 0 fs (buffer st (base im))) as [e | R0] eqn:E0.
        -- exists st1. repeat split; try apply Hup1.
           intros R' HR. discriminate HR.
        -- pose proof (allocated_updates_only _ _ _ _ Hup1 Ha) as Ha1.
           destruct (smooth_step_run st1 im s 1 fs Hs Hl Ho ltac:(lia) Ha1)
             as (st2 & Hrun2 & Hup2 & Hbuf2).
           change (Z.of_nat 1) with 1 in Hrun2.
           rewrite (Hbuf1 R0 eq_refl) in Hrun2, Hbuf2.
           exists st2. split; [exact Hrun2 |]. split.
           ++ eapply updates_only_trans; eassumption.
           ++ exact Hbuf2.
  - exists st. split; [reflexivity |]. split; [apply updates_only_refl |].
    intros R' HR. injection HR as <-. reflexivity.
Qed.

(** ** Lines 40-51 *)

Lemma dimension_mismatch_false a m n :
  shape a = [2; m; n]%nat -> dimension_mismatch a = false.
Proof. intros Hs. unfold dimension_mismatch, ndim. rewrite Hs. reflexivity. Qed.

Lemma dimension_mismatch_true a :
  ndim a <> 3%nat \/ shape a !! 0%nat <> Some 2%nat ->
  dimension_mismatch a = true.
Proof.
  unfold dimension_mismatch, ndim.
  destruct (Nat.eqb_spec (length (shape a)) 3) as [E3 | N3]; simpl.
  - intros [Hn | Hn]; [contradiction |].
    destruct (shape a) as [| d0 rest]; [discriminate E3 |]. simpl in *.
    destruct (Nat.eqb_spec d0 2) as [-> | _]; [contradiction | reflexivity].
  - reflexivity.
Qed.

Lemma validate_run_ok a m n st :
  shape a = [2; m; n]%nat -> run (validate a) st = (inr tt, st).
Proof.
  intros Hs. unfold validate.
  rewrite (dimension_mismatch_false a m n Hs). reflexivity.
Qed.

Lemma validate_run_mismatch a st :
  dimension_mismatch a = true ->
  run (validate a) st = (inl (ValueError (mismatch_message (shape a))), st).
Proof. intros Hd. unfold validate. rewrite Hd. reflexivity. Qed.

Lemma elements_after_extract st a m n :
  shape a = [2; m; n]%nat ->
  elements (after_extract st a)
    {| base := length (heap st); offset := 0; shape := [m; n]%nat |}
  ++ elements (after_extract st a)
    {| base := S (length (heap st)); offset := 0; shape := [m; n]%nat |}
  = elements st a.
Proof.
  intros Hs. unfold after_extract.
  rewrite elements_with_buffer_old
    by (unfold allocated; rewrite length_heap_with_buffer; simpl; lia).
  rewrite elements_with_buffer.
  rewrite <- (length_heap_with_buffer st (elements st (frame a 0))).
  rewrite elements_with_buffer.
  assert (Hf : forall k, shape (frame a k) = [m; n]%nat)
    by (intros k; unfold frame; rewrite Hs; reflexivity).
  rewrite (take_ge (elements st (frame a 0)))
    by (rewrite <- (Hf 0%nat); apply length_elements).
  rewrite (take_ge (elements st (frame a 1)))
    by (rewrite <- (Hf 1%nat); apply length_elements).
  apply (elements_frames st a m n Hs).
Qed.

Lemma length_heap_after_extract st a :
  length (heap (after_extract st a)) = S (S (length (heap st))).
Proof. unfold after_extract. rewrite !length_heap_with_buffer. reflexivity. Qed.

Lemma preprocess_without_smoothing_run_empty st a m n :
  shape a = [2; m; n]%nat ->
  allocated st a ->
  elements st a = [] ->
  run (preprocess_without_smoothing a) st
  = (inl (ValueError zero_size_message),
     with_buffer (after_extract st a) []).
Proof.
  intros Hs Ha HE. unfold preprocess_without_smoothing.
  erewrite run_bind_ok by (apply (validate_run_ok a m n); exact Hs).
  erewrite run_bind_ok by (apply (extract_run st a m n); assumption).
  fold (after_extract st a).
  apply rescale_run_empty; [reflexivity |].
  rewrite (elements_after_extract st a m n Hs). exact HE.
Qed.

Lemma preprocess_without_smoothing_run st a m n mn mx :
  shape a = [2; m; n]%nat ->
  allocated st a ->
  reduce fmin (elements st a) = Some mn ->
  reduce fmax (elements st a) = Some mx ->
  run (preprocess_without_smoothing a) st
  = (inr (rescaled_array st [2; m; n]%nat), after_rescale st a mn mx).
Proof.
  intros Hs Ha Hmn Hmx. unfold preprocess_without_smoothing.
  erewrite run_bind_ok by (apply (validate_run_ok a m n); exact Hs).
  erewrite run_bind_ok by (apply (extract_run st a m n); assumption).
  fold (after_extract st a). cbv beta iota.
  erewrite (rescale_run _ _ _ mn mx);
    [ | reflexivity
      | rewrite (elements_after_extract st a m n Hs); exact Hmn
      | rewrite (elements_after_extract st a m n Hs); exact Hmx ].
  rewrite (elements_after_extract st a m n Hs).
  rewrite length_heap_after_extract.
  unfold rescaled_array, after_rescale. cbn [shape].
  replace (length (heap st) + 5)%nat
    with (S (S (S (S (S (length (heap st))))))) by lia.
  reflexivity.
Qed.

Lemma length_heap_after_rescale st a mn mx :
  length (heap (after_rescale st a mn mx)) = (length (heap st) + 6)%nat.
Proof.
  unfold after_rescale. rewrite !length_heap_with_buffer.
  rewrite length_heap_after_extract. lia.
Qed.

Lemma extends_with_buffer st st' d :
  extends st st' -> extends st (with_buffer st' d).
Proof.
  intros [tail Ht]. exists (tail ++ [d]). unfold with_buffer. simpl.
  rewrite Ht, app_assoc. reflexivity.
Qed.

Lemma extends_refl st : extends st st.
Proof. exists []. rewrite app_nil_r. reflexivity. Qed.

Lemma extends_after_extract st a : extends st (after_extract st a).
Proof.
  unfold after_extract. do 2 apply extends_with_buffer. apply extends_refl.
Qed.

Lemma extends_after_rescale st a mn mx : extends st (after_rescale st a mn mx).
Proof.
  unfold after_rescale. do 4 apply extends_with_buffer.
  apply extends_after_extract.
Qed.

Lemma buffer_after_rescale st a mn mx :
  buffer (after_rescale st a mn mx) (length (heap st) + 5)
  = map (rescale_value mn mx) (elements st a).
Proof.
  unfold after_rescale, buffer.
  match goal with
  | |- context [with_buffer ?s (map (rescale_value mn mx) _)] =>
      set (st5 := s)
  end.
  assert (H5 : length (heap st5) = (length (heap st) + 5)%nat).
  { unfold st5. rewrite !length_heap_with_buffer, length_heap_after_extract.
    lia. }
  rewrite <- H5. unfold with_buffer at 1. simpl.
  rewrite list_lookup_middle by reflexivity. reflexivity.
Qed.

Lemma elements_rescaled_array st a m n mn mx :
  shape a = [2; m; n]%nat ->
  elements (after_rescale st a mn mx) (rescaled_array st [2; m; n]%nat)
  = map (rescale_value mn mx) (elements st a).
Proof.
  intros Hs. unfold elements, rescaled_array. cbn [base offset shape].
  rewrite buffer_after_rescale, drop_0.
  apply take_ge. rewrite length_map, <- Hs. apply length_elements.
Qed.

(** ** The whole function *)

Lemma preprocess_split a fs st :
  run (preprocess a fs) st
  = run (im ← preprocess_without_smoothing a; smooth im fs;; mret im) st.
Proof.
  unfold preprocess, preprocess_without_smoothing, run, mbind, M_bind.
  destruct (validate a st) as [[e | []] st1]; [reflexivity |].
  destruct (extract a st1) as [[e | [im1 im2]] st2]; [reflexivity |].
  destruct (rescale im1 im2 st2) as [[e | im] st3]; reflexivity.
Qed.

Lemma extends_updates_only st st1 st2 b :
  extends st st1 -> updates_only b st1 st2 ->
  (length (heap st) <= b)%nat ->
  extends st st2.
Proof.
  intros [tail Ht] [Hlen Hsame] Hb.
  exists (drop (length (heap st)) (heap st2)).
  rewrite <- (take_drop (length (heap st)) (heap st2)) at 1.
  f_equal. apply list_eq. intros i.
  destruct (decide (i < length (heap st))%nat) as [Hi | Hi].
  - rewrite lookup_take_lt by exact Hi.
    rewrite Hsame by (rewrite ?Ht, ?length_app; lia).
    rewrite Ht. apply lookup_app_l. exact Hi.
  - rewrite lookup_take_ge by lia.
    symmetry. apply lookup_ge_None. lia.
Qed.

Lemma extends_length st st' :
  extends st st' -> (length (heap st) <= length (heap st'))%nat.
Proof. intros [tail ->]. rewrite length_app. lia. Qed.

Lemma extends_elements st st' a :
  extends st st' -> allocated st a -> elements st' a = elements st a.
Proof.
  intros [tail Ht] Ha. destruct st' as [h' c']. simpl in Ht. subst h'.
  apply elements_app_l. exact Ha.
Qed.

Lemma rescale_data_Some d R :
  rescale_data d = Some R ->
  exists mn mx, reduce fmin d = Some mn /\ reduce fmax d = Some mx /\
                R = map (rescale_value mn mx) d.
Proof.
  unfold rescale_data.
  destruct (reduce fmin d) as [mn |]; [| discriminate].
  destruct (reduce fmax d) as [mx |]; [| discriminate].
  intros [= <-]. eauto.
Qed.

Lemma rescale_data_None d : rescale_data d = None -> d = [].
Proof.
  destruct d as [| x d]; [reflexivity | discriminate].
Qed.

Lemma preprocess_run st a m n fs :
  shape a = [2; m; n]%nat ->
  allocated st a ->
  exists st',
    run (preprocess a fs) st
    = (match preprocess_value [m; n]%nat fs (elements st a) with
       | inr _ => inr (rescaled_array st [2; m; n]%nat)
       | inl e => inl e
       end, st') /\
    extends st st' /\
    (forall R, preprocess_value [m; n]%nat fs (elements st a) = inr R ->
               buffer st' (length (heap st) + 5) = R /\
               (length (heap st) + 5 < length (heap st'))%nat).
Proof.
  intros Hs Ha. rewrite preprocess_split. unfold preprocess_value.
  destruct (rescale_data (elements st a)) as [R0 |] eqn:ER.
  - apply rescale_data_Some in ER as (mn & mx & Hmn & Hmx & ->).
    erewrite run_bind_ok
      by (apply (preprocess_without_smoothing_run st a m n mn mx);
          assumption).
    cbv beta.
    assert (Ha1 : allocated (after_rescale st a mn mx)
                    (rescaled_array st [2; m; n]%nat)).
    { unfold allocated. rewrite length_heap_after_rescale. simpl. lia. }
    destruct (smooth_run (after_rescale st a mn mx)
                (rescaled_array st [2; m; n]%nat) [m; n]%nat fs eq_refl
                ltac:(simpl; lia) eq_refl Ha1) as (st2 & Hrun & Hup & Hbuf).
    change (base (rescaled_array st [2; m; n]%nat))
      with (length (heap st) + 5)%nat in Hrun, Hup, Hbuf.
    rewrite buffer_after_rescale in Hrun, Hbuf.
    exists st2. rewrite run_bind, Hrun.
    assert (Hext : extends st st2).
    { eapply extends_updates_only;
        [apply (extends_after_rescale st a mn mx) | exact Hup | lia]. }
    destruct (smooth_value [m; n]%nat fs
                (map (rescale_value mn mx) (elements st a))) as [e | R].
    + split; [reflexivity |]. split; [exact Hext |].
      intros R HR. discriminate HR.
    + split; [reflexivity |]. split; [exact Hext |].
      intros R' [= <-]. split; [apply Hbuf; reflexivity |].
      destruct Hup as [Hlen _].
      rewrite length_heap_after_rescale in Hlen. lia.
  - apply rescale_data_None in ER.
    erewrite run_bind_raise
      by (apply (preprocess_without_smoothing_run_empty st a m n);
          assumption).
    eexists. split; [reflexivity |]. split.
    + apply extends_with_buffer, extends_after_extract.
    + intros R HR. discriminate HR.
Qed.

Lemma call_compute_advection_field_run im lam num_iter num_levels st :
  run (call_compute_advection_field im lam num_iter num_levels) st
  = (inr {| base := length (heap st); offset := 0;
            shape := c_shape (_compute_advection_field (snapshot st im)
                                lam num_iter num_levels) |},
     {| heap := heap st ++
                [c_data (_compute_advection_field (snapshot st im)
                           lam num_iter num_levels)];
        calls := calls st ++
                 [Call_compute_advection_field (snapshot st im)
                    lam num_iter num_levels] |}).
Proof. reflexivity. Qed.

Lemma proesmans_run st a m n lam num_iter num_levels fs :
  shape a = [2; m; n]%nat ->
  allocated st a ->
  exists o st',
    run (proesmans a lam num_iter num_levels fs) st = (o, st') /\
    extends st st' /\
    observe (o, st')
    = proesmans_value [m; n]%nat (elements st a) lam num_iter num_levels fs /\
    (forall r, o = inr r -> (length (heap st) < base r)%nat).
Proof.
  intros Hs Ha. unfold proesmans, proesmans_value.
  destruct (preprocess_run st a m n fs Hs Ha) as (st1 & Hrun & Hext & Hbuf).
  rewrite run_bind, Hrun.
  destruct (preprocess_value [m; n]%nat fs (elements st a)) as [e | R].
  - exists (inl e), st1. repeat split; [exact Hext | ].
    intros r Hr. discriminate Hr.
  - destruct (Hbuf R eq_refl) as [HR Hlen].
    rewrite call_compute_advection_field_run.
    assert (Hsnap : snapshot st1 (rescaled_array st [2; m; n]%nat)
                    = {| c_shape := [2; m; n]%nat;
                         c_data := take (size [2; m; n]%nat) R |}).
    { unfold snapshot, elements, rescaled_array. cbn [base offset shape].
      rewrite HR, drop_0. reflexivity. }
    rewrite Hsnap.
    eexists _, _. split; [reflexivity |].
    split; [| split].
    + destruct Hext as [tail Ht]. eexists (tail ++ [_]).
      cbn [heap]. rewrite Ht, app_assoc. reflexivity.
    + unfold observe, snapshot. cbn [shape]. f_equal. f_equal.
      apply elements_fresh.
    + intros r [= <-]. cbn [base].
      apply extends_length in Hext. lia.
Qed.

Lemma dimension_mismatch_false_inv a :
  dimension_mismatch a = false -> exists m n, shape a = [2; m; n]%nat.
Proof.
  unfold dimension_mismatch, ndim. intros Hd.
  apply orb_false_elim in Hd as [H3 H2].
  apply negb_false_iff in H3, H2.
  apply Nat.eqb_eq in H3, H2.
  destruct (shape a) as [| d0 [| m [| n [| ? ?]]]]; try discriminate H3.
  simpl in H2. subst d0. eauto.
Qed.

Lemma proesmans_run_mismatch st a lam num_iter num_levels fs :
  dimension_mismatch a = true ->
  run (proesmans a lam num_iter num_levels fs) st
  = (inl (ValueError (mismatch_message (shape a))), st).
Proof.
  intros Hd. unfold proesmans, preprocess.
  erewrite run_bind_raise; [reflexivity |].
  erewrite run_bind_raise; [reflexivity |].
  apply validate_run_mismatch. exact Hd.
Qed.

(** The errors a call can raise once the validation has passed. *)
Lemma preprocess_value_error s fs E e :
  preprocess_value s fs E = inl e ->
  e = ValueError zero_size_message \/ e = ValueError broadcast_message.
Proof.
  unfold preprocess_value, smooth_value, smooth_frame.
  destruct (rescale_data E) as [R |]; [| intros [= <-]; left; reflexivity].
  destruct (F64.ltb F64.zero fs); [| discriminate].
  repeat match goal with
         | |- context [decide ?P] => destruct (decide P)
         end;
    intros [= <-]; right; reflexivity.
Qed.

(** The output depends on the store only through the elements of the
    input. *)
Lemma proesmans_observe st a lam num_iter num_levels fs :
  allocated st a ->
  observe (run (proesmans a lam num_iter num_levels fs) st)
  = if dimension_mismatch a
    then inl (ValueError (mismatch_message (shape a)))
    else proesmans_value (drop 1 (shape a)) (elements st a)
           lam num_iter num_levels fs.
Proof.
  intros Ha. destruct (dimension_mismatch a) eqn:Hd.
  - rewrite proesmans_run_mismatch by exact Hd. reflexivity.
  - destruct (dimension_mismatch_false_inv a Hd) as (m & n & Hs).
    destruct (proesmans_run st a m n lam num_iter num_levels fs Hs Ha)
      as (o & st' & Hrun & _ & Hobs & _).
    rewrite Hrun, Hobs, Hs. reflexivity.
Qed.

End Runs.


(** ** Input validation *)

Lemma has_char_app c s1 s2 :
  has_char c (s1 ++ s2)%string = has_char c s1 || has_char c s2.
Proof.
  induction s1 as [| x s1 IH]; simpl; [reflexivity |].
  rewrite IH, orb_assoc. reflexivity.
Qed.

Lemma str_shape_paren d0 rest :
  exists tl, str_shape (d0 :: rest) = String "(" tl.
Proof. destruct rest; simpl; eauto. Qed.

(** A message without an opening parenthesis does not contain the text of
    a shape of one or more dimensions. *)
Lemma not_carries_shape msg d0 rest :
  has_char "(" msg = false -> ~ carries_shape (ValueError msg) (d0 :: rest).
Proof.
  intros Hc (pre & post & Heq).
  destruct (str_shape_paren d0 rest) as [tl Htl].
  rewrite Htl in Heq.
  assert (Hm : msg = (pre ++ String "(" tl ++ post)%string) by congruence.
  rewrite Hm, !has_char_app in Hc. simpl in Hc.
  rewrite orb_true_r in Hc. discriminate Hc.
Qed.

(** C2. An array that is not 3-dimensional, or whose leading dimension is
    not 2, makes [proesmans] raise the [ValueError] of lines 41-43 (the
    shape error of the specification), whose message contains
    [str(input_images.shape)]; for an array of shape (2, m, n) no raised
    error carries the shape: the validation error does not occur. *)
Theorem proesmans_shape_error `{Collaborators} st a lam num_iter num_levels fs :
  allocated st a ->
  (ndim a <> 3%nat \/ shape a !! 0%nat <> Some 2%nat ->
   fst (run (proesmans a lam num_iter num_levels fs) st)
   = inl (ValueError (mismatch_message (shape a))) /\
   carries_shape (ValueError (mismatch_message (shape a))) (shape a)) /\
  (forall m n, shape a = [2; m; n]%nat ->
   forall e, fst (run (proesmans a lam num_iter num_levels fs) st) = inl e ->
             ~ carries_shape e (shape a)).
Proof.
  intros Ha. split.
  - intros Hbad. apply dimension_mismatch_true in Hbad.
    rewrite proesmans_run_mismatch by exact Hbad. split; [reflexivity |].
    unfold carries_shape, mismatch_message.
    exists ("input_images dimension mismatch." ++ nl ++
            "input_images.shape: ")%string,
           (nl ++ "(2, m, n) expected")%string.
    reflexivity.
  - intros m n Hs e He.
    destruct (proesmans_run st a m n lam num_iter num_levels fs Hs Ha)
      as (o & st' & Hrun & _ & Hobs & _).
    rewrite Hrun in He. simpl in He. subst o. simpl in Hobs.
    unfold proesmans_value in Hobs.
    destruct (preprocess_value [m; n]%nat fs (elements st a))
      as [e' | R] eqn:Ev; [| discriminate Hobs].
    injection Hobs as <-. rewrite Hs.
    apply preprocess_value_error in Ev as [-> | ->];
      apply not_carries_shape; reflexivity.
Qed.

Lemma proesmans_shape_error_witness :
  allocated (state_of [F64.one; F64.one; F64.one]) (array_of [3; 1; 1]%nat) /\
  fst (run (proesmans (H := sample_collaborators) (array_of [3; 1; 1]%nat)
             F64.f255 100 6 F64.zero)
         (state_of [F64.one; F64.one; F64.one]))
  = inl (ValueError (mismatch_message [3; 1; 1]%nat)).
Proof.
  assert (Ha : allocated (state_of [F64.one; F64.one; F64.one])
                 (array_of [3; 1; 1]%nat)) by (unfold allocated; simpl; lia).
  split; [exact Ha |].
  apply (proesmans_shape_error (H := sample_collaborators) _ _
           F64.f255 100 6 F64.zero Ha).
  right. discriminate.
Defined.

(** C7. On an input that the validation rejects, [proesmans] raises the
    validation error and leaves the state as it was: no buffer has been
    allocated (no frame copied, nothing stacked or rescaled), no external
    routine has been called, and no array is returned. *)
Theorem proesmans_rejects_before_computing `{Collaborators}
    st a lam num_iter num_levels fs :
  dimension_mismatch a = true ->
  run (proesmans a lam num_iter num_levels fs) st
  = (inl (ValueError (mismatch_message (shape a))), st).
Proof. apply proesmans_run_mismatch. Qed.

Lemma proesmans_rejects_before_computing_witness :
  run (proesmans (H := sample_collaborators) (array_of [2; 3]%nat)
         F64.f255 100 6 F64.one)
      (state_of [F64.one; F64.one; F64.one; F64.zero; F64.one; F64.one])
  = (inl (ValueError (mismatch_message [2; 3]%nat)),
     state_of [F64.one; F64.one; F64.one; F64.zero; F64.one; F64.one]).
Proof.
  apply (proesmans_rejects_before_computing (H := sample_collaborators)).
  reflexivity.
Defined.

(** ** The optional smoothing *)

Lemma leb_zero_not_positive (x : F64.float) :
  F64.leb x F64.zero = true -> F64.ltb F64.zero x = false.
Proof.
  unfold F64.leb, F64.ltb, F64.zero, SFleb, SFltb.
  destruct x as [s | [|] | | [|] m e]; simpl; congruence.
Qed.

(** C4. With [filter_std <= 0] (in particular [0.0]) the preprocessing is
    the preprocessing without lines 53-55: the two computations return the
    same array and leave the same state, element for element. *)
Theorem preprocess_nonpositive_filter_std `{Collaborators} st a filter_std :
  F64.leb filter_std F64.zero = true ->
  run (preprocess a filter_std) st = run (preprocess_without_smoothing a) st.
Proof.
  intros Hle. rewrite preprocess_split, run_bind.
  destruct (run (preprocess_without_smoothing a) st) as [[e | im] st'];
    [reflexivity |].
  unfold smooth. rewrite (leb_zero_not_positive _ Hle). reflexivity.
Qed.

Lemma preprocess_nonpositive_filter_std_witness :
  F64.leb F64.zero F64.zero = true /\
  run (preprocess (H := sample_collaborators) (array_of [2; 1; 2]%nat)
         F64.zero)
      (state_of [F64.zero; F64.one; F64.f255; F64.one])
  = run (preprocess_without_smoothing (H := sample_collaborators)
           (array_of [2; 1; 2]%nat))
        (state_of [F64.zero; F64.one; F64.f255; F64.one]).
Proof.
  split; [reflexivity |].
  apply (preprocess_nonpositive_filter_std (H := sample_collaborators)).
  reflexivity.
Defined.

(** ** Frames, copies and the caller's array *)

(** C5. On a valid input the two frames that [proesmans] works on are
    copies, held in buffers of their own; the call leaves every buffer that
    existed before it as it was, so the caller's array has the elements it
    had, whatever the parameters; and the array returned lives in a buffer
    allocated during the call, not in the caller's. *)
Theorem proesmans_preserves_input `{Collaborators}
    st a m n lam num_iter num_levels filter_std :
  shape a = [2; m; n]%nat ->
  allocated st a ->
  (exists im1 im2 st1,
     run (extract a) st = (inr (im1, im2), st1) /\
     base im1 <> base a /\ base im2 <> base a /\ base im1 <> base im2) /\
  exists o st',
    run (proesmans a lam num_iter num_levels filter_std) st = (o, st') /\
    (forall l, (l < length (heap st))%nat -> heap st' !! l = heap st !! l) /\
    elements st' a = elements st a /\
    (forall r, o = inr r -> base r <> base a).
Proof.
  intros Hs Ha. split.
  - rewrite (extract_run st a m n Hs Ha). eexists _, _, _.
    split; [reflexivity |]. unfold allocated in Ha. simpl. lia.
  - destruct (proesmans_run st a m n lam num_iter num_levels filter_std Hs Ha)
      as (o & st' & Hrun & Hext & _ & Hfresh).
    exists o, st'. split; [exact Hrun |]. split; [| split].
    + intros l Hl. destruct Hext as [tail ->]. apply lookup_app_l. exact Hl.
    + apply extends_elements; assumption.
    + intros r Hr. specialize (Hfresh r Hr). unfold allocated in Ha. lia.
Qed.

Lemma proesmans_preserves_input_witness :
  exists o st',
    run (proesmans (H := sample_collaborators) (array_of [2; 1; 2]%nat)
           F64.f255 100 6 F64.one)
        (state_of [F64.zero; F64.one; F64.f255; F64.one]) = (o, st') /\
    (forall l, (l < 1)%nat ->
       heap st' !! l
       = heap (state_of [F64.zero; F64.one; F64.f255; F64.one]) !! l) /\
    elements st' (array_of [2; 1; 2]%nat)
    = elements (state_of [F64.zero; F64.one; F64.f255; F64.one])
        (array_of [2; 1; 2]%nat) /\
    (forall r, o = inr r -> base r <> 0%nat).
Proof.
  apply (proesmans_preserves_input (H := sample_collaborators)
           (state_of [F64.zero; F64.one; F64.f255; F64.one])
           (array_of [2; 1; 2]%nat) 1 2 F64.f255 100 6 F64.one).
  - reflexivity.
  - unfold allocated. simpl. lia.
Defined.

(** C6, as the code has it. The validation accepts stacks of exactly two
    frames, and for those the frames taken with the indices [-2] and [-1]
    are [input_images[0]] and [input_images[1]]: the two arrays that
    [proesmans] goes on to process are copies of these. *)
Theorem proesmans_extracts_both_frames `{Collaborators} st a m n :
  shape a = [2; m; n]%nat ->
  allocated st a ->
  run (getitem_frame a (-2)) st = run (getitem_frame a 0) st /\
  run (getitem_frame a (-1)) st = run (getitem_frame a 1) st /\
  exists im1 im2 st',
    run (validate a;; extract a) st = (inr (im1, im2), st') /\
    snapshot st' im1 = snapshot st (frame a 0) /\
    snapshot st' im2 = snapshot st (frame a 1).
Proof.
  intros Hs Ha.
  assert (Hg : forall i k, (k < 2)%nat ->
             i = Z.of_nat k \/ i = Z.of_nat k - Z.of_nat 2 ->
             run (getitem_frame a i) st = (inr (frame a k), st)).
  { intros i k Hk Hi.
    apply (getitem_frame_run a i st 2%nat [m; n]%nat k);
      [exact Hs | simpl; lia | exact Hk | exact Hi]. }
  split; [| split].
  - rewrite (Hg (-2) 0%nat), (Hg 0 0%nat) by (lia || auto). reflexivity.
  - rewrite (Hg (-1) 1%nat), (Hg 1 1%nat) by (lia || auto). reflexivity.
  - erewrite run_bind_ok by (apply (validate_run_ok a m n); exact Hs).
    rewrite (extract_run st a m n Hs Ha).
    eexists _, _, _. split; [reflexivity |].
    assert (Hf : forall k, shape (frame a k) = [m; n]%nat)
      by (intros k; unfold frame; rewrite Hs; reflexivity).
    unfold snapshot. cbn [shape]. rewrite !Hf. split; f_equal.
    + rewrite elements_with_buffer_old
        by (unfold allocated; rewrite length_heap_with_buffer; simpl; lia).
      rewrite elements_with_buffer. apply take_ge.
      rewrite <- (Hf 0%nat). apply length_elements.
    + rewrite <- (length_heap_with_buffer st (elements st (frame a 0))).
      rewrite elements_with_buffer. apply take_ge.
      rewrite <- (Hf 1%nat). apply length_elements.
Qed.

Lemma proesmans_extracts_both_frames_witness :
  run (getitem_frame (array_of [2; 1; 2]%nat) (-2))
      (state_of [F64.zero; F64.one; F64.f255; F64.one])
  = run (getitem_frame (array_of [2; 1; 2]%nat) 0)
      (state_of [F64.zero; F64.one; F64.f255; F64.one]).
Proof.
  apply (proesmans_extracts_both_frames (H := sample_collaborators)
           (state_of [F64.zero; F64.one; F64.f255; F64.one])
           (array_of [2; 1; 2]%nat) 1 2).
  - reflexivity.
  - unfold allocated. simpl. lia.
Defined.

(** C6, as stated, fails: a stack of three frames is not reduced to its last
    two frames, it is rejected by the validation and nothing is returned. *)
Lemma longer_stack_rejected :
  run (proesmans (H := sample_collaborators) (array_of [3; 1; 1]%nat)
         F64.f255 100 6 F64.zero)
      (state_of [F64.zero; F64.one; F64.f255])
  = (inl (ValueError (mismatch_message [3; 1; 1]%nat)),
     state_of [F64.zero; F64.one; F64.f255]) /\
  ~ (exists r st',
       run (proesmans (H := sample_collaborators) (array_of [3; 1; 1]%nat)
              F64.f255 100 6 F64.zero)
           (state_of [F64.zero; F64.one; F64.f255])
       = (inr r, st')).
Proof.
  assert (E : run (proesmans (H := sample_collaborators)
                     (array_of [3; 1; 1]%nat) F64.f255 100 6 F64.zero)
                  (state_of [F64.zero; F64.one; F64.f255])
              = (inl (ValueError (mismatch_message [3; 1; 1]%nat)),
                 state_of [F64.zero; F64.one; F64.f255]))
    by (vm_compute; reflexivity).
  split; [exact E |].
  intros (r & st' & Hr). rewrite E in Hr. discriminate Hr.
Qed.

(** ** Determinism *)

Lemma run_extends `{Collaborators} st a lam num_iter num_levels fs :
  allocated st a ->
  extends st (snd (run (proesmans a lam num_iter num_levels fs) st)).
Proof.
  intros Ha. destruct (dimension_mismatch a) eqn:Hd.
  - rewrite proesmans_run_mismatch by exact Hd. apply extends_refl.
  - destruct (dimension_mismatch_false_inv a Hd) as (m & n & Hs).
    destruct (proesmans_run st a m n lam num_iter num_levels fs Hs Ha)
      as (o & st' & Hrun & Hext & _).
    rewrite Hrun. exact Hext.
Qed.

(** C9. The external routines being functions of their arguments, a second
    call of [proesmans] on the same array with the same parameters, made in
    the state the first call has left, raises the same exception or returns
    an array with the same shape and elements. *)
Theorem proesmans_deterministic `{Collaborators}
    st a lam num_iter num_levels filter_std o1 st1 o2 st2 :
  allocated st a ->
  run (proesmans a lam num_iter num_levels filter_std) st = (o1, st1) ->
  run (proesmans a lam num_iter num_levels filter_std) st1 = (o2, st2) ->
  observe (o1, st1) = observe (o2, st2).
Proof.
  intros Ha H1 H2.
  pose proof (run_extends st a lam num_iter num_levels filter_std Ha) as Hext.
  rewrite H1 in Hext. simpl in Hext.
  assert (Ha1 : allocated st1 a).
  { apply extends_length in Hext. unfold allocated in *. lia. }
  rewrite <- H1, <- H2.
  rewrite !proesmans_observe by assumption.
  rewrite (extends_elements st st1 a Hext Ha). reflexivity.
Qed.

Lemma proesmans_deterministic_witness :
  observe (run (proesmans (H := sample_collaborators) (array_of [2; 1; 2]%nat)
                  F64.f255 100 6 F64.one)
               (state_of [F64.zero; F64.one; F64.f255; F64.one]))
  = observe
      (run (proesmans (H := sample_collaborators) (array_of [2; 1; 2]%nat)
              F64.f255 100 6 F64.one)
           (snd (run (proesmans (H := sample_collaborators)
                        (array_of [2; 1; 2]%nat) F64.f255 100 6 F64.one)
                   (state_of [F64.zero; F64.one; F64.f255; F64.one])))).
Proof.
  remember (run (proesmans (H := sample_collaborators)
                   (array_of [2; 1; 2]%nat) F64.f255 100 6 F64.one)
              (state_of [F64.zero; F64.one; F64.f255; F64.one]))
    as r1 eqn:E1.
  destruct r1 as [o1 st1]. cbn [snd].
  remember (run (proesmans (H := sample_collaborators)
                   (array_of [2; 1; 2]%nat) F64.f255 100 6 F64.one) st1)
    as r2 eqn:E2.
  destruct r2 as [o2 st2].
  apply (proesmans_deterministic (H := sample_collaborators)
           (state_of [F64.zero; F64.one; F64.f255; F64.one])
           (array_of [2; 1; 2]%nat) F64.f255 100 6 F64.one o1 st1 o2 st2).
  - unfold allocated. simpl. lia.
  - symmetry. exact E1.
  - symmetry. exact E2.
Defined.

(** ** The shape of the result *)

Lemma rescale_data_length d R : rescale_data d = Some R -> length R = length d.
Proof.
  intros HR. apply rescale_data_Some in HR as (mn & mx & _ & _ & ->).
  apply length_map.
Qed.

Lemma smooth_frame_ok `{C : Collaborators} s k fs R :
  gaussian_filter_contract C ->
  (k * size s + size s <= length R)%nat ->
  exists R', smooth_frame s k fs R = inr R' /\ length R' = length R.
Proof.
  intros Hgf Hlen. unfold smooth_frame.
  set (v := {| c_shape := s; c_data := take (size s) (drop (k * size s) R) |}).
  assert (Hv : well_formed v).
  { unfold well_formed, v. simpl. rewrite length_take, length_drop. lia. }
  destruct (Hgf v fs Hv) as [Hshape _]. change (c_shape v) with s in Hshape.
  destruct (decide (c_shape (gaussian_filter v fs) = s)) as [_ | Hn];
    [| contradiction].
  eexists. split; [reflexivity |]. apply length_inserts.
Qed.

Lemma smooth_value_ok `{C : Collaborators} s fs R :
  gaussian_filter_contract C ->
  (size (2%nat :: s) <= length R)%nat ->
  exists R', smooth_value s fs R = inr R' /\ length R' = length R.
Proof.
  intros Hgf Hlen. simpl in Hlen. unfold smooth_value.
  destruct (F64.ltb F64.zero fs); [| eauto].
  destruct (smooth_frame_ok s 0 fs R Hgf ltac:(lia)) as (R0 & -> & HR0).
  destruct (smooth_frame_ok s 1 fs R0 Hgf ltac:(lia)) as (R1 & -> & HR1).
  exists R1. split; [reflexivity | congruence].
Qed.

Lemma preprocess_value_ok `{C : Collaborators} s fs E :
  gaussian_filter_contract C ->
  E <> [] ->
  length E = size (2%nat :: s) ->
  exists R, preprocess_value s fs E = inr R /\ length R = size (2%nat :: s).
Proof.
  intros Hgf Hne Hlen. unfold preprocess_value.
  destruct (rescale_data E) as [R0 |] eqn:ER;
    [| apply rescale_data_None in ER; contradiction].
  apply rescale_data_length in ER.
  destruct (smooth_value_ok s fs R0 Hgf ltac:(lia)) as (R & -> & HR).
  exists R. split; [reflexivity | congruence].
Qed.

(** C8, on the inputs for which it holds. For an input of shape (2, m, n)
    with [m >= 1] and [n >= 1], and external routines that keep their
    contracts, [proesmans] returns an array of shape (2, m, n) holding
    [2 * m * n] elements. *)
Theorem proesmans_output_shape `{C : Collaborators}
    st a m n lam num_iter num_levels filter_std :
  gaussian_filter_contract C ->
  advection_field_contract C ->
  shape a = [2; m; n]%nat ->
  allocated st a ->
  in_bounds st a ->
  (0 < m)%nat -> (0 < n)%nat ->
  exists r st',
    run (proesmans a lam num_iter num_levels filter_std) st = (inr r, st') /\
    shape r = [2; m; n]%nat /\
    length (elements st' r) = (2 * m * n)%nat.
Proof.
  intros Hgf Hcaf Hs Ha Hb Hm Hn.
  destruct (proesmans_run st a m n lam num_iter num_levels filter_std Hs Ha)
    as (o & st' & Hrun & _ & Hobs & _).
  pose proof (length_elements_in_bounds st a Hb) as HE. rewrite Hs in HE.
  assert (Hne : elements st a <> []).
  { intros E0. rewrite E0 in HE. simpl in HE. nia. }
  destruct (preprocess_value_ok [m; n]%nat filter_std (elements st a)
              Hgf Hne HE) as (R & HR & HlenR).
  unfold proesmans_value in Hobs. rewrite HR in Hobs.
  set (im := {| c_shape := [2; m; n]%nat;
                c_data := take (size [2; m; n]%nat) R |}) in Hobs.
  assert (Him : well_formed im).
  { unfold well_formed, im. cbn [c_data c_shape].
    rewrite length_take. lia. }
  destruct (Hcaf im lam num_iter num_levels m n eq_refl Him) as [HVs HVw].
  destruct o as [e | r]; [discriminate Hobs |].
  exists r, st'. split; [exact Hrun |].
  simpl in Hobs. injection Hobs as Hshape Hdata.
  split; [congruence |].
  rewrite Hdata, length_take. unfold well_formed in HVw.
  rewrite HVw, HVs. simpl. lia.
Qed.

Lemma sample_gaussian_filter_contract :
  gaussian_filter_contract sample_collaborators.
Proof. intros v sigma Hv. split; [reflexivity | exact Hv]. Qed.

Lemma sample_advection_field_contract :
  advection_field_contract sample_collaborators.
Proof.
  intros im lam num_iter num_levels m n Hs Hw. simpl. unfold zero_field.
  split; [exact Hs |]. unfold well_formed in *. simpl.
  rewrite length_map. exact Hw.
Qed.

Lemma proesmans_output_shape_witness :
  exists r st',
    run (proesmans (H := sample_collaborators) (array_of [2; 1; 2]%nat)
           F64.f255 100 6 F64.one)
        (state_of [F64.zero; F64.one; F64.f255; F64.one]) = (inr r, st') /\
    shape r = [2; 1; 2]%nat /\
    length (elements st' r) = (2 * 1 * 2)%nat.
Proof.
  apply (proesmans_output_shape (C := sample_collaborators)
           (state_of [F64.zero; F64.one; F64.f255; F64.one])
           (array_of [2; 1; 2]%nat) 1 2 F64.f255 100 6 F64.one).
  - exact sample_gaussian_filter_contract.
  - exact sample_advection_field_contract.
  - reflexivity.
  - unfold allocated. simpl. lia.
  - unfold in_bounds. simpl. lia.
  - lia.
  - lia.
Defined.

(** C8, as stated, fails on an input without elements: shape (2, 0, 1)
    passes the validation, and [np.min] then raises on the empty stack. *)
Lemma empty_input_raises :
  run (proesmans (H := sample_collaborators) (array_of [2; 0; 1]%nat)
         F64.f255 100 6 F64.zero)
      (state_of [])
  = (inl (ValueError zero_size_message),
     {| heap := [[]; []; []; []]; calls := [] |}) /\
  ~ (exists r st',
       run (proesmans (H := sample_collaborators) (array_of [2; 0; 1]%nat)
              F64.f255 100 6 F64.zero)
           (state_of [])
       = (inr r, st')).
Proof.
  assert (E : run (proesmans (H := sample_collaborators)
                     (array_of [2; 0; 1]%nat) F64.f255 100 6 F64.zero)
                  (state_of [])
              = (inl (ValueError zero_size_message),
                 {| heap := [[]; []; []; []]; calls := [] |}))
    by (vm_compute; reflexivity).
  split; [exact E |].
  intros (r & st' & Hr). rewrite E in Hr. discriminate Hr.
Qed.

(** ** [smart_assert] *)



(** ** Constant input *)

Lemma fold_left_choice {A : Type} (f : A -> A -> A) (P : A -> Prop) l init :
  (forall a x, f a x = a \/ f a x = x) ->
  P init -> Forall P l -> P (fold_left f l init).
Proof.
  intros Hf. revert init. induction l as [| x l IH]; intros init Hi Hl.
  - exact Hi.
  - inversion Hl as [| ? ? Hx Hl']; subst. simpl. apply IH; [| exact Hl'].
    destruct (Hf init x) as [-> | ->]; assumption.
Qed.

Lemma fmin_choice a x : fmin a x = a \/ fmin a x = x.
Proof. unfold fmin. destruct (_ || _); auto. Qed.

Lemma fmax_choice a x : fmax a x = a \/ fmax a x = x.
Proof. unfold fmax. destruct (_ || _); auto. Qed.



Lemma sub_finite_diag s m e :
  F64.sub (S754_finite s m e) (S754_finite s m e) = S754_zero false.
Proof. unfold F64.sub, SFsub. rewrite Z.sub_diag. reflexivity. Qed.


Lemma map_constant {A B : Type} (f : A -> B) (P : A -> Prop) (b : B) l :
  (forall x, P x -> f x = b) -> Forall P l -> map f l = repeat b (length l).
Proof.
  intros Hf Hl. induction Hl as [| x l Hx _ IH]; simpl; [reflexivity |].
  rewrite (Hf x Hx), IH. reflexivity.
Qed.





(** ** binary64 arithmetic

    [binary_round_aux] is described through keys; from that description
    follow the order of the results of the three operations of line 51. *)

Lemma fexp64_eq e : fexp F64.prec F64.emax e = Z.max (e - 53) (-1074).
Proof. reflexivity. Qed.

Lemma digits2_pos_bounds m :
  2 ^ (Zpos (digits2_pos m) - 1) <= Zpos m < 2 ^ Zpos (digits2_pos m).
Proof.
  induction m as [p IH | p IH |]; simpl digits2_pos.
  - rewrite Pos2Z.inj_succ.
    replace (Z.succ (Zpos (digits2_pos p)) - 1)
      with (Z.succ (Zpos (digits2_pos p) - 1)) by lia.
    rewrite !Z.pow_succ_r by lia. lia.
  - rewrite Pos2Z.inj_succ.
    replace (Z.succ (Zpos (digits2_pos p)) - 1)
      with (Z.succ (Zpos (digits2_pos p) - 1)) by lia.
    rewrite !Z.pow_succ_r by lia. lia.
  - simpl. lia.
Qed.

Lemma Zdigits2_bounds m :
  0 < m -> 2 ^ (Zdigits2 m - 1) <= m < 2 ^ Zdigits2 m.
Proof. destruct m; try lia. intros _. apply digits2_pos_bounds. Qed.

Lemma Zdigits2_nonneg m : 0 <= Zdigits2 m.
Proof. destruct m; simpl; lia. Qed.

Lemma Zdigits2_pos m : 0 < m -> 0 < Zdigits2 m.
Proof. destruct m; simpl; lia. Qed.

Lemma Zdigits2_le_pow m d : 0 <= d -> 0 <= m < 2 ^ d -> Zdigits2 m <= d.
Proof.
  intros Hd [H0 Hm]. destruct (Z.eq_dec m 0) as [-> | Hn]; [simpl; lia |].
  destruct (Zdigits2_bounds m ltac:(lia)) as [Hlo _].
  destruct (Z.le_gt_cases (Zdigits2 m) d) as [|Hgt]; [assumption |].
  assert (2 ^ d <= 2 ^ (Zdigits2 m - 1)) by (apply Z.pow_le_mono_r; lia).
  lia.
Qed.

Lemma Zdigits2_ge_pow m d : 0 <= d -> 2 ^ d <= m -> d < Zdigits2 m.
Proof.
  intros Hd Hm.
  assert (0 < 2 ^ d) by (apply Z.pow_pos_nonneg; lia).
  destruct (Zdigits2_bounds m ltac:(lia)) as [_ Hhi].
  destruct (Z.lt_ge_cases d (Zdigits2 m)) as [|Hge]; [assumption |].
  assert (2 ^ Zdigits2 m <= 2 ^ d) by (apply Z.pow_le_mono_r; lia).
  lia.
Qed.

Lemma Zdigits2_mono m1 m2 : 0 <= m1 <= m2 -> Zdigits2 m1 <= Zdigits2 m2.
Proof.
  intros [H0 H12]. destruct (Z.eq_dec m1 0) as [-> | Hn].
  - apply Zdigits2_nonneg.
  - apply Zdigits2_le_pow; [apply Zdigits2_nonneg |].
    destruct (Zdigits2_bounds m2 ltac:(lia)). lia.
Qed.

Lemma key_shr_1 mrs :
  0 <= shr_m mrs ->
  key (shr_1 mrs) = sticky_half (key mrs) /\ 0 <= shr_m (shr_1 mrs).
Proof.
  destruct mrs as [m r s]. unfold key, sticky_half. simpl shr_m.
  intros Hm.
  destruct m as [| p | p]; [| | lia].
  - destruct r, s; simpl; split; reflexivity || lia.
  - destruct p as [p | p |]; destruct r, s; cbn [shr_1 shr_m shr_r shr_s orb];
      (split; [| lia]);
      match goal with
      | |- context [(?K / 4)] =>
          let q := fresh "q" in let c := fresh "c" in
          pose proof (Z.div_mod K 4 ltac:(lia));
          pose proof (Z.mod_pos_bound K 4 ltac:(lia));
          destruct (Z.eqb_spec (K mod 4) 0)
      end; lia.
Qed.

Lemma iter_pos_iter {A : Type} (f : A -> A) p x :
  SpecFloat.iter_pos f p x = Nat.iter (Pos.to_nat p) f x.
Proof.
  revert x. induction p as [p IH | p IH |]; intros x; simpl SpecFloat.iter_pos.
  - rewrite !IH, Pos2Nat.inj_xI.
    rewrite <- Nat.iter_succ_r, <- Nat.iter_add. f_equal. lia.
  - rewrite !IH, Pos2Nat.inj_xO.
    rewrite <- Nat.iter_add. f_equal. lia.
  - reflexivity.
Qed.

Lemma key_iter_shr_1 n mrs :
  0 <= shr_m mrs ->
  key (Nat.iter n shr_1 mrs) = sticky_shift n (key mrs) /\
  0 <= shr_m (Nat.iter n shr_1 mrs).
Proof.
  intros Hm. induction n as [| n [IHk IHm]]; simpl.
  - split; [reflexivity | exact Hm].
  - destruct (key_shr_1 _ IHm) as [Hk Hm']. split; [| exact Hm'].
    rewrite Hk, IHk. reflexivity.
Qed.

Lemma sticky_half_mono K1 K2 : K1 <= K2 -> sticky_half K1 <= sticky_half K2.
Proof.
  intros H. unfold sticky_half.
  destruct (Z.eqb_spec (K1 mod 4) 0), (Z.eqb_spec (K2 mod 4) 0);
    Z.to_euclidean_division_equations; lia.
Qed.


Lemma sticky_shift_mono n K1 K2 :
  K1 <= K2 -> sticky_shift n K1 <= sticky_shift n K2.
Proof.
  intros H. induction n as [| n IH]; simpl; [exact H |].
  apply sticky_half_mono. exact IH.
Qed.


Lemma sticky_half_exact T : sticky_half (4 * (2 * T)) = 4 * T.
Proof.
  unfold sticky_half. destruct (Z.eqb_spec ((4 * (2 * T)) mod 4) 0);
    Z.to_euclidean_division_equations; lia.
Qed.

Lemma sticky_shift_exact n T :
  sticky_shift n (4 * (T * 2 ^ Z.of_nat n)) = 4 * T.
Proof.
  revert T. induction n as [| n IH]; intros T.
  - simpl. rewrite Z.mul_1_r. reflexivity.
  - unfold sticky_shift. rewrite Nat.iter_succ_r. fold (sticky_shift n).
    rewrite Nat2Z.inj_succ, Z.pow_succ_r by lia.
    replace (4 * (T * (2 * 2 ^ Z.of_nat n)))
      with (4 * (2 * (T * 2 ^ Z.of_nat n))) by lia.
    rewrite sticky_half_exact. apply IH.
Qed.

Lemma sticky_half_quot K : sticky_half K / 4 = K / 4 / 2.
Proof.
  unfold sticky_half. destruct (Z.eqb_spec (K mod 4) 0);
    Z.to_euclidean_division_equations; lia.
Qed.

Lemma sticky_shift_quot n K :
  0 <= K -> sticky_shift n K / 4 = K / 4 / 2 ^ Z.of_nat n.
Proof.
  intros HK. induction n as [| n IH].
  - simpl. rewrite Z.div_1_r. reflexivity.
  - simpl sticky_shift. rewrite sticky_half_quot. fold (sticky_shift n K).
    rewrite IH.
    rewrite Nat2Z.inj_succ, Z.pow_succ_r by lia.
    rewrite Z.div_div by (try apply Z.pow_pos_nonneg; lia).
    f_equal. lia.
Qed.

(** Case analysis on the tests of [rne]. *)
Ltac case_tests :=
  repeat match goal with
         | |- context [Z.leb ?a ?b] => destruct (Z.leb_spec a b)
         | |- context [Z.eqb ?a ?b] => destruct (Z.eqb_spec a b)
         | |- context [Z.even ?a] => destruct (Z.even a)
         end.

Lemma rne_mono K1 K2 : K1 <= K2 -> rne K1 <= rne K2.
Proof.
  intros H. unfold rne.
  destruct (Z.eq_dec (K1 / 4) (K2 / 4)) as [E | N].
  - rewrite E.
    case_tests; Z.to_euclidean_division_equations; lia.
  - case_tests; Z.to_euclidean_division_equations; lia.
Qed.

Lemma rne_exact T : rne (4 * T) = T.
Proof.
  unfold rne.
  case_tests; Z.to_euclidean_division_equations; lia.
Qed.

Lemma rne_bounds K : K / 4 <= rne K <= K / 4 + 1.
Proof.
  unfold rne.
  case_tests; lia.
Qed.

Lemma key_record_of_loc m l : key (shr_record_of_loc m l) = key_loc m l.
Proof. destruct l as [| []]; unfold key, key_loc; simpl; lia. Qed.

Lemma round_key mrs :
  0 <= shr_m mrs ->
  round_nearest_even (shr_m mrs) (loc_of_shr_record mrs) = rne (key mrs).
Proof.
  destruct mrs as [m r s]. simpl shr_m. intros Hm. unfold rne, key.
  cbn [shr_m shr_r shr_s].
  destruct r, s; simpl loc_of_shr_record; simpl round_nearest_even;
  repeat match goal with
         | |- context [Z.leb ?a ?b] => destruct (Z.leb_spec a b)
         | |- context [Z.eqb ?a ?b] => destruct (Z.eqb_spec a b)
         end; try (Z.to_euclidean_division_equations; lia).
  replace ((4 * m + 2 + 0) / 4) with m
    by (Z.to_euclidean_division_equations; lia).
  reflexivity.
Qed.

(** [shr] and [shr_fexp] on keys. *)
Lemma shr_spec mrs e n :
  0 <= shr_m mrs ->
  exists mrs',
    shr mrs e n = (mrs', e + Z.max 0 n) /\
    key mrs' = sticky_shift (Z.to_nat n) (key mrs) /\ 0 <= shr_m mrs'.
Proof.
  intros Hm. destruct n as [| p | p]; simpl shr.
  - exists mrs. rewrite Z.add_0_r. auto.
  - rewrite iter_pos_iter.
    destruct (key_iter_shr_1 (Pos.to_nat p) mrs Hm) as [Hk Hm'].
    eexists. split; [f_equal; lia |]. split; [exact Hk | exact Hm'].
  - exists mrs. rewrite Z.add_0_r. auto.
Qed.

Lemma shr_fexp_spec m e l :
  0 <= m ->
  let n := fexp F64.prec F64.emax (Zdigits2 m + e) - e in
  exists mrs',
    shr_fexp F64.prec F64.emax m e l = (mrs', e + Z.max 0 n) /\
    key mrs' = sticky_shift (Z.to_nat n) (key_loc m l) /\ 0 <= shr_m mrs'.
Proof.
  intros Hm n. unfold shr_fexp. fold n.
  destruct (shr_spec (shr_record_of_loc m l) e n) as (mrs' & H1 & H2 & H3).
  { destruct l as [| []]; exact Hm. }
  exists mrs'. rewrite key_record_of_loc in H2. auto.
Qed.

Lemma pow2_pos n : 0 <= n -> 0 < 2 ^ n.
Proof. intros. apply Z.pow_pos_nonneg; lia. Qed.

Lemma div_pow2_upper m d n p :
  0 <= m < 2 ^ d -> 0 <= n -> 0 <= p -> d - n <= p -> m / 2 ^ n < 2 ^ p.
Proof.
  intros [H0 Hm] Hn Hp Hd.
  pose proof (pow2_pos n Hn) as Hn2. pose proof (pow2_pos p Hp) as Hp2.
  apply Z.div_lt_upper_bound; [exact Hn2 |].
  rewrite <- Z.pow_add_r by lia.
  destruct (Z.le_gt_cases 0 d) as [Hd0 | Hd0].
  - assert (2 ^ d <= 2 ^ (n + p)) by (apply Z.pow_le_mono_r; lia). lia.
  - rewrite Z.pow_neg_r in Hm by lia. lia.
Qed.

Lemma div_pow2_lower m d n :
  2 ^ d <= m -> 0 <= n <= d -> 2 ^ (d - n) <= m / 2 ^ n.
Proof.
  intros Hm Hn. pose proof (pow2_pos n ltac:(lia)) as Hn2.
  apply Z.div_le_lower_bound; [exact Hn2 |].
  rewrite <- Z.pow_add_r by lia. replace (n + (d - n)) with d by lia.
  exact Hm.
Qed.

Lemma key_loc_quot m l : key_loc m l / 4 = m.
Proof.
  unfold key_loc. destruct l as [| []];
    Z.to_euclidean_division_equations; lia.
Qed.

Lemma key_loc_nonneg m l : 0 <= m -> 0 <= key_loc m l.
Proof. unfold key_loc. destruct l as [| []]; lia. Qed.

Lemma round_mantissa_bounds m e l :
  0 <= m -> e <= fexp F64.prec F64.emax (Zdigits2 m + e) ->
  let er := fexp F64.prec F64.emax (Zdigits2 m + e) in
  0 <= round_mantissa m e l <= 2 ^ 53 /\
  (-1074 < er -> 2 ^ 52 <= round_mantissa m e l).
Proof.
  intros Hm He er. unfold round_mantissa. fold er.
  set (n := er - e).
  assert (Hn : 0 <= n) by (unfold n; lia).
  pose proof (rne_bounds (sticky_shift (Z.to_nat n) (key_loc m l))) as Hr.
  rewrite sticky_shift_quot in Hr by (apply key_loc_nonneg; exact Hm).
  rewrite key_loc_quot, Z2Nat.id in Hr by exact Hn.
  assert (Her : er = Z.max (Zdigits2 m + e - 53) (-1074)) by reflexivity.
  pose proof (Zdigits2_nonneg m) as Hd.
  assert (Hq0 : 0 <= m / 2 ^ n).
  { apply Z.div_pos; [exact Hm | apply pow2_pos; exact Hn]. }
  assert (Hq : m / 2 ^ n < 2 ^ 53).
  { destruct (Z.eq_dec m 0) as [-> | Hm0].
    - rewrite Z.div_0_l by (pose proof (pow2_pos n Hn); lia). lia.
    - apply (div_pow2_upper m (Zdigits2 m) n 53); try lia.
      destruct (Zdigits2_bounds m ltac:(lia)). lia. }
  split; [lia |].
  intros Hnorm.
  assert (Hdig : Zdigits2 m = n + 53) by (unfold n; lia).
  assert (Hm0 : 0 < m) by (destruct m; simpl in *; lia).
  destruct (Zdigits2_bounds m Hm0) as [Hlo _].
  pose proof (div_pow2_lower m (Zdigits2 m - 1) n Hlo ltac:(lia)) as Hl.
  replace (Zdigits2 m - 1 - n) with 52 in Hl by lia. lia.
Qed.

Lemma shr_m_key mrs : 0 <= shr_m mrs -> shr_m mrs = key mrs / 4.
Proof.
  destruct mrs as [m r s]. unfold key. simpl. intros Hm.
  destruct r, s; Z.to_euclidean_division_equations; lia.
Qed.

Lemma binary_round_aux_spec sx m e l :
  0 <= m -> e <= fexp F64.prec F64.emax (Zdigits2 m + e) ->
  binary_round_aux F64.prec F64.emax sx m e l
  = round_result sx (round_mantissa m e l)
      (fexp F64.prec F64.emax (Zdigits2 m + e)).
Proof.
  intros Hm He.
  destruct (round_mantissa_bounds m e l Hm He) as [[H0 Hmax] Hnorm].
  unfold binary_round_aux.
  destruct (shr_fexp_spec m e l Hm) as (mrs1 & -> & Hk1 & Hm1).
  rewrite (round_key mrs1 Hm1), Hk1.
  fold (round_mantissa m e l).
  set (m1 := round_mantissa m e l) in *.
  set (er := fexp F64.prec F64.emax (Zdigits2 m + e)) in *.
  replace (e + Z.max 0 (er - e)) with er by lia.
  assert (Her : -1074 <= er) by (unfold er; rewrite fexp64_eq; lia).
  destruct (shr_fexp_spec m1 er loc_Exact H0) as (mrs2 & -> & Hk2 & Hm2).
  rewrite (shr_m_key mrs2 Hm2), Hk2.
  rewrite sticky_shift_quot by (apply key_loc_nonneg; exact H0).
  rewrite key_loc_quot.
  unfold round_result.
  destruct (Z.eqb_spec m1 0) as [E0 | N0].
  - rewrite E0. simpl Zdigits2. rewrite Z.div_0_l; [reflexivity |].
    apply Z.pow_nonzero; lia.
  - destruct (Z.eqb_spec m1 (2 ^ 53)) as [E53 | N53].
    + rewrite E53.
      replace (Zdigits2 (2 ^ 53)) with 54 by reflexivity.
      rewrite fexp64_eq.
      replace (Z.max (54 + er - 53) (-1074) - er) with 1 by lia.
      replace (er + Z.max 0 1) with (er + 1) by lia.
      change (2 ^ 53 / 2 ^ Z.of_nat (Z.to_nat 1)) with (2 ^ 52).
      reflexivity.
    + assert (Hd1 : 0 < Zdigits2 m1 <= 53).
      { split; [apply Zdigits2_pos; lia |].
        apply Zdigits2_le_pow; lia. }
      assert (Hn2 : fexp F64.prec F64.emax (Zdigits2 m1 + er) - er <= 0).
      { rewrite fexp64_eq. lia. }
      replace (Z.to_nat (fexp F64.prec F64.emax (Zdigits2 m1 + er) - er))
        with 0%nat by lia.
      replace (er + Z.max 0 (fexp F64.prec F64.emax (Zdigits2 m1 + er) - er))
        with er by lia.
      simpl Z.of_nat. rewrite Z.pow_0_r, Z.div_1_r.
      unfold finite_or_inf.
      destruct m1 as [| p | p]; [lia | | lia].
      reflexivity.
Qed.

Lemma valid_finite_inv s m e :
  F64.valid (S754_finite s m e) = true ->
  Z.max (Zpos (digits2_pos m) + e - 53) (-1074) = e /\ e <= 971.
Proof.
  unfold F64.valid, valid_binary, bounded, canonical_mantissa.
  intros H. apply andb_true_iff in H as [Hc He].
  apply Z.eqb_eq in Hc. apply Z.leb_le in He.
  rewrite fexp64_eq in Hc. change (F64.emax - F64.prec) with 971 in He.
  auto.
Qed.

Lemma valid_finite_intro s m e :
  Z.max (Zpos (digits2_pos m) + e - 53) (-1074) = e -> e <= 971 ->
  F64.valid (S754_finite s m e) = true.
Proof.
  intros Hc He.
  unfold F64.valid, valid_binary, bounded, canonical_mantissa.
  apply andb_true_iff. split.
  - apply Z.eqb_eq. rewrite fexp64_eq. exact Hc.
  - apply Z.leb_le. exact He.
Qed.

(** What a canonical mantissa and exponent satisfy. *)
Lemma canonical_facts m e :
  Z.max (Zpos (digits2_pos m) + e - 53) (-1074) = e ->
  -1074 <= e /\ Zpos m < 2 ^ 53 /\ (-1074 < e -> 2 ^ 52 <= Zpos m).
Proof.
  intros Hc. destruct (digits2_pos_bounds m) as [Hlo Hhi].
  split; [lia |]. split.
  - assert (2 ^ Zpos (digits2_pos m) <= 2 ^ 53)
      by (apply Z.pow_le_mono_r; lia). lia.
  - intros He. replace (Zpos (digits2_pos m) - 1) with 52 in Hlo by lia.
    exact Hlo.
Qed.

Lemma scaled_lt m1 e1 m2 e2 :
  Zpos m1 < 2 ^ 53 -> 2 ^ 52 <= Zpos m2 -> -1074 <= e1 -> e1 < e2 ->
  Zpos m1 * 2 ^ (e1 + 1074) < Zpos m2 * 2 ^ (e2 + 1074).
Proof.
  intros H1 H2 He1 He.
  pose proof (pow2_pos (e1 + 1074) ltac:(lia)) as Hp1.
  assert (Hp : 2 * 2 ^ (e1 + 1074) <= 2 ^ (e2 + 1074)).
  { rewrite <- Z.pow_succ_r by lia. apply Z.pow_le_mono_r; lia. }
  change (2 ^ 53) with (2 * 2 ^ 52) in H1.
  nia.
Qed.

Lemma canonical_compare m1 e1 m2 e2 :
  Z.max (Zpos (digits2_pos m1) + e1 - 53) (-1074) = e1 ->
  Z.max (Zpos (digits2_pos m2) + e2 - 53) (-1074) = e2 ->
  (Zpos m1 * 2 ^ (e1 + 1074) ?= Zpos m2 * 2 ^ (e2 + 1074))
  = match e1 ?= e2 with
    | Lt => Lt
    | Gt => Gt
    | Eq => Pos.compare_cont Eq m1 m2
    end.
Proof.
  intros C1 C2.
  destruct (canonical_facts m1 e1 C1) as (E1 & U1 & L1).
  destruct (canonical_facts m2 e2 C2) as (E2 & U2 & L2).
  destruct (Z.compare_spec e1 e2) as [-> | Hlt | Hgt].
  - pose proof (pow2_pos (e2 + 1074) ltac:(lia)) as Hp.
    change (Pos.compare_cont Eq m1 m2) with (Pos.compare m1 m2).
    destruct (Pos.compare_spec m1 m2) as [-> | Hm | Hm].
    + apply Z.compare_refl.
    + apply Z.compare_lt_iff. nia.
    + apply Z.compare_gt_iff. nia.
  - apply Z.compare_lt_iff. apply scaled_lt; auto. apply L2. lia.
  - apply Z.compare_gt_iff. apply scaled_lt; auto. apply L1. lia.
Qed.

Lemma F2Z_finite_bound s m e :
  F64.valid (S754_finite s m e) = true ->
  0 < Zpos m * 2 ^ (e + 1074) < 2 ^ 2098.
Proof.
  intros Hv. apply valid_finite_inv in Hv as [Hc He].
  destruct (canonical_facts m e Hc) as (E1 & U1 & _).
  pose proof (pow2_pos (e + 1074) ltac:(lia)) as Hp.
  assert (2 ^ (e + 1074) <= 2 ^ 2045) by (apply Z.pow_le_mono_r; lia).
  change (2 ^ 2098) with (2 ^ 53 * 2 ^ 2045).
  split; [lia | nia].
Qed.

Lemma compare_F2Z x y :
  F64.valid x = true -> F64.valid y = true ->
  F64.is_nan x = false -> F64.is_nan y = false ->
  SFcompare x y = Some (F2Z x ?= F2Z y).
Proof.
  intros Vx Vy Nx Ny.
  assert (HI : 2 ^ 2098 < 2 ^ 2100) by (apply Z.pow_lt_mono_r; lia).
  destruct x as [sx | sx | | sx mx ex]; try discriminate Nx;
  destruct y as [sy | sy | | sy my ey]; try discriminate Ny;
  try pose proof (F2Z_finite_bound _ _ _ Vx) as Bx;
  try pose proof (F2Z_finite_bound _ _ _ Vy) as By;
  cbn [SFcompare F2Z]; f_equal;
  try (try destruct sx; try destruct sy; cbn [cond_Zopp]; symmetry;
       first [ apply Z.compare_eq_iff; lia
             | apply Z.compare_lt_iff; lia
             | apply Z.compare_gt_iff; lia ]).
  apply valid_finite_inv in Vx as [Cx _], Vy as [Cy _].
  destruct sx, sy; cbn [cond_Zopp].
  - rewrite Z.compare_opp, (canonical_compare my ey mx ex Cy Cx).
    rewrite (Z.compare_antisym ex ey).
    destruct (ex ?= ey); simpl; try reflexivity.
    change (Pos.compare_cont Eq ?a ?b) with (Pos.compare a b).
    rewrite (Pos.compare_antisym mx my). reflexivity.
  - symmetry. apply Z.compare_lt_iff. lia.
  - symmetry. apply Z.compare_gt_iff. lia.
  - rewrite (canonical_compare mx ex my ey Cx Cy). reflexivity.
Qed.

Lemma leb_F2Z x y :
  F64.valid x = true -> F64.valid y = true ->
  F64.is_nan x = false -> F64.is_nan y = false ->
  F64.leb x y = (F2Z x <=? F2Z y).
Proof.
  intros. unfold F64.leb, SFleb, Z.leb. rewrite compare_F2Z by assumption.
  destruct (F2Z x ?= F2Z y); reflexivity.
Qed.

Lemma ltb_F2Z x y :
  F64.valid x = true -> F64.valid y = true ->
  F64.is_nan x = false -> F64.is_nan y = false ->
  F64.ltb x y = (F2Z x <? F2Z y).
Proof.
  intros. unfold F64.ltb, SFltb, Z.ltb. rewrite compare_F2Z by assumption.
  destruct (F2Z x ?= F2Z y); reflexivity.
Qed.

Lemma cond_Zopp_0 s : cond_Zopp s 0 = 0.
Proof. destruct s; reflexivity. Qed.

Lemma round_result_facts sx m1 er :
  0 <= m1 <= 2 ^ 53 -> -1074 <= er -> (-1074 < er -> 2 ^ 52 <= m1) ->
  F64.valid (round_result sx m1 er) = true /\
  F64.is_nan (round_result sx m1 er) = false /\
  ((F64.is_finite (round_result sx m1 er) = true /\
    F2Z (round_result sx m1 er) = cond_Zopp sx (m1 * 2 ^ (er + 1074))) \/
   (round_result sx m1 er = S754_infinity sx /\
    2 ^ 2098 <= m1 * 2 ^ (er + 1074))).
Proof.
  intros [H0 Hmax] Her Hnorm. unfold round_result, finite_or_inf.
  pose proof (pow2_pos (er + 1074) ltac:(lia)) as Hp.
  destruct (Z.eqb_spec m1 0) as [-> | N0].
  - repeat split. left. split; [reflexivity |].
    simpl. rewrite cond_Zopp_0. reflexivity.
  - destruct (Z.eqb_spec m1 (2 ^ 53)) as [-> | N53].
    + destruct (Z.leb_spec (er + 1) 971) as [Hle | Hgt].
      * split; [| split; [reflexivity |]].
        -- apply valid_finite_intro; [| exact Hle].
           change (Zpos (digits2_pos (Z.to_pos (2 ^ 52)))) with 53. lia.
        -- left. split; [reflexivity |]. cbn [F2Z]. f_equal.
           change (Zpos (Z.to_pos (2 ^ 52))) with (2 ^ 52).
           replace (er + 1 + 1074) with (Z.succ (er + 1074)) by lia.
           rewrite Z.pow_succ_r by lia.
           change (2 ^ 53) with (2 ^ 52 * 2). lia.
      * split; [reflexivity |]. split; [reflexivity |]. right.
        split; [reflexivity |].
        assert (2 ^ 2045 <= 2 ^ (er + 1074)) by (apply Z.pow_le_mono_r; lia).
        change (2 ^ 2098) with (2 ^ 53 * 2 ^ 2045). nia.
    + assert (Hpos : Zpos (Z.to_pos m1) = m1) by (apply Z2Pos.id; lia).
      destruct (Z.leb_spec er 971) as [Hle | Hgt].
      * split; [| split; [reflexivity |]].
        -- apply valid_finite_intro; [| exact Hle].
           change (Zpos (digits2_pos (Z.to_pos m1)))
             with (Zdigits2 (Zpos (Z.to_pos m1))).
           rewrite Hpos.
           pose proof (Zdigits2_le_pow m1 53 ltac:(lia) ltac:(lia)).
           destruct (Z.eq_dec er (-1074)) as [-> | Hne]; [lia |].
           pose proof (Zdigits2_ge_pow m1 52 ltac:(lia) (Hnorm ltac:(lia))).
           lia.
        -- left. split; [reflexivity |]. cbn [F2Z]. rewrite Hpos. reflexivity.
      * split; [reflexivity |]. split; [reflexivity |]. right.
        split; [reflexivity |].
        assert (2 ^ 2046 <= 2 ^ (er + 1074)) by (apply Z.pow_le_mono_r; lia).
        specialize (Hnorm ltac:(lia)).
        change (2 ^ 2098) with (2 ^ 52 * 2 ^ 2046). nia.
Qed.

Lemma Zdigits2_mul_pow2 a k :
  0 < a -> 0 <= k -> Zdigits2 (a * 2 ^ k) = Zdigits2 a + k.
Proof.
  intros Ha Hk. pose proof (pow2_pos k Hk) as Hp.
  destruct (Zdigits2_bounds a Ha) as [Hlo Hhi].
  pose proof (Zdigits2_pos a Ha) as Hd.
  apply Z.le_antisymm.
  - apply Zdigits2_le_pow; [lia |]. split; [nia |].
    rewrite Z.pow_add_r by lia. nia.
  - assert (2 ^ (Zdigits2 a - 1 + k) <= a * 2 ^ k).
    { rewrite Z.pow_add_r by lia. nia. }
    pose proof (Zdigits2_ge_pow (a * 2 ^ k) (Zdigits2 a - 1 + k)
                  ltac:(lia) H). lia.
Qed.

Lemma fexp64_mono a b :
  a <= b -> fexp F64.prec F64.emax a <= fexp F64.prec F64.emax b.
Proof. intros. rewrite !fexp64_eq. lia. Qed.

(** A mantissa, exponent and location that denote a value at most a positive
    number [f] are rounded to a finite number at most [f]. *)
Lemma binary_round_aux_le m e l mf ef :
  0 <= m -> e <= fexp F64.prec F64.emax (Zdigits2 m + e) ->
  F64.valid (S754_finite false mf ef) = true ->
  e <= ef ->
  key_loc m l <= 4 * (Zpos mf * 2 ^ (ef - e)) ->
  let R := binary_round_aux F64.prec F64.emax false m e l in
  F64.valid R = true /\ F64.is_finite R = true /\
  0 <= F2Z R <= F2Z (S754_finite false mf ef).
Proof.
  intros Hm He Hv Hef Hk R.
  pose proof (F2Z_finite_bound _ _ _ Hv) as HB.
  apply valid_finite_inv in Hv as [Hc Hmaxe].
  unfold R. rewrite binary_round_aux_spec by assumption.
  destruct (round_mantissa_bounds m e l Hm He) as [Hb Hnorm].
  set (er := fexp F64.prec F64.emax (Zdigits2 m + e)) in *.
  set (m1 := round_mantissa m e l) in *.
  assert (Her : -1074 <= er) by (unfold er; rewrite fexp64_eq; lia).
  assert (Hee : e <= er) by exact He.
  pose proof (pow2_pos (ef - e) ltac:(lia)) as Hp.
  assert (Hmle : m <= Zpos mf * 2 ^ (ef - e)).
  { rewrite <- (key_loc_quot m l).
    apply Z.div_le_upper_bound; lia. }
  assert (Herf : er <= ef).
  { unfold er.
    apply Z.le_trans
      with (fexp F64.prec F64.emax (Zpos (digits2_pos mf) + ef));
      [| rewrite fexp64_eq; lia].
    apply fexp64_mono.
    pose proof (Zdigits2_mono m _ (conj Hm Hmle)) as Hd.
    rewrite Zdigits2_mul_pow2 in Hd by lia. simpl Zdigits2 in Hd. lia. }
  assert (Hm1 : m1 <= Zpos mf * 2 ^ (ef - er)).
  { unfold m1, round_mantissa. fold er.
    rewrite <- (rne_exact (Zpos mf * 2 ^ (ef - er))).
    apply rne_mono.
    rewrite <- (sticky_shift_exact (Z.to_nat (er - e))
                  (Zpos mf * 2 ^ (ef - er))).
    apply sticky_shift_mono.
    rewrite Z2Nat.id by lia.
    replace (Zpos mf * 2 ^ (ef - er) * 2 ^ (er - e))
      with (Zpos mf * 2 ^ (ef - e)); [exact Hk |].
    replace (ef - e) with (ef - er + (er - e)) by lia.
    rewrite (Z.pow_add_r 2 (ef - er) (er - e)) by lia. ring. }
  assert (Hval : m1 * 2 ^ (er + 1074) <= Zpos mf * 2 ^ (ef + 1074)).
  { replace (ef + 1074) with (ef - er + (er + 1074)) by lia.
    rewrite (Z.pow_add_r 2 (ef - er) (er + 1074)) by lia.
    pose proof (pow2_pos (er + 1074) ltac:(lia)). nia. }
  destruct (round_result_facts false m1 er Hb Her Hnorm)
    as (Vr & Nr & [[Fr Zr] | [Ir Or]]).
  - split; [exact Vr |]. split; [exact Fr |].
    rewrite Zr. cbn [cond_Zopp F2Z].
    pose proof (pow2_pos (er + 1074) ltac:(lia)). split; [nia | exact Hval].
  - lia.
Qed.

Lemma sticky_shift_add a b K :
  sticky_shift (a + b) K = sticky_shift a (sticky_shift b K).
Proof. unfold sticky_shift. apply Nat.iter_add. Qed.

Lemma rnd_exponent_ge N : -1074 <= rnd_exponent N.
Proof. unfold rnd_exponent. rewrite fexp64_eq. lia. Qed.

Lemma rnd_mantissa_bounds N :
  0 <= N ->
  0 <= rnd_mantissa N <= 2 ^ 53 /\
  (-1074 < rnd_exponent N -> 2 ^ 52 <= rnd_mantissa N).
Proof.
  intros HN. unfold rnd_mantissa, rnd_exponent.
  apply (round_mantissa_bounds N (-1074) loc_Exact HN).
  rewrite fexp64_eq. lia.
Qed.

(** A mantissa and exponent without excess precision are rounded as the
    multiple of [2^-1074] they denote. *)
Lemma round_mantissa_base m e :
  0 < m -> -1074 <= e -> e <= fexp F64.prec F64.emax (Zdigits2 m + e) ->
  rnd_exponent (m * 2 ^ (e + 1074)) = fexp F64.prec F64.emax (Zdigits2 m + e) /\
  rnd_mantissa (m * 2 ^ (e + 1074)) = round_mantissa m e loc_Exact.
Proof.
  intros Hm He Hf.
  assert (Hex : rnd_exponent (m * 2 ^ (e + 1074))
                = fexp F64.prec F64.emax (Zdigits2 m + e)).
  { unfold rnd_exponent. rewrite Zdigits2_mul_pow2 by lia. f_equal. lia. }
  split; [exact Hex |].
  unfold rnd_mantissa, round_mantissa. fold (rnd_exponent (m * 2 ^ (e + 1074))).
  rewrite Hex.
  set (er := fexp F64.prec F64.emax (Zdigits2 m + e)) in *.
  f_equal. unfold key_loc. rewrite !Z.add_0_r.
  replace (Z.to_nat (er - -1074))
    with (Z.to_nat (er - e) + Z.to_nat (e + 1074))%nat by lia.
  rewrite sticky_shift_add. f_equal.
  pose proof (sticky_shift_exact (Z.to_nat (e + 1074)) m) as Hx.
  rewrite Z2Nat.id in Hx by lia. exact Hx.
Qed.

Lemma Zpos_iter_xO m d : Zpos (Pos.iter xO m d) = Zpos m * 2 ^ Zpos d.
Proof.
  induction d as [| d IH] using Pos.peano_ind.
  - simpl. lia.
  - rewrite Pos.iter_succ, Pos2Z.inj_succ, Z.pow_succ_r by lia.
    rewrite Pos2Z.inj_xO, IH. ring.
Qed.

Lemma shl_align_spec m e e' :
  let '(m', e'') := shl_align m e e' in
  e'' = Z.min e e' /\ Zpos m' = Zpos m * 2 ^ (e - e'').
Proof.
  unfold shl_align. destruct (e' - e) as [| p | p] eqn:E.
  - split; [lia |]. replace (e - e) with 0 by lia. simpl. lia.
  - split; [lia |]. replace (e - e) with 0 by lia. simpl. lia.
  - split; [lia |]. rewrite Zpos_iter_xO. f_equal. f_equal. lia.
Qed.

Lemma binary_round_rnd sx D ez :
  -1074 <= ez ->
  let N := Zpos D * 2 ^ (ez + 1074) in
  binary_round F64.prec F64.emax sx D ez
  = round_result sx (rnd_mantissa N) (rnd_exponent N).
Proof.
  intros Hez N. unfold binary_round.
  pose proof (shl_align_spec D ez
                (fexp F64.prec F64.emax (Zpos (digits2_pos D) + ez))) as Hs.
  destruct (shl_align D ez _) as [mz ez'].
  destruct Hs as [He' Hmz].
  set (e0 := fexp F64.prec F64.emax (Zpos (digits2_pos D) + ez)) in *.
  assert (He0 : -1074 <= e0) by (unfold e0; rewrite fexp64_eq; lia).
  assert (Hdig : Zdigits2 (Zpos mz) + ez' = Zpos (digits2_pos D) + ez).
  { rewrite Hmz, Zdigits2_mul_pow2 by lia. simpl Zdigits2. lia. }
  assert (Hcond : ez' <= fexp F64.prec F64.emax (Zdigits2 (Zpos mz) + ez')).
  { rewrite Hdig. fold e0. lia. }
  rewrite binary_round_aux_spec by (lia || exact Hcond).
  destruct (round_mantissa_base (Zpos mz) ez' ltac:(lia) ltac:(lia) Hcond)
    as [Hex Hma].
  assert (HN : Zpos mz * 2 ^ (ez' + 1074) = N).
  { unfold N. rewrite Hmz, <- Z.mul_assoc.
    rewrite <- (Z.pow_add_r 2 (ez - ez') (ez' + 1074)) by lia.
    f_equal. f_equal. lia. }
  rewrite HN in Hex, Hma. rewrite Hex, Hma. reflexivity.
Qed.



Lemma rnd_nonneg N : 0 <= N -> 0 <= rnd N.
Proof.
  intros HN. unfold rnd. destruct (rnd_mantissa_bounds N HN) as [[H0 _] _].
  pose proof (rnd_exponent_ge N).
  pose proof (pow2_pos (rnd_exponent N + 1074) ltac:(lia)). nia.
Qed.

Lemma rnd_exact m e :
  Z.max (Zpos (digits2_pos m) + e - 53) (-1074) = e ->
  rnd (Zpos m * 2 ^ (e + 1074)) = Zpos m * 2 ^ (e + 1074).
Proof.
  intros Hc. destruct (canonical_facts m e Hc) as (He & _ & _).
  assert (Hcond : e <= fexp F64.prec F64.emax (Zdigits2 (Zpos m) + e)).
  { rewrite fexp64_eq. simpl Zdigits2. lia. }
  destruct (round_mantissa_base (Zpos m) e ltac:(lia) He Hcond) as [Hex Hma].
  unfold rnd. rewrite Hex, Hma. unfold round_mantissa.
  rewrite fexp64_eq. simpl Zdigits2. rewrite Hc.
  replace (Z.to_nat (e - e)) with 0%nat by lia. simpl sticky_shift.
  unfold key_loc. rewrite Z.add_0_r, rne_exact. reflexivity.
Qed.

Lemma rnd_mono N1 N2 : 0 <= N1 <= N2 -> rnd N1 <= rnd N2.
Proof.
  intros [H0 H12].
  destruct (rnd_mantissa_bounds N1 H0) as [[L1 U1] B1].
  destruct (rnd_mantissa_bounds N2 ltac:(lia)) as [[L2 U2] B2].
  pose proof (rnd_exponent_ge N1) as G1.
  pose proof (rnd_exponent_ge N2) as G2.
  assert (Hexp : rnd_exponent N1 <= rnd_exponent N2).
  { unfold rnd_exponent. apply fexp64_mono.
    pose proof (Zdigits2_mono N1 N2 (conj H0 H12)). lia. }
  unfold rnd.
  pose proof (pow2_pos (rnd_exponent N1 + 1074) ltac:(lia)) as P1.
  destruct (Z.eq_dec (rnd_exponent N1) (rnd_exponent N2)) as [E | NE].
  - rewrite <- E.
    assert (rnd_mantissa N1 <= rnd_mantissa N2).
    { unfold rnd_mantissa, round_mantissa.
      fold (rnd_exponent N1) (rnd_exponent N2). rewrite <- E.
      apply rne_mono, sticky_shift_mono. unfold key_loc. lia. }
    nia.
  - specialize (B2 ltac:(lia)).
    assert (Hp : 2 * 2 ^ (rnd_exponent N1 + 1074)
                 <= 2 ^ (rnd_exponent N2 + 1074)).
    { rewrite <- Z.pow_succ_r by lia. apply Z.pow_le_mono_r; lia. }
    change (2 ^ 53) with (2 * 2 ^ 52) in U1. nia.
Qed.

Lemma rnd_pos N : 0 < N -> 0 < rnd N.
Proof.
  intros HN.
  assert (H1 : rnd 1 = 1) by reflexivity.
  pose proof (rnd_mono 1 N ltac:(lia)). lia.
Qed.

Lemma binary_round_facts D ez :
  -1074 <= ez ->
  let N := Zpos D * 2 ^ (ez + 1074) in
  let R := binary_round F64.prec F64.emax false D ez in
  F64.valid R = true /\ F64.is_nan R = false /\
  ((F64.is_finite R = true /\ F2Z R = rnd N) \/
   (R = S754_infinity false /\ 2 ^ 2098 <= rnd N)).
Proof.
  intros Hez N R. unfold R. rewrite binary_round_rnd by exact Hez. fold N.
  assert (HN : 0 <= N).
  { unfold N. pose proof (pow2_pos (ez + 1074) ltac:(lia)). nia. }
  destruct (rnd_mantissa_bounds N HN) as [Hb Hn].
  apply (round_result_facts false _ _ Hb (rnd_exponent_ge N) Hn).
Qed.

Lemma shl_align_fst m e e' :
  e' <= e -> Zpos (fst (shl_align m e e')) = Zpos m * 2 ^ (e - e').
Proof.
  intros He. pose proof (shl_align_spec m e e') as Hs.
  destruct (shl_align m e e') as [m' e'']. destruct Hs as [He'' Hm'].
  simpl. rewrite Hm'. f_equal. f_equal. lia.
Qed.

Lemma F2Z_finite_sign s m e :
  F64.valid (S754_finite s m e) = true ->
  (0 <= F2Z (S754_finite s m e) -> s = false) /\
  (F2Z (S754_finite s m e) <= 0 -> s = true).
Proof.
  intros Hv. pose proof (F2Z_finite_bound s m e Hv) as HB.
  destruct s; simpl; split; intros; lia || reflexivity.
Qed.

(** [x - y] for finite [x >= y]. *)
Lemma sub_facts x y :
  F64.valid x = true -> F64.valid y = true ->
  F64.is_finite x = true -> F64.is_finite y = true ->
  F2Z y <= F2Z x ->
  let R := F64.sub x y in
  F64.valid R = true /\ F64.is_nan R = false /\
  ((F64.is_finite R = true /\ F2Z R = rnd (F2Z x - F2Z y)) \/
   (R = S754_infinity false /\ 2 ^ 2098 <= rnd (F2Z x - F2Z y))).
Proof.
  intros Vx Vy Fx Fy Hle R. unfold R, F64.sub.
  destruct x as [sx | sx | | sx mx ex]; try discriminate Fx;
  destruct y as [sy | sy | | sy my ey]; try discriminate Fy.
  - (* zero - zero *)
    assert (E : exists s, SFsub F64.prec F64.emax (S754_zero sx) (S754_zero sy)
                          = S754_zero s)
      by (destruct sx, sy; simpl; eauto).
    destruct E as [s ->]. repeat split. left. split; reflexivity.
  - (* zero - finite *)
    destruct (F2Z_finite_sign sy my ey Vy) as [_ Hs].
    specialize (Hs Hle). subst sy. cbn [SFsub negb].
    split; [exact Vy |]. split; [reflexivity |]. left. split; [reflexivity |].
    apply valid_finite_inv in Vy as [Hc _].
    cbn [F2Z cond_Zopp]. rewrite Z.sub_0_l, Z.opp_involutive.
    symmetry. apply rnd_exact. exact Hc.
  - (* finite - zero *)
    destruct (F2Z_finite_sign sx mx ex Vx) as [Hs _].
    specialize (Hs Hle). subst sx. cbn [SFsub].
    split; [exact Vx |]. split; [reflexivity |]. left. split; [reflexivity |].
    apply valid_finite_inv in Vx as [Hc _].
    cbn [F2Z cond_Zopp]. rewrite Z.sub_0_r.
    symmetry. apply rnd_exact. exact Hc.
  - (* finite - finite *)
    cbn [SFsub].
    pose proof (valid_finite_inv _ _ _ Vx) as [Cx _].
    pose proof (valid_finite_inv _ _ _ Vy) as [Cy _].
    destruct (canonical_facts mx ex Cx) as (Ex & _ & _).
    destruct (canonical_facts my ey Cy) as (Ey & _ & _).
    set (ez := Z.min ex ey).
    rewrite !shl_align_fst by (unfold ez; lia).
    set (D := cond_Zopp sx (Zpos mx * 2 ^ (ex - ez))
              - cond_Zopp sy (Zpos my * 2 ^ (ey - ez))).
    assert (HD : D * 2 ^ (ez + 1074)
                 = F2Z (S754_finite sx mx ex) - F2Z (S754_finite sy my ey)).
    { unfold D. cbn [F2Z].
      replace (ex + 1074) with (ex - ez + (ez + 1074)) by lia.
      replace (ey + 1074) with (ey - ez + (ez + 1074)) by lia.
      rewrite (Z.pow_add_r 2 (ex - ez) (ez + 1074)) by (unfold ez; lia).
      rewrite (Z.pow_add_r 2 (ey - ez) (ez + 1074)) by (unfold ez; lia).
      destruct sx, sy; cbn [cond_Zopp]; ring. }
    rewrite <- HD.
    pose proof (pow2_pos (ez + 1074) ltac:(unfold ez; lia)) as Hp.
    destruct D as [| p | p].
    + simpl. repeat split. left. split; reflexivity.
    + cbn [binary_normalize].
      apply binary_round_facts. unfold ez. lia.
    + exfalso. pose proof (Pos2Z.neg_is_neg p). nia.
Qed.

Lemma new_location_zero nb : new_location nb 0 = loc_Exact.
Proof.
  unfold new_location, new_location_even, new_location_odd.
  destruct (Z.even nb); reflexivity.
Qed.

Lemma key_loc_upper m l : key_loc m l <= 4 * m + 3.
Proof. unfold key_loc. destruct l as [| []]; lia. Qed.

Lemma scaled_digits m e :
  -1074 <= e ->
  Zdigits2 (Zpos m * 2 ^ (e + 1074)) = Zpos (digits2_pos m) + e + 1074.
Proof.
  intros He. rewrite Zdigits2_mul_pow2 by lia. simpl Zdigits2. lia.
Qed.

Lemma div_core_facts ma ea md ed :
  Z.max (Zpos (digits2_pos ma) + ea - 53) (-1074) = ea ->
  Z.max (Zpos (digits2_pos md) + ed - 53) (-1074) = ed ->
  Zpos ma * 2 ^ (ea + 1074) <= Zpos md * 2 ^ (ed + 1074) ->
  let '(q, e', l) :=
    SFdiv_core_binary F64.prec F64.emax (Zpos ma) ea (Zpos md) ed in
  0 <= q /\ e' <= fexp F64.prec F64.emax (Zdigits2 q + e') /\
  e' <= -52 /\ key_loc q l <= 4 * (2 ^ 52 * 2 ^ (-52 - e')).
Proof.
  intros Ca Cd Hle.
  destruct (canonical_facts ma ea Ca) as (Ea & Ua & _).
  destruct (canonical_facts md ed Cd) as (Ed & Ud & _).
  unfold SFdiv_core_binary. cbn [Zdigits2].
  set (d1 := Zpos (digits2_pos ma)). set (d2 := Zpos (digits2_pos md)).
  assert (Hdelta : d1 + ea <= d2 + ed).
  { pose proof (pow2_pos (ea + 1074) ltac:(lia)).
    pose proof (Zdigits2_mono (Zpos ma * 2 ^ (ea + 1074))
                  (Zpos md * 2 ^ (ed + 1074)) ltac:(split; [nia | lia])) as Hd.
    rewrite !scaled_digits in Hd by lia. fold d1 d2 in Hd. lia. }
  set (e' := Z.min (fexp F64.prec F64.emax (d1 + ea - (d2 + ed))) (ea - ed)).
  assert (He' : e' <= -53) by (unfold e'; rewrite fexp64_eq; lia).
  set (s := ea - ed - e').
  assert (Hs : 0 <= s) by (unfold s, e'; lia).
  set (m' := match s with
             | 0 => Zpos ma
             | Zpos _ => Z.shiftl (Zpos ma) s
             | Zneg _ => 0
             end).
  assert (Hm' : m' = Zpos ma * 2 ^ s).
  { unfold m'. destruct s as [| p | p]; [simpl; lia | | lia].
    apply Z.shiftl_mul_pow2. lia. }
  assert (He'f : e' <= fexp F64.prec F64.emax (d1 + ea - (d2 + ed)))
    by (unfold e'; lia).
  assert (Hse : s = ea - ed - e') by reflexivity.
  clearbody m' s e'.
  assert (Hde : Z.div_eucl m' (Zpos md) = (m' / Zpos md, m' mod Zpos md))
    by (unfold Z.div, Z.modulo; destruct (Z.div_eucl m' (Zpos md));
        reflexivity).
  rewrite Hde.
  set (q := m' / Zpos md). set (r := m' mod Zpos md).
  pose proof (pow2_pos s Hs) as Hps.
  assert (Hm0 : 0 < m') by (rewrite Hm'; nia).
  assert (Hqr : m' = Zpos md * q + r /\ 0 <= r < Zpos md).
  { split; [apply Z.div_mod; lia | apply Z.mod_pos_bound; lia]. }
  destruct Hqr as [Hqr Hr].
  assert (Hq0 : 0 <= q) by (apply Z.div_pos; lia).
  destruct (digits2_pos_bounds ma) as [Hla _].
  destruct (digits2_pos_bounds md) as [_ Hud].
  fold d1 in Hla. fold d2 in Hud.
  split; [exact Hq0 |]. split; [| split; [lia |]].
  - (* the quotient has enough digits *)
    apply Z.le_trans with (fexp F64.prec F64.emax (d1 + ea - (d2 + ed)));
      [exact He'f |].
    apply fexp64_mono.
    assert (Hdig : d1 - d2 + s <= Zdigits2 q).
    { destruct (Z.le_gt_cases (d1 - d2 + s) 0) as [Hneg | Hpos].
      - pose proof (Zdigits2_nonneg q). lia.
      - assert (Hql : 2 ^ (d1 - d2 + s - 1) <= q).
        { apply Z.div_le_lower_bound; [lia |].
          rewrite Hm'.
          assert (Hsplit : 2 ^ (d1 - 1) * 2 ^ s
                           = 2 ^ d2 * 2 ^ (d1 - d2 + s - 1)).
          { rewrite <- !Z.pow_add_r by (unfold d1, d2 in *; lia).
            f_equal. lia. }
          pose proof (pow2_pos (d1 - d2 + s - 1) ltac:(lia)). nia. }
        pose proof (Zdigits2_ge_pow q (d1 - d2 + s - 1) ltac:(lia) Hql).
        lia. }
    lia.
  - (* the quotient is at most one *)
    rewrite <- Z.pow_add_r by lia. replace (52 + (-52 - e')) with (- e') by lia.
    pose proof (pow2_pos (- e') ltac:(lia)) as HpT.
    assert (Hbound : m' <= Zpos md * 2 ^ (- e')).
    { rewrite Hm'.
      pose proof (pow2_pos (ed + 1074) ltac:(lia)) as HpB.
      assert (H1 : Zpos ma * 2 ^ s * 2 ^ (ed + 1074)
                   = Zpos ma * 2 ^ (ea + 1074) * 2 ^ (- e')).
      { rewrite <- (Z.mul_assoc (Zpos ma) (2 ^ s)).
        rewrite <- (Z.mul_assoc (Zpos ma) (2 ^ (ea + 1074))).
        rewrite <- (Z.pow_add_r 2 s (ed + 1074)) by lia.
        rewrite <- (Z.pow_add_r 2 (ea + 1074) (- e')) by lia.
        f_equal. f_equal. lia. }
      nia. }
    destruct (Z.eq_dec r 0) as [Hr0 | Hr0].
    + rewrite Hr0, new_location_zero. unfold key_loc.
      assert (Hqle : q <= 2 ^ (- e')).
      { apply (Z.mul_le_mono_pos_l _ _ (Zpos md)); lia. }
      lia.
    + pose proof (key_loc_upper q (new_location (Zpos md) r)).
      assert (Hlt : q < 2 ^ (- e')).
      { apply (Z.mul_lt_mono_pos_l (Zpos md)); lia. }
      lia.
Qed.

Lemma F2Z_one : F2Z F64.one = 2 ^ 1074.
Proof. reflexivity. Qed.

Lemma valid_one : F64.valid F64.one = true.
Proof. reflexivity. Qed.

Lemma valid_f255 : F64.valid F64.f255 = true.
Proof. reflexivity. Qed.

(** [a / d] for finite [0 <= a <= d] and [0 < d]. *)
Lemma div_facts a md ed :
  F64.valid a = true -> F64.valid (S754_finite false md ed) = true ->
  F64.is_finite a = true ->
  0 <= F2Z a <= F2Z (S754_finite false md ed) ->
  let q := F64.div a (S754_finite false md ed) in
  F64.valid q = true /\ F64.is_finite q = true /\ 0 <= F2Z q <= F2Z F64.one.
Proof.
  intros Va Vd Fa [H0 Hle] q. unfold q, F64.div.
  destruct a as [sa | sa | | sa ma ea]; try discriminate Fa.
  - cbn [SFdiv]. rewrite F2Z_one. repeat split; simpl; lia.
  - destruct (F2Z_finite_sign sa ma ea Va) as [Hs _]. specialize (Hs H0).
    subst sa. cbn [SFdiv xorb].
    pose proof (valid_finite_inv _ _ _ Va) as [Ca _].
    pose proof (valid_finite_inv _ _ _ Vd) as [Cd _].
    pose proof (div_core_facts ma ea md ed Ca Cd Hle) as Hcore.
    destruct (SFdiv_core_binary F64.prec F64.emax (Zpos ma) ea (Zpos md) ed)
      as [[mz ez] lz].
    destruct Hcore as (Hq0 & Hcond & Hez & Hkey).
    apply (binary_round_aux_le mz ez lz 4503599627370496 (-52)
             Hq0 Hcond valid_one Hez Hkey).
Qed.

Lemma div_self m e :
  F64.div (S754_finite false m e) (S754_finite false m e) = F64.one.
Proof.
  unfold F64.div. cbn [SFdiv xorb].
  assert (E : SFdiv_core_binary F64.prec F64.emax (Zpos m) e (Zpos m) e
              = (2 ^ 53, -53, loc_Exact)).
  { unfold SFdiv_core_binary. rewrite !Z.sub_diag.
    change (Z.min (fexp F64.prec F64.emax 0) 0) with (-53).
    change (0 - -53) with 53.
    rewrite Z.shiftl_mul_pow2 by lia.
    assert (Hde : Z.div_eucl (Zpos m * 2 ^ 53) (Zpos m) = (2 ^ 53, 0)).
    { rewrite (Z.mul_comm (Zpos m)).
      pose proof (Z.div_mul (2 ^ 53) (Zpos m) ltac:(lia)) as Hq.
      pose proof (Z.mod_mul (2 ^ 53) (Zpos m) ltac:(lia)) as Hr.
      unfold Z.div, Z.modulo in Hq, Hr.
      destruct (Z.div_eucl (2 ^ 53 * Zpos m) (Zpos m)) as [q0 r0].
      simpl in Hq, Hr. congruence. }
    rewrite Hde, new_location_zero. reflexivity. }
  rewrite E. vm_compute. reflexivity.
Qed.

(** [q * 255.0] for finite [0 <= q <= 1]. *)
Lemma mul_f255_facts q :
  F64.valid q = true -> F64.is_finite q = true ->
  0 <= F2Z q <= F2Z F64.one ->
  let y := F64.mul q F64.f255 in
  F64.valid y = true /\ F64.is_finite y = true /\ 0 <= F2Z y <= F2Z F64.f255.
Proof.
  intros Vq Fq [H0 H1] y. unfold y, F64.mul, F64.f255.
  destruct q as [sq | sq | | sq mq eq]; try discriminate Fq.
  - cbn [SFmul]. repeat split; simpl; lia.
  - destruct (F2Z_finite_sign sq mq eq Vq) as [Hs _]. specialize (Hs H0).
    subst sq. cbn [SFmul xorb].
    pose proof (valid_finite_inv _ _ _ Vq) as [Cq _].
    destruct (canonical_facts mq eq Cq) as (Eq' & _ & _).
    rewrite F2Z_one in H1. cbn [F2Z cond_Zopp] in H1.
    pose proof (pow2_pos (eq + 1074) ltac:(lia)) as Hp.
    assert (Heq0 : eq <= 0).
    { destruct (Z.le_gt_cases eq 0) as [|Hgt]; [assumption |].
      assert (2 ^ 1074 < 2 ^ (eq + 1074)) by (apply Z.pow_lt_mono_r; lia).
      nia. }
    assert (Hmq : Zpos mq <= 2 ^ (- eq)).
    { assert (Hsplit : 2 ^ 1074 = 2 ^ (- eq) * 2 ^ (eq + 1074)).
      { rewrite <- Z.pow_add_r by lia. f_equal. lia. }
      pose proof (pow2_pos (- eq) ltac:(lia)). nia. }
    set (m255 := 8972014882652160%positive).
    assert (H255 : 2 ^ 52 <= Zpos m255 < 2 ^ 53) by (unfold m255; lia).
    apply (binary_round_aux_le (Zpos (mq * m255)) (eq + -45) loc_Exact
             m255 (-45)); try lia.
    + apply Z.le_trans
        with (fexp F64.prec F64.emax (Zpos (digits2_pos mq) + 52 + (eq + -45)));
        [rewrite fexp64_eq; pose proof (Pos2Z.is_pos (digits2_pos mq)); lia |].
      apply fexp64_mono.
      pose proof (Zdigits2_mono (Zpos mq * 2 ^ 52) (Zpos (mq * m255))
                    ltac:(rewrite Pos2Z.inj_mul; nia)) as Hd.
      rewrite Zdigits2_mul_pow2 in Hd by lia.
      cbn [Zdigits2] in Hd |- *. lia.
    + exact valid_f255.
    + unfold key_loc. rewrite Pos2Z.inj_mul.
      replace (-45 - (eq + -45)) with (- eq) by lia.
      pose proof (pow2_pos (- eq) ltac:(lia)). nia.
Qed.

Lemma mul_one_f255 : F64.mul F64.one F64.f255 = F64.f255.
Proof. vm_compute. reflexivity. Qed.

Lemma F2Z_finite_abs x :
  F64.valid x = true -> F64.is_finite x = true ->
  - 2 ^ 2098 < F2Z x < 2 ^ 2098.
Proof.
  intros Vx Fx. destruct x as [s | s | | s m e]; try discriminate Fx.
  - simpl. lia.
  - pose proof (F2Z_finite_bound s m e Vx). destruct s; simpl; lia.
Qed.

Lemma is_finite_not_nan x : F64.is_finite x = true -> F64.is_nan x = false.
Proof. destruct x; simpl; congruence. Qed.

Lemma F2Z_between_finite mn mx x :
  F64.valid mn = true -> F64.valid mx = true ->
  F64.is_finite mn = true -> F64.is_finite mx = true ->
  F64.is_nan x = false ->
  F2Z mn <= F2Z x <= F2Z mx ->
  F64.is_finite x = true.
Proof.
  intros Vmn Vmx Fmn Fmx Nx [H1 H2].
  pose proof (F2Z_finite_abs mn Vmn Fmn).
  pose proof (F2Z_finite_abs mx Vmx Fmx).
  assert (HI : 2 ^ 2098 < 2 ^ 2100) by (apply Z.pow_lt_mono_r; lia).
  destruct x as [s | s | | s m e]; try reflexivity; try discriminate Nx.
  destruct s; simpl in H1, H2; lia.
Qed.

Lemma sub_finite_inv x y :
  F64.is_finite (F64.sub x y) = true ->
  F64.is_nan x = false -> F64.is_nan y = false ->
  F64.is_finite x = true /\ F64.is_finite y = true.
Proof.
  unfold F64.sub.
  destruct x as [sx | sx | | sx mx ex], y as [sy | sy | | sy my ey];
    try discriminate; try (split; reflexivity);
    try (destruct sx, sy; discriminate).
Qed.

(** One element of the rescaled image. *)
Lemma rescale_value_range mn mx x :
  F64.valid mn = true -> F64.valid mx = true -> F64.valid x = true ->
  F64.is_finite mn = true -> F64.is_finite mx = true ->
  F64.is_finite x = true ->
  F2Z mn <= F2Z x <= F2Z mx ->
  F2Z mn < F2Z mx ->
  F64.is_finite (F64.sub mx mn) = true ->
  F64.leb F64.zero (rescale_value mn mx x) = true /\
  F64.leb (rescale_value mn mx x) F64.f255 = true.
Proof.
  intros Vmn Vmx Vx Fmn Fmx Fx [Hlo Hhi] Hlt Fd. unfold rescale_value.
  destruct (sub_facts mx mn Vmx Vmn Fmx Fmn ltac:(lia))
    as (Vd & Nd & [[_ Zd] | [Id _]]);
    [| rewrite Id in Fd; discriminate Fd].
  pose proof (rnd_pos (F2Z mx - F2Z mn) ltac:(lia)) as Hdpos.
  pose proof (F2Z_finite_abs _ Vd Fd) as Hdb.
  destruct (sub_facts x mn Vx Vmn Fx Fmn Hlo)
    as (Va & Na & [[Fa Za] | [_ Oa]]).
  2: { pose proof (rnd_mono (F2Z x - F2Z mn) (F2Z mx - F2Z mn) ltac:(lia)).
       lia. }
  pose proof (rnd_mono (F2Z x - F2Z mn) (F2Z mx - F2Z mn) ltac:(lia)) as Hm.
  pose proof (rnd_nonneg (F2Z x - F2Z mn) ltac:(lia)) as Ha0.
  destruct (F64.sub mx mn) as [sd | sd | | sd md ed] eqn:Ed;
    try discriminate Fd; [simpl in Zd; lia |].
  destruct (F2Z_finite_sign sd md ed Vd) as [Hs _].
  specialize (Hs ltac:(lia)). subst sd.
  destruct (div_facts (F64.sub x mn) md ed Va Vd Fa ltac:(lia))
    as (Vq & Fq & Hq).
  destruct (mul_f255_facts _ Vq Fq Hq) as (Vy & Fy & Hy).
  rewrite !leb_F2Z by (auto using is_finite_not_nan, valid_f255).
  split; apply Z.leb_le; simpl F2Z at 1; lia.
Qed.

Lemma sub_diag_finite x :
  F64.is_finite x = true -> F64.sub x x = F64.zero.
Proof.
  destruct x as [s | s | | s m e]; try discriminate; intros _.
  - destruct s; reflexivity.
  - apply sub_finite_diag.
Qed.

Lemma sub_positive mn mx :
  F64.valid mn = true -> F64.valid mx = true ->
  F64.is_finite mn = true -> F64.is_finite mx = true ->
  F2Z mn < F2Z mx ->
  F64.is_finite (F64.sub mx mn) = true ->
  exists md ed, F64.sub mx mn = S754_finite false md ed.
Proof.
  intros Vmn Vmx Fmn Fmx Hlt Fd.
  destruct (sub_facts mx mn Vmx Vmn Fmx Fmn ltac:(lia))
    as (Vd & Nd & [[_ Zd] | [Id _]]);
    [| rewrite Id in Fd; discriminate Fd].
  pose proof (rnd_pos (F2Z mx - F2Z mn) ltac:(lia)) as Hdpos.
  destruct (F64.sub mx mn) as [sd | sd | | sd md ed] eqn:Ed;
    try discriminate Fd; [simpl in Zd; lia |].
  destruct (F2Z_finite_sign sd md ed Vd) as [Hs _].
  specialize (Hs ltac:(lia)). subst sd. eauto.
Qed.

Lemma rescale_value_min mn mx :
  F64.valid mn = true -> F64.valid mx = true ->
  F64.is_finite mn = true -> F64.is_finite mx = true ->
  F2Z mn < F2Z mx ->
  F64.is_finite (F64.sub mx mn) = true ->
  rescale_value mn mx mn = F64.zero.
Proof.
  intros Vmn Vmx Fmn Fmx Hlt Fd. unfold rescale_value.
  destruct (sub_positive mn mx Vmn Vmx Fmn Fmx Hlt Fd) as (md & ed & ->).
  rewrite sub_diag_finite by exact Fmn. reflexivity.
Qed.

Lemma rescale_value_max mn mx :
  F64.valid mn = true -> F64.valid mx = true ->
  F64.is_finite mn = true -> F64.is_finite mx = true ->
  F2Z mn < F2Z mx ->
  F64.is_finite (F64.sub mx mn) = true ->
  rescale_value mn mx mx = F64.f255.
Proof.
  intros Vmn Vmx Fmn Fmx Hlt Fd. unfold rescale_value.
  destruct (sub_positive mn mx Vmn Vmx Fmn Fmx Hlt Fd) as (md & ed & ->).
  rewrite div_self. apply mul_one_f255.
Qed.

(** The reductions [np.min] and [np.max]. *)
Lemma fmin_not_nan acc x :
  F64.is_nan (fmin acc x) = false ->
  F64.is_nan acc = false /\ F64.is_nan x = false.
Proof.
  unfold fmin, F64.leb, SFleb.
  destruct acc as [sa | sa | | sa ma ea], x as [sx | sx | | sx mx ex];
    simpl; try congruence; auto.
Qed.

Lemma fmax_not_nan acc x :
  F64.is_nan (fmax acc x) = false ->
  F64.is_nan acc = false /\ F64.is_nan x = false.
Proof.
  unfold fmax, F64.leb, SFleb.
  destruct acc as [sa | sa | | sa ma ea], x as [sx | sx | | sx mx ex];
    simpl; try congruence; auto.
Qed.

Lemma fold_not_nan f l acc :
  (forall a x, F64.is_nan (f a x) = false ->
               F64.is_nan a = false /\ F64.is_nan x = false) ->
  F64.is_nan (fold_left f l acc) = false ->
  F64.is_nan acc = false /\ Forall (fun x => F64.is_nan x = false) l.
Proof.
  intros Hf. revert acc. induction l as [| x l IH]; intros acc Hn.
  - split; [exact Hn | constructor].
  - simpl in Hn. destruct (IH _ Hn) as [Hfx Hl].
    destruct (Hf _ _ Hfx) as [Ha Hx]. split; [exact Ha |].
    constructor; assumption.
Qed.

Lemma fold_fmin_spec l acc :
  ordered acc -> Forall ordered l ->
  let r := fold_left fmin l acc in
  ordered r /\ F2Z r <= F2Z acc /\ Forall (fun x => F2Z r <= F2Z x) l.
Proof.
  revert acc. induction l as [| x l IH]; intros acc Ha Hl; simpl.
  - split; [exact Ha |]. split; [lia | constructor].
  - inversion Hl as [| ? ? Hx Hl']; subst.
    assert (Hstep : ordered (fmin acc x) /\ F2Z (fmin acc x) <= F2Z acc /\
                    F2Z (fmin acc x) <= F2Z x).
    { unfold fmin. destruct Ha as [Va Na], Hx as [Vx Nx].
      rewrite leb_F2Z, Na, orb_false_r by assumption.
      destruct (Z.leb_spec (F2Z acc) (F2Z x)); unfold ordered; repeat split;
        auto; lia. }
    destruct Hstep as (Ho & H1 & H2).
    destruct (IH _ Ho Hl') as (Hr & Hra & Hrl).
    split; [exact Hr |]. split; [lia |].
    constructor; [lia | exact Hrl].
Qed.

Lemma fold_fmax_spec l acc :
  ordered acc -> Forall ordered l ->
  let r := fold_left fmax l acc in
  ordered r /\ F2Z acc <= F2Z r /\ Forall (fun x => F2Z x <= F2Z r) l.
Proof.
  revert acc. induction l as [| x l IH]; intros acc Ha Hl; simpl.
  - split; [exact Ha |]. split; [lia | constructor].
  - inversion Hl as [| ? ? Hx Hl']; subst.
    assert (Hstep : ordered (fmax acc x) /\ F2Z acc <= F2Z (fmax acc x) /\
                    F2Z x <= F2Z (fmax acc x)).
    { unfold fmax. destruct Ha as [Va Na], Hx as [Vx Nx].
      rewrite leb_F2Z, Na, orb_false_r by assumption.
      destruct (Z.leb_spec (F2Z x) (F2Z acc)); unfold ordered; repeat split;
        auto; lia. }
    destruct Hstep as (Ho & H1 & H2).
    destruct (IH _ Ho Hl') as (Hr & Hra & Hrl).
    split; [exact Hr |]. split; [lia |].
    constructor; [lia | exact Hrl].
Qed.

(** What a finite, positive [im_max - im_min] tells about the elements. *)
Lemma extrema_facts E mn mx :
  Forall (fun x => F64.valid x = true) E ->
  reduce fmin E = Some mn -> reduce fmax E = Some mx ->
  F64.ltb mn mx = true ->
  F64.is_finite (F64.sub mx mn) = true ->
  F64.valid mn = true /\ F64.valid mx = true /\
  F64.is_finite mn = true /\ F64.is_finite mx = true /\
  F2Z mn < F2Z mx /\
  Forall (fun x => F64.valid x = true /\ F64.is_finite x = true /\
                   F2Z mn <= F2Z x <= F2Z mx) E.
Proof.
  intros HV Hmn Hmx Hlt Fd.
  destruct E as [| x0 E]; [discriminate Hmn |].
  simpl in Hmn, Hmx. injection Hmn as Hmn. injection Hmx as Hmx.
  assert (Nmn : F64.is_nan mn = false).
  { destruct mn; try reflexivity. discriminate Hlt. }
  rewrite <- Hmn in Nmn.
  destruct (fold_not_nan fmin E x0 fmin_not_nan Nmn) as [N0 NE].
  inversion HV as [| ? ? V0 VE]; subst.
  assert (O0 : ordered x0) by (split; assumption).
  assert (OE : Forall ordered E).
  { rewrite Forall_forall in *. intros x Hx. split; auto. }
  destruct (fold_fmin_spec E x0 O0 OE) as ([Vmn Nmn'] & Hmn0 & HmnE).
  destruct (fold_fmax_spec E x0 O0 OE) as ([Vmx Nmx] & Hmx0 & HmxE).
  set (mn := fold_left fmin E x0) in *. set (mx := fold_left fmax E x0) in *.
  destruct (sub_finite_inv mx mn Fd Nmx Nmn') as [Fmx Fmn].
  rewrite ltb_F2Z in Hlt by assumption. apply Z.ltb_lt in Hlt.
  repeat (split; [assumption |]).
  assert (Hall : Forall (fun x => F64.valid x = true /\ F64.is_nan x = false /\
                                  F2Z mn <= F2Z x <= F2Z mx) (x0 :: E)).
  { constructor; [repeat split; assumption |].
    rewrite Forall_forall in *. intros x Hx.
    destruct (OE x Hx). specialize (HmnE x Hx). specialize (HmxE x Hx).
    repeat split; assumption. }
  eapply Forall_impl; [exact Hall |].
  intros x (Vx & Nx & Hb). split; [exact Vx |]. split; [| exact Hb].
  apply (F2Z_between_finite mn mx x); assumption.
Qed.

(** ** The range of the rescaled image *)

(** C3, on the inputs for which it holds. When the global maximum strictly
    exceeds the global minimum and their difference [im_max - im_min] is
    finite (it does not overflow), lines 48-51 return an array of the shape
    of the input in which element [x] of either frame has become
    [(x - im_min) / (im_max - im_min) * 255.0], with the one minimum and the
    one maximum taken over both frames; every element of the result lies in
    [0, 255], the minimum is mapped to [0.0] and the maximum to [255.0]. *)
Theorem rescale_range `{Collaborators} st a m n mn mx :
  shape a = [2; m; n]%nat ->
  allocated st a ->
  Forall (fun x => F64.valid x = true) (elements st a) ->
  reduce fmin (elements st a) = Some mn ->
  reduce fmax (elements st a) = Some mx ->
  F64.ltb mn mx = true ->
  F64.is_finite (F64.sub mx mn) = true ->
  exists im st',
    run (preprocess_without_smoothing a) st = (inr im, st') /\
    shape im = [2; m; n]%nat /\
    elements st' im = map (rescale_value mn mx) (elements st a) /\
    Forall (fun y => F64.leb F64.zero y = true /\ F64.leb y F64.f255 = true)
           (elements st' im) /\
    rescale_value mn mx mn = F64.zero /\
    rescale_value mn mx mx = F64.f255.
Proof.
  intros Hs Ha HV Hmn Hmx Hlt Fd.
  destruct (extrema_facts _ mn mx HV Hmn Hmx Hlt Fd)
    as (Vmn & Vmx & Fmn & Fmx & Hlt' & Hall).
  exists (rescaled_array st [2; m; n]%nat), (after_rescale st a mn mx).
  split; [apply preprocess_without_smoothing_run; assumption |].
  split; [reflexivity |].
  rewrite (elements_rescaled_array st a m n mn mx Hs).
  split; [reflexivity |]. split; [| split].
  - rewrite Forall_map. eapply Forall_impl; [exact Hall |].
    intros x (Vx & Fx & Hb). simpl.
    apply rescale_value_range; assumption.
  - apply rescale_value_min; assumption.
  - apply rescale_value_max; assumption.
Qed.

Lemma rescale_range_witness :
  exists im st',
    run (preprocess_without_smoothing (H := sample_collaborators)
           (array_of [2; 1; 2]%nat))
        (state_of [F64.one; F64.zero; F64.f255; F64.one]) = (inr im, st') /\
    shape im = [2; 1; 2]%nat /\
    elements st' im
    = map (rescale_value F64.zero F64.f255)
        (elements (state_of [F64.one; F64.zero; F64.f255; F64.one])
           (array_of [2; 1; 2]%nat)) /\
    Forall (fun y => F64.leb F64.zero y = true /\ F64.leb y F64.f255 = true)
           (elements st' im) /\
    rescale_value F64.zero F64.f255 F64.zero = F64.zero /\
    rescale_value F64.zero F64.f255 F64.f255 = F64.f255.
Proof.
  apply (rescale_range (H := sample_collaborators)
           (state_of [F64.one; F64.zero; F64.f255; F64.one])
           (array_of [2; 1; 2]%nat) 1 2 F64.zero F64.f255).
  - reflexivity.
  - unfold allocated. simpl. lia.
  - repeat constructor.
  - reflexivity.
  - reflexivity.
  - reflexivity.
  - reflexivity.
Defined.

(** C3, as stated, fails when [im_max - im_min] overflows: on the frames
    [[[-max_float]]] and [[[max_float]]] the maximum exceeds the minimum,
    the difference is [+inf], and the maximum is mapped to
    [inf / inf * 255.0], which is NaN and not 255. *)
Lemma overflowing_range_not_rescaled :
  reduce fmin [SFopp F64.max_float; F64.max_float] = Some (SFopp F64.max_float)
  /\ reduce fmax [SFopp F64.max_float; F64.max_float] = Some F64.max_float
  /\ F64.ltb (SFopp F64.max_float) F64.max_float = true
  /\ observe (run (preprocess_without_smoothing (H := sample_collaborators)
                     (array_of [2; 1; 1]%nat))
                  (state_of [SFopp F64.max_float; F64.max_float]))
     = inr {| c_shape := [2; 1; 1]%nat; c_data := [F64.zero; F64.nan] |}
  /\ ~ Forall (fun y => F64.leb F64.zero y = true /\
                        F64.leb y F64.f255 = true)
         [F64.zero; F64.nan]
  /\ rescale_value (SFopp F64.max_float) F64.max_float F64.max_float
     <> F64.f255.
Proof.
  split; [vm_compute; reflexivity |].
  split; [vm_compute; reflexivity |].
  split; [vm_compute; reflexivity |].
  split; [vm_compute; reflexivity |].
  split.
  - intros HF. inversion HF as [| ? ? _ HF']; subst.
    inversion HF' as [| ? ? [H0 _] _]; subst. discriminate H0.
  - assert (E : rescale_value (SFopp F64.max_float) F64.max_float
                  F64.max_float = F64.nan) by (vm_compute; reflexivity).
    rewrite E. discriminate.
Qed.

(** * Further properties of [proesmans] *)

(** ** Inputs on which the rescaling breaks down *)

Lemma fold_nan_absorbs f l acc :
  (forall a x, F64.is_nan (f a x) = false ->
               F64.is_nan a = false /\ F64.is_nan x = false) ->
  F64.is_nan acc = true \/ Exists (fun x => F64.is_nan x = true) l ->
  fold_left f l acc = F64.nan.
Proof.
  intros Hf Hn.
  destruct (F64.is_nan (fold_left f l acc)) eqn:E.
  - destruct (fold_left f l acc); try discriminate E. reflexivity.
  - destruct (fold_not_nan f l acc Hf E) as [Ha Hl].
    destruct Hn as [Hn | Hn]; [congruence |].
    apply Exists_exists in Hn as (x & Hx & Nx).
    rewrite Forall_forall in Hl. specialize (Hl x Hx). congruence.
Qed.

Lemma reduce_nan f d :
  (forall a x, F64.is_nan (f a x) = false ->
               F64.is_nan a = false /\ F64.is_nan x = false) ->
  Exists (fun x => F64.is_nan x = true) d ->
  reduce f d = Some F64.nan.
Proof.
  intros Hf Hd. destruct d as [| x d]; [inversion Hd |].
  simpl. f_equal. apply fold_nan_absorbs; [exact Hf |].
  inversion Hd; subst; auto.
Qed.

Lemma rescale_value_nan_min mx x : rescale_value F64.nan mx x = F64.nan.
Proof. unfold rescale_value. destruct x as [s | s | | s m e]; reflexivity. Qed.

(** X1. A NaN anywhere in the input is the minimum and the maximum that
    [np.min] and [np.max] return, so that lines 48-51 raise nothing and
    turn every element of both frames into NaN. *)
Theorem nan_pixel_spreads `{Collaborators} st a m n :
  shape a = [2; m; n]%nat ->
  allocated st a ->
  Exists (fun x => F64.is_nan x = true) (elements st a) ->
  exists im st',
    run (preprocess_without_smoothing a) st = (inr im, st') /\
    shape im = [2; m; n]%nat /\
    elements st' im = repeat F64.nan (length (elements st a)).
Proof.
  intros Hs Ha Hn.
  exists (rescaled_array st [2; m; n]%nat),
         (after_rescale st a F64.nan F64.nan).
  split.
  - apply preprocess_without_smoothing_run; try assumption.
    + apply reduce_nan; [apply fmin_not_nan | exact Hn].
    + apply reduce_nan; [apply fmax_not_nan | exact Hn].
  - split; [reflexivity |].
    rewrite (elements_rescaled_array st a m n _ _ Hs).
    apply (map_constant _ (fun _ => True)); [| apply Forall_true; auto].
    intros x _. apply rescale_value_nan_min.
Qed.

Lemma nan_pixel_spreads_witness :
  exists im st',
    run (preprocess_without_smoothing (H := sample_collaborators)
           (array_of [2; 1; 2]%nat))
        (state_of [F64.one; F64.nan; F64.f255; F64.zero]) = (inr im, st') /\
    shape im = [2; 1; 2]%nat /\
    elements st' im = repeat F64.nan 4.
Proof.
  apply (nan_pixel_spreads (H := sample_collaborators)
           (state_of [F64.one; F64.nan; F64.f255; F64.zero])
           (array_of [2; 1; 2]%nat) 1 2).
  - reflexivity.
  - unfold allocated. simpl. lia.
  - apply Exists_cons_tl, Exists_cons_hd. reflexivity.
Defined.

(** When [im_max - im_min] is not a finite number, every quotient is a zero
    or NaN. *)
Lemma rescale_value_not_finite mn mx x :
  F64.is_finite (F64.sub mx mn) = false ->
  let y := rescale_value mn mx x in
  F64.is_nan y = true \/ exists s, y = S754_zero s.
Proof.
  intros Hd. unfold rescale_value.
  destruct (F64.sub mx mn) as [sd | sd | | sd md ed];
    try discriminate Hd;
    destruct (F64.sub x mn) as [st | st | | st mt et]; simpl; eauto.
Qed.

(** X2. When [im_max - im_min] is not finite, because the range of the
    input overflows or because the input holds an infinity or NaN, lines
    48-51 raise nothing and nothing of the image is left: every element of
    the rescaled image is [0.0], [-0.0] or NaN. *)
Theorem unbounded_range_erases_image `{Collaborators} st a m n mn mx :
  shape a = [2; m; n]%nat ->
  allocated st a ->
  reduce fmin (elements st a) = Some mn ->
  reduce fmax (elements st a) = Some mx ->
  F64.is_finite (F64.sub mx mn) = false ->
  exists im st',
    run (preprocess_without_smoothing a) st = (inr im, st') /\
    Forall (fun y => F64.is_nan y = true \/ exists s, y = S754_zero s)
           (elements st' im).
Proof.
  intros Hs Ha Hmn Hmx Hd.
  exists (rescaled_array st [2; m; n]%nat), (after_rescale st a mn mx).
  split; [apply preprocess_without_smoothing_run; assumption |].
  rewrite (elements_rescaled_array st a m n mn mx Hs).
  rewrite Forall_map. apply Forall_true.
  intros x. apply rescale_value_not_finite. exact Hd.
Qed.

Lemma unbounded_range_erases_image_witness :
  exists im st',
    run (preprocess_without_smoothing (H := sample_collaborators)
           (array_of [2; 1; 2]%nat))
        (state_of [SFopp F64.max_float; F64.zero; F64.one; F64.max_float])
    = (inr im, st') /\
    Forall (fun y => F64.is_nan y = true \/ exists s, y = S754_zero s)
           (elements st' im).
Proof.
  apply (unbounded_range_erases_image (H := sample_collaborators)
           (state_of [SFopp F64.max_float; F64.zero; F64.one; F64.max_float])
           (array_of [2; 1; 2]%nat) 1 2 (SFopp F64.max_float) F64.max_float).
  - reflexivity.
  - unfold allocated. simpl. lia.
  - vm_compute. reflexivity.
  - vm_compute. reflexivity.
  - vm_compute. reflexivity.
Defined.

(** ** Empty frames *)

Lemma elements_empty st a m n :
  shape a = [2; m; n]%nat -> (m = 0 \/ n = 0)%nat -> elements st a = [].
Proof.
  intros Hs Hz. unfold elements. rewrite Hs.
  replace (size [2; m; n]%nat) with 0%nat by (simpl; nia).
  apply take_0.
Qed.

(** X3. An input of shape (2, m, n) without elements ([m = 0] or [n = 0])
    passes the validation; [np.min] then raises [ValueError] on the empty
    stack, whatever the parameters, and neither [gaussian_filter] nor the
    solver is called. *)
Theorem proesmans_empty_frames `{Collaborators}
    st a m n lam num_iter num_levels filter_std :
  shape a = [2; m; n]%nat ->
  allocated st a ->
  (m = 0 \/ n = 0)%nat ->
  exists st',
    run (proesmans a lam num_iter num_levels filter_std) st
    = (inl (ValueError zero_size_message), st') /\
    calls st' = calls st.
Proof.
  intros Hs Ha Hz. unfold proesmans.
  eexists. split.
  - erewrite run_bind_raise; [reflexivity |].
    rewrite preprocess_split.
    erewrite run_bind_raise; [reflexivity |].
    apply (preprocess_without_smoothing_run_empty st a m n Hs Ha).
    apply (elements_empty st a m n Hs Hz).
  - reflexivity.
Qed.

Lemma proesmans_empty_frames_witness :
  exists st',
    run (proesmans (H := sample_collaborators) (array_of [2; 0; 3]%nat)
           F64.f255 100 6 F64.one) (state_of [])
    = (inl (ValueError zero_size_message), st') /\
    calls st' = calls (state_of []).
Proof.
  apply (proesmans_empty_frames (H := sample_collaborators)
           (state_of []) (array_of [2; 0; 3]%nat) 0 3 F64.f255 100 6 F64.one).
  - reflexivity.
  - unfold allocated. simpl. lia.
  - left. reflexivity.
Defined.

(** ** The order of the pixels

    Rounding to nearest is monotone, and so are the three operations of
    line 51 on the elements between the minimum and the maximum. *)

Lemma sticky_quot_scale N D c :
  0 < D -> 0 < c -> sticky_quot (N * c) (D * c) = sticky_quot N D.
Proof.
  intros HD Hc. unfold sticky_quot.
  rewrite Z.div_mul_cancel_r, Z.mul_mod_distr_r by lia.
  destruct (Z.eqb_spec (N mod D) 0) as [-> | Hn].
  - reflexivity.
  - destruct (Z.eqb_spec (N mod D * c) 0) as [E | _]; [nia | reflexivity].
Qed.

Lemma sticky_quot_mono_num N1 N2 D :
  0 < D -> N1 <= N2 -> sticky_quot N1 D <= sticky_quot N2 D.
Proof.
  intros HD Hle. unfold sticky_quot.
  pose proof (Z.div_le_mono N1 N2 D HD Hle) as Hq.
  pose proof (Z.div_mod N1 D ltac:(lia)) as E1.
  pose proof (Z.div_mod N2 D ltac:(lia)) as E2.
  pose proof (Z.mod_pos_bound N1 D HD) as B1.
  pose proof (Z.mod_pos_bound N2 D HD) as B2.
  destruct (Z.eqb_spec (N1 mod D) 0), (Z.eqb_spec (N2 mod D) 0); try lia.
  destruct (Z.eq_dec (N1 / D) (N2 / D)) as [Eq | Ne]; [| lia].
  rewrite Eq in E1. lia.
Qed.

Lemma sticky_quot_mono N1 D1 N2 D2 :
  0 < D1 -> 0 < D2 -> N1 * D2 <= N2 * D1 ->
  sticky_quot N1 D1 <= sticky_quot N2 D2.
Proof.
  intros H1 H2 Hle.
  rewrite <- (sticky_quot_scale N1 D1 D2), <- (sticky_quot_scale N2 D2 D1)
    by lia.
  rewrite (Z.mul_comm D2 D1). apply sticky_quot_mono_num; nia.
Qed.

Lemma sticky_half_quot_spec N D :
  0 < D -> sticky_half (sticky_quot N D) = sticky_quot N (2 * D).
Proof.
  intros HD. unfold sticky_half, sticky_quot.
  pose proof (Z.div_mod N (2 * D) ltac:(lia)) as E2.
  pose proof (Z.mod_pos_bound N (2 * D) ltac:(lia)) as B2.
  set (q2 := N / (2 * D)) in *. set (r2 := N mod (2 * D)) in *.
  destruct (Z.ltb_spec r2 D) as [Hlt | Hge].
  - rewrite <- (Z.div_unique N D (2 * q2) r2) by lia.
    rewrite <- (Z.mod_unique N D (2 * q2) r2) by lia.
    destruct (Z.eqb_spec r2 0) as [E0 | N0].
    + replace (2 * (2 * q2) + 0) with (q2 * 4) by ring.
      rewrite Z.div_mul, Z.mod_mul by lia. simpl. lia.
    + rewrite <- (Z.div_unique (2 * (2 * q2) + 1) 4 q2 1) by lia.
      rewrite <- (Z.mod_unique (2 * (2 * q2) + 1) 4 q2 1) by lia.
      simpl. lia.
  - rewrite <- (Z.div_unique N D (2 * q2 + 1) (r2 - D)) by lia.
    rewrite <- (Z.mod_unique N D (2 * q2 + 1) (r2 - D)) by lia.
    destruct (Z.eqb_spec r2 0) as [E0 | N0]; [lia |].
    destruct (Z.eqb_spec (r2 - D) 0) as [E1 | N1].
    + rewrite <- (Z.div_unique (2 * (2 * q2 + 1) + 0) 4 q2 2) by lia.
      rewrite <- (Z.mod_unique (2 * (2 * q2 + 1) + 0) 4 q2 2) by lia.
      simpl. lia.
    + rewrite <- (Z.div_unique (2 * (2 * q2 + 1) + 1) 4 q2 3) by lia.
      rewrite <- (Z.mod_unique (2 * (2 * q2 + 1) + 1) 4 q2 3) by lia.
      simpl. lia.
Qed.

Lemma sticky_shift_quot_spec n N D :
  0 < D ->
  sticky_shift n (sticky_quot N D) = sticky_quot N (D * 2 ^ Z.of_nat n).
Proof.
  intros HD. induction n as [| n IH].
  - simpl. rewrite Z.mul_1_r. reflexivity.
  - change (sticky_shift (S n) ?K) with (sticky_half (sticky_shift n K)).
    rewrite IH, sticky_half_quot_spec
      by (pose proof (pow2_pos (Z.of_nat n) ltac:(lia)); nia).
    f_equal. rewrite Nat2Z.inj_succ, Z.pow_succ_r by lia. ring.
Qed.

Lemma sticky_quot_quot N D : 0 < D -> sticky_quot N D / 4 = N / (2 * D).
Proof.
  intros HD. unfold sticky_quot.
  replace (2 * D) with (D * 2) by ring.
  rewrite <- Z.div_div by lia.
  generalize (N / D). intros q.
  destruct (_ =? _); Z.to_euclidean_division_equations; lia.
Qed.

(** The location computed for a remainder [r] of a division by [nb]. *)
Lemma key_loc_new_location q nb r :
  0 <= r < nb ->
  key_loc q (new_location nb r) = sticky_quot (2 * (nb * q + r)) nb.
Proof.
  intros Hr. unfold sticky_quot.
  assert (Hcases : (r = 0 /\ new_location nb r = loc_Exact) \/
                   (0 < 2 * r < nb /\ new_location nb r = loc_Inexact Lt) \/
                   (2 * r = nb /\ new_location nb r = loc_Inexact Eq) \/
                   (nb < 2 * r /\ new_location nb r = loc_Inexact Gt)).
  { unfold new_location.
    destruct (Z.even nb) eqn:Ev;
      unfold new_location_even, new_location_odd;
      destruct (Z.eqb_spec r 0) as [-> | Hr0];
      try (left; split; reflexivity); right.
    - destruct (Z.compare_spec (2 * r) nb);
        [right; left | left | right; right]; split; (lia || reflexivity).
    - assert (Hodd : 2 * r <> nb).
      { intros E. rewrite <- E, Z.even_mul in Ev. discriminate Ev. }
      destruct (Z.compare_spec (2 * r + 1) nb);
        [left | left | right; right]; split; (lia || reflexivity). }
  unfold key_loc.
  destruct Hcases as [[H0 ->] | [[H1 ->] | [[H2 ->] | [H3 ->]]]].
  - subst r. replace (2 * (nb * q + 0)) with (2 * q * nb) by ring.
    rewrite Z.div_mul, Z.mod_mul by lia. simpl. lia.
  - rewrite <- (Z.div_unique (2 * (nb * q + r)) nb (2 * q) (2 * r))
      by (lia || nia).
    rewrite <- (Z.mod_unique (2 * (nb * q + r)) nb (2 * q) (2 * r))
      by (lia || nia).
    destruct (Z.eqb_spec (2 * r) 0); lia.
  - rewrite <- (Z.div_unique (2 * (nb * q + r)) nb (2 * q + 1) 0)
      by (lia || nia).
    rewrite <- (Z.mod_unique (2 * (nb * q + r)) nb (2 * q + 1) 0)
      by (lia || nia).
    simpl. lia.
  - rewrite <- (Z.div_unique (2 * (nb * q + r)) nb (2 * q + 1) (2 * r - nb))
      by (lia || nia).
    rewrite <- (Z.mod_unique (2 * (nb * q + r)) nb (2 * q + 1) (2 * r - nb))
      by (lia || nia).
    destruct (Z.eqb_spec (2 * r - nb) 0); lia.
Qed.

(** Rounding is monotone: of two mantissas with exponents and locations
    that denote [N1 / D1 * 2^(e1 - 1) <= N2 / D2 * 2^(e2 - 1)], the first
    is rounded to at most what the second is rounded to. *)
Lemma round_mantissa_mono m1 e1 l1 m2 e2 l2 N1 D1 N2 D2 e0 :
  0 <= m1 -> 0 <= m2 ->
  e1 <= fexp F64.prec F64.emax (Zdigits2 m1 + e1) ->
  e2 <= fexp F64.prec F64.emax (Zdigits2 m2 + e2) ->
  0 < D1 -> 0 < D2 -> 0 <= N1 -> 0 <= N2 ->
  key_loc m1 l1 = sticky_quot N1 D1 ->
  key_loc m2 l2 = sticky_quot N2 D2 ->
  e0 <= e1 -> e0 <= e2 ->
  N1 * D2 * 2 ^ (e1 - e0) <= N2 * D1 * 2 ^ (e2 - e0) ->
  round_mantissa m1 e1 l1
    * 2 ^ (fexp F64.prec F64.emax (Zdigits2 m1 + e1) + 1074)
  <= round_mantissa m2 e2 l2
    * 2 ^ (fexp F64.prec F64.emax (Zdigits2 m2 + e2) + 1074).
Proof.
  intros Hm1 Hm2 He1 He2 HD1 HD2 HN1 HN2 HK1 HK2 H01 H02 Hle.
  destruct (round_mantissa_bounds m1 e1 l1 Hm1 He1) as [[L1 U1] B1].
  destruct (round_mantissa_bounds m2 e2 l2 Hm2 He2) as [[L2 U2] B2].
  set (er1 := fexp F64.prec F64.emax (Zdigits2 m1 + e1)) in *.
  set (er2 := fexp F64.prec F64.emax (Zdigits2 m2 + e2)) in *.
  assert (G1 : -1074 <= er1) by (unfold er1; rewrite fexp64_eq; lia).
  assert (G2 : -1074 <= er2) by (unfold er2; rewrite fexp64_eq; lia).
  pose proof (pow2_pos (e1 - e0) ltac:(lia)) as P1.
  pose proof (pow2_pos (e2 - e0) ltac:(lia)) as P2.
  (* the integer parts *)
  assert (Q1 : m1 = N1 / (2 * D1)).
  { rewrite <- (key_loc_quot m1 l1), HK1. apply sticky_quot_quot. exact HD1. }
  assert (Q2 : m2 = N2 / (2 * D2)).
  { rewrite <- (key_loc_quot m2 l2), HK2. apply sticky_quot_quot. exact HD2. }
  assert (F1 : 2 * D1 * m1 <= N1).
  { rewrite Q1. apply Z.mul_div_le. lia. }
  assert (F2 : N2 < 2 * D2 * (m2 + 1)).
  { rewrite Q2. pose proof (Z.mod_pos_bound N2 (2 * D2) ltac:(lia)).
    pose proof (Z.div_mod N2 (2 * D2) ltac:(lia)). lia. }
  assert (Hm12 : m1 * 2 ^ (e1 - e0) < (m2 + 1) * 2 ^ (e2 - e0)).
  { apply (Z.mul_lt_mono_pos_l (2 * D1 * D2)); [nia |].
    set (p1 := 2 ^ (e1 - e0)) in *. set (p2 := 2 ^ (e2 - e0)) in *.
    assert (A : 2 * D1 * m1 * (D2 * p1) <= N1 * (D2 * p1))
      by (apply Z.mul_le_mono_nonneg_r; nia).
    assert (B : N2 * (D1 * p2) < 2 * D2 * (m2 + 1) * (D1 * p2))
      by (apply Z.mul_lt_mono_pos_r; nia).
    replace (2 * D1 * D2 * (m1 * p1)) with (2 * D1 * m1 * (D2 * p1)) by ring.
    replace (2 * D1 * D2 * ((m2 + 1) * p2))
      with (2 * D2 * (m2 + 1) * (D1 * p2)) by ring.
    lia. }
  assert (Hexp : er1 <= er2).
  { destruct (Z.eq_dec m1 0) as [E0 | N0].
    - unfold er1 in *. rewrite E0 in *. simpl Zdigits2 in *.
      rewrite fexp64_eq in *. lia.
    - unfold er1, er2. apply fexp64_mono.
      destruct (Zdigits2_bounds m1 ltac:(lia)) as [Hlo _].
      assert (Hhi : m2 + 1 <= 2 ^ Zdigits2 m2).
      { destruct (Z.eq_dec m2 0) as [-> | N2']; [simpl; lia |].
        destruct (Zdigits2_bounds m2 ltac:(lia)). lia. }
      pose proof (Zdigits2_pos m1 ltac:(lia)) as Hg1.
      pose proof (Zdigits2_nonneg m2) as Hg2.
      assert (Hpow : 2 ^ (Zdigits2 m1 - 1 + (e1 - e0))
                     < 2 ^ (Zdigits2 m2 + (e2 - e0))).
      { rewrite (Z.pow_add_r 2 (Zdigits2 m1 - 1) (e1 - e0)) by lia.
        rewrite (Z.pow_add_r 2 (Zdigits2 m2) (e2 - e0)) by lia.
        nia. }
      apply Z.pow_lt_mono_r_iff in Hpow; lia. }
  pose proof (pow2_pos (er1 + 1074) ltac:(lia)) as PE1.
  destruct (Z.eq_dec er1 er2) as [E | NE].
  - rewrite <- E.
    assert (round_mantissa m1 e1 l1 <= round_mantissa m2 e2 l2).
    { unfold round_mantissa. fold er1 er2. rewrite <- E.
      apply rne_mono. rewrite HK1, HK2.
      rewrite !sticky_shift_quot_spec by assumption.
      rewrite !Z2Nat.id by lia.
      pose proof (pow2_pos (er1 - e1) ltac:(lia)) as S1.
      pose proof (pow2_pos (er1 - e2) ltac:(lia)) as S2.
      apply sticky_quot_mono; [nia | nia |].
      assert (T : 2 ^ (e1 - e0) * 2 ^ (er1 - e1)
                  = 2 ^ (e2 - e0) * 2 ^ (er1 - e2)).
      { rewrite <- !Z.pow_add_r by lia. f_equal. lia. }
      apply (Z.mul_le_mono_pos_r _ _ (2 ^ (e1 - e0) * 2 ^ (e2 - e0)));
        [nia |].
      set (p1 := 2 ^ (e1 - e0)) in *. set (p2 := 2 ^ (e2 - e0)) in *.
      set (s1 := 2 ^ (er1 - e1)) in *. set (s2 := 2 ^ (er1 - e2)) in *.
      replace (N1 * (D2 * s2) * (p1 * p2))
        with (N1 * D2 * p1 * (p2 * s2)) by ring.
      replace (N2 * (D1 * s1) * (p1 * p2))
        with (N2 * D1 * p2 * (p1 * s1)) by ring.
      rewrite T. apply Z.mul_le_mono_nonneg_r; [nia | exact Hle]. }
    nia.
  - specialize (B2 ltac:(lia)).
    assert (Hp : 2 * 2 ^ (er1 + 1074) <= 2 ^ (er2 + 1074)).
    { rewrite <- Z.pow_succ_r by lia. apply Z.pow_le_mono_r; lia. }
    change (2 ^ 53) with (2 * 2 ^ 52) in U1. nia.
Qed.

Lemma binary_round_aux_value m e l :
  0 <= m -> e <= fexp F64.prec F64.emax (Zdigits2 m + e) ->
  let R := binary_round_aux F64.prec F64.emax false m e l in
  F64.is_finite R = true ->
  F2Z R = round_mantissa m e l
          * 2 ^ (fexp F64.prec F64.emax (Zdigits2 m + e) + 1074).
Proof.
  intros Hm He R. unfold R. rewrite binary_round_aux_spec by assumption.
  destruct (round_mantissa_bounds m e l Hm He) as [Hb Hn].
  assert (Her : -1074 <= fexp F64.prec F64.emax (Zdigits2 m + e))
    by (rewrite fexp64_eq; lia).
  destruct (round_result_facts false _ _ Hb Her Hn)
    as (_ & _ & [[_ Hz] | [Hi _]]).
  - intros _. exact Hz.
  - rewrite Hi. discriminate.
Qed.

(** What [SFdiv_core_binary] computes: the quotient of the first mantissa,
    shifted to the left, by the second, with the location of the
    remainder. *)
Lemma div_core_repr ma ea md ed :
  let '(q, e', l) :=
    SFdiv_core_binary F64.prec F64.emax (Zpos ma) ea (Zpos md) ed in
  e' <= ea - ed /\
  key_loc q l = sticky_quot (2 * (Zpos ma * 2 ^ (ea - ed - e'))) (Zpos md).
Proof.
  unfold SFdiv_core_binary. cbn [Zdigits2].
  set (e' := Z.min _ (ea - ed)).
  assert (He' : e' <= ea - ed) by (unfold e'; lia).
  set (s := ea - ed - e').
  assert (Hs : 0 <= s) by (unfold s; lia).
  set (m' := match s with
             | 0 => Zpos ma
             | Zpos _ => Z.shiftl (Zpos ma) s
             | Zneg _ => 0
             end).
  assert (Hm' : m' = Zpos ma * 2 ^ s).
  { unfold m'. destruct s as [| p | p]; [simpl; lia | | lia].
    apply Z.shiftl_mul_pow2. lia. }
  clearbody m' e'.
  assert (Hde : Z.div_eucl m' (Zpos md) = (m' / Zpos md, m' mod Zpos md))
    by (unfold Z.div, Z.modulo; destruct (Z.div_eucl m' (Zpos md));
        reflexivity).
  rewrite Hde. split; [exact He' |].
  rewrite key_loc_new_location by (apply Z.mod_pos_bound; lia).
  rewrite <- Z.div_mod by lia. rewrite Hm'. reflexivity.
Qed.

Lemma finite_nonneg_zero a :
  F64.valid a = true -> F64.is_finite a = true -> F2Z a = 0 ->
  exists s, a = S754_zero s.
Proof.
  intros Va Fa Hz. destruct a as [s | s | | s m e]; try discriminate Fa.
  - eauto.
  - exfalso. apply valid_finite_inv in Va as [Hc _].
    destruct (canonical_facts m e Hc) as (He & _ & _).
    pose proof (pow2_pos (e + 1074) ltac:(lia)).
    destruct s; simpl in Hz; nia.
Qed.

(** Division by a positive number is monotone. *)
Lemma div_mono a1 a2 md ed :
  F64.valid a1 = true -> F64.valid a2 = true ->
  F64.valid (S754_finite false md ed) = true ->
  F64.is_finite a1 = true -> F64.is_finite a2 = true ->
  0 <= F2Z a1 -> F2Z a1 <= F2Z a2 -> F2Z a2 <= F2Z (S754_finite false md ed) ->
  F2Z (F64.div a1 (S754_finite false md ed))
  <= F2Z (F64.div a2 (S754_finite false md ed)).
Proof.
  intros V1 V2 Vd F1 F2 H0 H12 H2d.
  destruct (div_facts a1 md ed V1 Vd F1 ltac:(lia)) as (Vq1 & Fq1 & B1).
  destruct (div_facts a2 md ed V2 Vd F2 ltac:(lia)) as (Vq2 & Fq2 & B2).
  destruct a1 as [s1 | s1 | | s1 m1 e1]; try discriminate F1.
  { simpl F2Z at 1. lia. }
  destruct a2 as [s2 | s2 | | s2 m2 e2]; try discriminate F2.
  { exfalso. destruct (finite_nonneg_zero _ V1 F1 ltac:(simpl in *; lia))
      as [s E]. discriminate E. }
  destruct (F2Z_finite_sign s1 m1 e1 V1) as [S1 _]. specialize (S1 H0).
  destruct (F2Z_finite_sign s2 m2 e2 V2) as [S2 _].
  specialize (S2 ltac:(lia)). subst s1 s2.
  pose proof (valid_finite_inv _ _ _ V1) as [C1 _].
  pose proof (valid_finite_inv _ _ _ V2) as [C2 _].
  pose proof (valid_finite_inv _ _ _ Vd) as [Cd _].
  destruct (canonical_facts m1 e1 C1) as (E1 & _ & _).
  destruct (canonical_facts m2 e2 C2) as (E2 & _ & _).
  destruct (canonical_facts md ed Cd) as (Ed & _ & _).
  cbn [F2Z cond_Zopp] in H0, H12, H2d.
  unfold F64.div in *. cbn [SFdiv xorb] in *.
  pose proof (div_core_facts m1 e1 md ed C1 Cd ltac:(lia)) as K1.
  pose proof (div_core_facts m2 e2 md ed C2 Cd ltac:(lia)) as K2.
  pose proof (div_core_repr m1 e1 md ed) as R1.
  pose proof (div_core_repr m2 e2 md ed) as R2.
  destruct (SFdiv_core_binary F64.prec F64.emax (Zpos m1) e1 (Zpos md) ed)
    as [[q1 f1] l1].
  destruct (SFdiv_core_binary F64.prec F64.emax (Zpos m2) e2 (Zpos md) ed)
    as [[q2 f2] l2].
  destruct K1 as (Q1 & G1 & _ & _). destruct K2 as (Q2 & G2 & _ & _).
  destruct R1 as [T1 R1]. destruct R2 as [T2 R2].
  rewrite (binary_round_aux_value q1 f1 l1 Q1 G1 Fq1).
  rewrite (binary_round_aux_value q2 f2 l2 Q2 G2 Fq2).
  set (e0 := Z.min f1 f2).
  pose proof (pow2_pos (e1 - ed - f1) ltac:(lia)) as P1.
  pose proof (pow2_pos (e2 - ed - f2) ltac:(lia)) as P2.
  apply (round_mantissa_mono q1 f1 l1 q2 f2 l2
           (2 * (Zpos m1 * 2 ^ (e1 - ed - f1))) (Zpos md)
           (2 * (Zpos m2 * 2 ^ (e2 - ed - f2))) (Zpos md) e0
           Q1 Q2 G1 G2 ltac:(lia) ltac:(lia) ltac:(nia) ltac:(nia) R1 R2
           ltac:(unfold e0; lia) ltac:(unfold e0; lia)).
  assert (He0 : e0 <= f1 /\ e0 <= f2) by (unfold e0; lia).
  clearbody e0.
  assert (Hcore : Zpos m1 * 2 ^ (e1 - ed - e0) <= Zpos m2 * 2 ^ (e2 - ed - e0)).
  { destruct (Z.le_gt_cases 0 (ed + e0 + 1074)) as [Hc | Hc].
    - pose proof (pow2_pos (ed + e0 + 1074) Hc) as Pc.
      apply (Z.mul_le_mono_pos_r _ _ (2 ^ (ed + e0 + 1074))); [exact Pc |].
      rewrite <- !Z.mul_assoc.
      rewrite <- (Z.pow_add_r 2 (e1 - ed - e0) (ed + e0 + 1074)) by lia.
      rewrite <- (Z.pow_add_r 2 (e2 - ed - e0) (ed + e0 + 1074)) by lia.
      replace (e1 - ed - e0 + (ed + e0 + 1074)) with (e1 + 1074) by lia.
      replace (e2 - ed - e0 + (ed + e0 + 1074)) with (e2 + 1074) by lia.
      exact H12.
    - pose proof (pow2_pos (- (ed + e0 + 1074)) ltac:(lia)) as Pc.
      replace (e1 - ed - e0) with (e1 + 1074 + - (ed + e0 + 1074)) by lia.
      replace (e2 - ed - e0) with (e2 + 1074 + - (ed + e0 + 1074)) by lia.
      rewrite (Z.pow_add_r 2 (e1 + 1074) (- (ed + e0 + 1074))) by lia.
      rewrite (Z.pow_add_r 2 (e2 + 1074) (- (ed + e0 + 1074))) by lia.
      rewrite !Z.mul_assoc. apply Z.mul_le_mono_nonneg_r; lia. }
  assert (X1 : 2 ^ (e1 - ed - f1) * 2 ^ (f1 - e0) = 2 ^ (e1 - ed - e0)).
  { rewrite <- Z.pow_add_r by lia. f_equal. lia. }
  assert (X2 : 2 ^ (e2 - ed - f2) * 2 ^ (f2 - e0) = 2 ^ (e2 - ed - e0)).
  { rewrite <- Z.pow_add_r by lia. f_equal. lia. }
  replace (2 * (Zpos m1 * 2 ^ (e1 - ed - f1)) * Zpos md * 2 ^ (f1 - e0))
    with (2 * Zpos md * (Zpos m1 * (2 ^ (e1 - ed - f1) * 2 ^ (f1 - e0))))
    by ring.
  replace (2 * (Zpos m2 * 2 ^ (e2 - ed - f2)) * Zpos md * 2 ^ (f2 - e0))
    with (2 * Zpos md * (Zpos m2 * (2 ^ (e2 - ed - f2) * 2 ^ (f2 - e0))))
    by ring.
  rewrite X1, X2. apply Z.mul_le_mono_nonneg_l; lia.
Qed.

Lemma mul_f255_cond mq eq :
  Z.max (Zpos (digits2_pos mq) + eq - 53) (-1074) = eq ->
  eq + -45 <= fexp F64.prec F64.emax
                (Zdigits2 (Zpos (mq * 8972014882652160)) + (eq + -45)).
Proof.
  intros Cq. set (m255 := 8972014882652160%positive).
  assert (H255 : 2 ^ 52 <= Zpos m255 < 2 ^ 53) by (unfold m255; lia).
  apply Z.le_trans
    with (fexp F64.prec F64.emax (Zpos (digits2_pos mq) + 52 + (eq + -45)));
    [rewrite fexp64_eq; pose proof (Pos2Z.is_pos (digits2_pos mq)); lia |].
  apply fexp64_mono.
  pose proof (Zdigits2_mono (Zpos mq * 2 ^ 52) (Zpos (mq * m255))
                ltac:(rewrite Pos2Z.inj_mul; nia)) as Hd.
  rewrite Zdigits2_mul_pow2 in Hd by lia.
  cbn [Zdigits2] in Hd |- *. lia.
Qed.

(** Multiplication by [255.0] is monotone. *)
Lemma mul_f255_mono q1 q2 :
  F64.valid q1 = true -> F64.valid q2 = true ->
  F64.is_finite q1 = true -> F64.is_finite q2 = true ->
  0 <= F2Z q1 -> F2Z q1 <= F2Z q2 -> F2Z q2 <= F2Z F64.one ->
  F2Z (F64.mul q1 F64.f255) <= F2Z (F64.mul q2 F64.f255).
Proof.
  intros V1 V2 F1 F2 H0 H12 H21.
  destruct (mul_f255_facts q1 V1 F1 ltac:(lia)) as (Vy1 & Fy1 & B1).
  destruct (mul_f255_facts q2 V2 F2 ltac:(lia)) as (Vy2 & Fy2 & B2).
  destruct q1 as [s1 | s1 | | s1 m1 e1]; try discriminate F1.
  { simpl F2Z at 1. lia. }
  destruct q2 as [s2 | s2 | | s2 m2 e2]; try discriminate F2.
  { exfalso. destruct (finite_nonneg_zero _ V1 F1 ltac:(simpl in *; lia))
      as [s E]. discriminate E. }
  destruct (F2Z_finite_sign s1 m1 e1 V1) as [S1 _]. specialize (S1 H0).
  destruct (F2Z_finite_sign s2 m2 e2 V2) as [S2 _].
  specialize (S2 ltac:(lia)). subst s1 s2.
  pose proof (valid_finite_inv _ _ _ V1) as [C1 _].
  pose proof (valid_finite_inv _ _ _ V2) as [C2 _].
  destruct (canonical_facts m1 e1 C1) as (E1 & _ & _).
  destruct (canonical_facts m2 e2 C2) as (E2 & _ & _).
  cbn [F2Z cond_Zopp] in H0, H12.
  unfold F64.mul, F64.f255 in *. cbn [SFmul xorb] in *.
  pose proof (mul_f255_cond m1 e1 C1) as G1.
  pose proof (mul_f255_cond m2 e2 C2) as G2.
  rewrite (binary_round_aux_value (Zpos (m1 * 8972014882652160)) (e1 + -45)
             loc_Exact ltac:(lia) G1 Fy1).
  rewrite (binary_round_aux_value (Zpos (m2 * 8972014882652160)) (e2 + -45)
             loc_Exact ltac:(lia) G2 Fy2).
  set (P1 := Zpos (m1 * 8972014882652160)) in *.
  set (P2 := Zpos (m2 * 8972014882652160)) in *.
  assert (K1 : key_loc P1 loc_Exact = sticky_quot (2 * P1) 1).
  { unfold key_loc, sticky_quot. rewrite Z.div_1_r, Z.mod_1_r. simpl. lia. }
  assert (K2 : key_loc P2 loc_Exact = sticky_quot (2 * P2) 1).
  { unfold key_loc, sticky_quot. rewrite Z.div_1_r, Z.mod_1_r. simpl. lia. }
  apply (round_mantissa_mono P1 (e1 + -45) loc_Exact P2 (e2 + -45) loc_Exact
           (2 * P1) 1 (2 * P2) 1 (-1074 + -45)
           ltac:(unfold P1; lia) ltac:(unfold P2; lia) G1 G2
           ltac:(lia) ltac:(lia) ltac:(unfold P1; lia) ltac:(unfold P2; lia)
           K1 K2 ltac:(lia) ltac:(lia)).
  replace (e1 + -45 - (-1074 + -45)) with (e1 + 1074) by lia.
  replace (e2 + -45 - (-1074 + -45)) with (e2 + 1074) by lia.
  unfold P1, P2. rewrite !Pos2Z.inj_mul.
  pose proof (pow2_pos (e1 + 1074) ltac:(lia)).
  pose proof (pow2_pos (e2 + 1074) ltac:(lia)).
  nia.
Qed.

Lemma rescale_value_mono mn mx x y :
  F64.valid mn = true -> F64.valid mx = true ->
  F64.valid x = true -> F64.valid y = true ->
  F64.is_finite mn = true -> F64.is_finite mx = true ->
  F64.is_finite x = true -> F64.is_finite y = true ->
  F2Z mn <= F2Z x -> F2Z x <= F2Z y -> F2Z y <= F2Z mx ->
  F2Z mn < F2Z mx ->
  F64.is_finite (F64.sub mx mn) = true ->
  F64.leb (rescale_value mn mx x) (rescale_value mn mx y) = true.
Proof.
  intros Vmn Vmx Vx Vy Fmn Fmx Fx Fy Hlo Hxy Hhi Hlt Fd. unfold rescale_value.
  destruct (sub_facts mx mn Vmx Vmn Fmx Fmn ltac:(lia))
    as (Vd & Nd & [[_ Zd] | [Id _]]);
    [| rewrite Id in Fd; discriminate Fd].
  pose proof (rnd_pos (F2Z mx - F2Z mn) ltac:(lia)) as Hdpos.
  pose proof (F2Z_finite_abs _ Vd Fd) as Hdb.
  pose proof (rnd_mono (F2Z x - F2Z mn) (F2Z y - F2Z mn) ltac:(lia)) as Mxy.
  pose proof (rnd_mono (F2Z y - F2Z mn) (F2Z mx - F2Z mn) ltac:(lia)) as Myd.
  pose proof (rnd_nonneg (F2Z x - F2Z mn) ltac:(lia)) as Hx0.
  destruct (sub_facts x mn Vx Vmn Fx Fmn Hlo)
    as (Vax & Nax & [[Fax Zax] | [_ Oax]]); [| lia].
  destruct (sub_facts y mn Vy Vmn Fy Fmn ltac:(lia))
    as (Vay & Nay & [[Fay Zay] | [_ Oay]]); [| lia].
  destruct (F64.sub mx mn) as [sd | sd | | sd md ed] eqn:Ed;
    try discriminate Fd; [simpl in Zd; lia |].
  destruct (F2Z_finite_sign sd md ed Vd) as [Hs _].
  specialize (Hs ltac:(lia)). subst sd.
  destruct (div_facts (F64.sub x mn) md ed Vax Vd Fax ltac:(lia))
    as (Vqx & Fqx & Hqx).
  destruct (div_facts (F64.sub y mn) md ed Vay Vd Fay ltac:(lia))
    as (Vqy & Fqy & Hqy).
  pose proof (div_mono (F64.sub x mn) (F64.sub y mn) md ed
                Vax Vay Vd Fax Fay ltac:(lia) ltac:(lia) ltac:(lia)) as Hq.
  destruct (mul_f255_facts _ Vqx Fqx Hqx) as (Vrx & Frx & _).
  destruct (mul_f255_facts _ Vqy Fqy Hqy) as (Vry & Fry & _).
  pose proof (mul_f255_mono _ _ Vqx Vqy Fqx Fqy ltac:(lia) Hq ltac:(lia))
    as Hr.
  rewrite leb_F2Z by (auto using is_finite_not_nan).
  apply Z.leb_le. exact Hr.
Qed.

(** X4. Rescaling keeps the order of the pixels. On an input of valid
    floats whose maximum exceeds its minimum by a finite amount, whenever
    element [i] of the input is [<=] element [j], element [i] of the
    rescaled image is [<=] element [j] of the rescaled image: the roundings
    of the subtraction, the division and the multiplication never swap two
    pixels. *)
Theorem rescale_preserves_order `{Collaborators} st a m n mn mx :
  shape a = [2; m; n]%nat ->
  allocated st a ->
  Forall (fun x => F64.valid x = true) (elements st a) ->
  reduce fmin (elements st a) = Some mn ->
  reduce fmax (elements st a) = Some mx ->
  F64.ltb mn mx = true ->
  F64.is_finite (F64.sub mx mn) = true ->
  exists im st',
    run (preprocess_without_smoothing a) st = (inr im, st') /\
    forall i j x y,
      elements st a !! i = Some x -> elements st a !! j = Some y ->
      F64.leb x y = true ->
      exists x' y',
        elements st' im !! i = Some x' /\ elements st' im !! j = Some y' /\
        F64.leb x' y' = true.
Proof.
  intros Hs Ha HV Hmn Hmx Hlt Fd.
  destruct (extrema_facts _ mn mx HV Hmn Hmx Hlt Fd)
    as (Vmn & Vmx & Fmn & Fmx & Hlt' & Hall).
  exists (rescaled_array st [2; m; n]%nat), (after_rescale st a mn mx).
  split; [apply preprocess_without_smoothing_run; assumption |].
  rewrite (elements_rescaled_array st a m n mn mx Hs).
  intros i j x y Hi Hj Hxy.
  exists (rescale_value mn mx x), (rescale_value mn mx y).
  rewrite !list_lookup_fmap, Hi, Hj.
  split; [reflexivity |]. split; [reflexivity |].
  rewrite Forall_forall in Hall.
  destruct (Hall x (list_elem_of_lookup_2 _ _ _ Hi)) as (Vx & Fx & Bx).
  destruct (Hall y (list_elem_of_lookup_2 _ _ _ Hj)) as (Vy & Fy & By).
  rewrite leb_F2Z in Hxy by (auto using is_finite_not_nan).
  apply Z.leb_le in Hxy.
  apply rescale_value_mono; try assumption; lia.
Qed.

Lemma rescale_preserves_order_witness :
  exists im st',
    run (preprocess_without_smoothing (H := sample_collaborators)
           (array_of [2; 1; 2]%nat))
        (state_of [F64.one; F64.zero; F64.f255; F64.one]) = (inr im, st') /\
    forall i j x y,
      elements (state_of [F64.one; F64.zero; F64.f255; F64.one])
        (array_of [2; 1; 2]%nat) !! i = Some x ->
      elements (state_of [F64.one; F64.zero; F64.f255; F64.one])
        (array_of [2; 1; 2]%nat) !! j = Some y ->
      F64.leb x y = true ->
      exists x' y',
        elements st' im !! i = Some x' /\ elements st' im !! j = Some y' /\
        F64.leb x' y' = true.
Proof.
  apply (rescale_preserves_order (H := sample_collaborators)
           (state_of [F64.one; F64.zero; F64.f255; F64.one])
           (array_of [2; 1; 2]%nat) 1 2 F64.zero F64.f255).
  - reflexivity.
  - unfold allocated. simpl. lia.
  - repeat constructor.
  - reflexivity.
  - reflexivity.
  - reflexivity.
  - reflexivity.
Defined.

(** ** 8-bit images *)

Lemma float_eqb_eq x y : float_eqb x y = true -> x = y.
Proof.
  destruct x as [s | s | | s m e], y as [t | t | | t n f]; simpl;
    try discriminate; try reflexivity.
  - intros E. apply Bool.eqb_prop in E. congruence.
  - intros E. apply Bool.eqb_prop in E. congruence.
  - intros E. apply andb_prop in E as [E E3]. apply andb_prop in E as [E1 E2].
    apply Bool.eqb_prop in E1. apply Pos.eqb_eq in E2. apply Z.eqb_eq in E3.
    congruence.
Qed.

Lemma bytes_checked :
  forallb byte_checked (map Z.of_nat (seq 0 256)) = true.
Proof. vm_compute. reflexivity. Qed.

Lemma byte_facts k :
  0 <= k <= 255 ->
  ordered (F64.of_Z k) /\ F2Z (F64.of_Z k) = k * 2 ^ 1074 /\
  rescale_value (F64.of_Z 0) (F64.of_Z 255) (F64.of_Z k) = F64.of_Z k.
Proof.
  intros Hk. pose proof bytes_checked as Hc.
  rewrite forallb_forall in Hc. specialize (Hc k).
  assert (Hin : In k (map Z.of_nat (seq 0 256))).
  { apply in_map_iff. exists (Z.to_nat k). split; [lia |].
    apply in_seq. lia. }
  specialize (Hc Hin). unfold byte_checked in Hc.
  apply andb_prop in Hc as [Hc H4]. apply andb_prop in Hc as [Hc H3].
  apply andb_prop in Hc as [H1 H2].
  apply negb_true_iff in H2. apply Z.eqb_eq in H3.
  apply float_eqb_eq in H4.
  repeat split; assumption.
Qed.

(** X5. An 8-bit image that uses its full range passes through the
    rescaling unchanged: when every element of the input is one of the
    floats 0.0, 1.0, ..., 255.0 and both 0.0 and 255.0 occur, lines 48-51
    return an image with exactly the elements of the input, since
    [(k - 0.0) / (255.0 - 0.0) * 255.0] is [k] in binary64 for each of
    these 256 values. *)
Theorem byte_image_unchanged `{Collaborators} st a m n :
  shape a = [2; m; n]%nat ->
  allocated st a ->
  Forall is_byte (elements st a) ->
  In (F64.of_Z 0) (elements st a) ->
  In (F64.of_Z 255) (elements st a) ->
  exists im st',
    run (preprocess_without_smoothing a) st = (inr im, st') /\
    shape im = [2; m; n]%nat /\
    elements st' im = elements st a.
Proof.
  intros Hs Ha HB H0 H255.
  set (E := elements st a) in *.
  assert (HO : Forall ordered E).
  { eapply Forall_impl; [exact HB |].
    intros x (k & Hk & ->). apply (byte_facts k Hk). }
  assert (Hmn : reduce fmin E = Some (F64.of_Z 0)).
  { destruct E as [| x0 E']; [inversion H0 |]. simpl. f_equal.
    inversion HO as [| ? ? O0 OE]; subst.
    inversion HB as [| ? ? B0 BE]; subst.
    destruct (fold_fmin_spec E' x0 O0 OE) as (_ & Hle0 & HleE).
    assert (Hr : is_byte (fold_left fmin E' x0)).
    { apply fold_left_choice; [apply fmin_choice | assumption..]. }
    destruct Hr as (j & Hj & Hr). rewrite Hr in *.
    assert (Hz : F2Z (F64.of_Z j) <= F2Z (F64.of_Z 0)).
    { destruct H0 as [<- | H0]; [exact Hle0 |].
      rewrite Forall_forall in HleE. apply HleE, list_elem_of_In. exact H0. }
    destruct (byte_facts j Hj) as (_ & Fj & _).
    destruct (byte_facts 0 ltac:(lia)) as (_ & F0 & _).
    rewrite Fj, F0 in Hz.
    assert (0 < 2 ^ 1074) by (apply Z.pow_pos_nonneg; lia).
    set (P := 2 ^ 1074) in *. clearbody P.
    replace j with 0 by nia. reflexivity. }
  assert (Hmx : reduce fmax E = Some (F64.of_Z 255)).
  { destruct E as [| x0 E']; [inversion H0 |]. simpl. f_equal.
    inversion HO as [| ? ? O0 OE]; subst.
    inversion HB as [| ? ? B0 BE]; subst.
    destruct (fold_fmax_spec E' x0 O0 OE) as (_ & Hle0 & HleE).
    assert (Hr : is_byte (fold_left fmax E' x0)).
    { apply fold_left_choice; [apply fmax_choice | assumption..]. }
    destruct Hr as (j & Hj & Hr). rewrite Hr in *.
    assert (Hz : F2Z (F64.of_Z 255) <= F2Z (F64.of_Z j)).
    { destruct H255 as [<- | H255]; [exact Hle0 |].
      rewrite Forall_forall in HleE. apply HleE, list_elem_of_In. exact H255. }
    destruct (byte_facts j Hj) as (_ & Fj & _).
    destruct (byte_facts 255 ltac:(lia)) as (_ & F0 & _).
    rewrite Fj, F0 in Hz.
    assert (0 < 2 ^ 1074) by (apply Z.pow_pos_nonneg; lia).
    set (P := 2 ^ 1074) in *. clearbody P.
    replace j with 255 by nia. reflexivity. }
  exists (rescaled_array st [2; m; n]%nat),
         (after_rescale st a (F64.of_Z 0) (F64.of_Z 255)).
  split; [apply preprocess_without_smoothing_run; assumption |].
  split; [reflexivity |].
  rewrite (elements_rescaled_array st a m n _ _ Hs). fold E.
  clear -HB. induction HB as [| x l (k & Hk & ->) _ IH]; [reflexivity |].
  cbn [map]. rewrite IH. f_equal. apply (byte_facts k Hk).
Qed.

Lemma byte_image_unchanged_witness :
  exists im st',
    run (preprocess_without_smoothing (H := sample_collaborators)
           (array_of [2; 1; 2]%nat))
        (state_of [F64.of_Z 7; F64.of_Z 0; F64.of_Z 255; F64.of_Z 128])
    = (inr im, st') /\
    shape im = [2; 1; 2]%nat /\
    elements st' im
    = elements (state_of [F64.of_Z 7; F64.of_Z 0; F64.of_Z 255; F64.of_Z 128])
        (array_of [2; 1; 2]%nat).
Proof.
  apply (byte_image_unchanged (H := sample_collaborators)
           (state_of [F64.of_Z 7; F64.of_Z 0; F64.of_Z 255; F64.of_Z 128])
           (array_of [2; 1; 2]%nat) 1 2).
  - reflexivity.
  - unfold allocated. simpl. lia.
  - repeat constructor;
      [exists 7 | exists 0 | exists 255 | exists 128];
      (split; [lia | reflexivity]).
  - right. left. reflexivity.
  - right. right. left. reflexivity.
Defined.

(** ** The calls of the external routines *)

Section Calls.

Context `{C : Collaborators}.

Lemma smooth_skipped st im fs :
  F64.ltb F64.zero fs = false -> run (smooth im fs) st = (inr tt, st).
Proof. intros Hf. unfold smooth. rewrite Hf. reflexivity. Qed.

Lemma smooth_step_explicit st im s k fs :
  shape im = 2%nat :: s -> (2 <= length s)%nat -> offset im = 0%nat ->
  (k < 2)%nat ->
  let v := {| c_shape := s;
              c_data := take (size s)
                          (drop (k * size s) (buffer st (base im))) |} in
  c_shape (gaussian_filter v fs) = s ->
  run (w ← getitem_frame im (Z.of_nat k);
       g ← call_gaussian_filter w fs;
       setitem_frame im (Z.of_nat k) g) st
  = (inr tt,
     {| heap := alter (list_inserts (k * size s)
                         (take (size s) (c_data (gaussian_filter v fs))))
                  (base im) (heap st ++ [c_data (gaussian_filter v fs)]);
        calls := calls st ++ [Call_gaussian_filter v fs] |}).
Proof.
  intros Hs Hl Ho Hk v HG.
  assert (Hg : forall st0, run (getitem_frame im (Z.of_nat k)) st0
                           = (inr (frame im k), st0)).
  { intros st0. apply (getitem_frame_run im _ st0 2%nat s k); auto. }
  erewrite run_bind_ok by apply Hg.
  erewrite run_bind_ok by apply call_gaussian_filter_run.
  erewrite setitem_frame_run by apply Hg.
  assert (Hsnap : snapshot st (frame im k) = v).
  { unfold snapshot, elements, frame, v. rewrite Hs, Ho. reflexivity. }
  rewrite Hsnap.
  assert (Hfs : shape (frame im k) = s)
    by (unfold frame; rewrite Hs; reflexivity).
  rewrite Hfs. cbn [shape].
  destruct (decide (c_shape (gaussian_filter v fs) = s)) as [_ | N];
    [| contradiction].
  rewrite elements_fresh, HG.
  unfold frame. cbn [offset base]. rewrite Ho, Hs. reflexivity.
Qed.

Lemma buffer_alter_app st f b d c :
  allocated st b ->
  buffer {| heap := alter f (base b) (heap st ++ [d]); calls := c |} (base b)
  = f (buffer st (base b)).
Proof.
  intros Ha. unfold buffer. cbn [heap].
  rewrite list_lookup_alter_eq, lookup_app_l by exact Ha.
  unfold allocated in Ha. apply lookup_lt_is_Some_2 in Ha as [buf Hbuf].
  rewrite Hbuf. reflexivity.
Qed.

End Calls.

(** X6. Unless [filter_std > 0] holds (so for zero, for a negative and for a
    NaN [filter_std]) a call on a non-empty input of shape (2, m, n) never
    calls [gaussian_filter]; it calls the solver exactly once, on the
    rescaled image and with [lam], [num_iter] and [num_levels] as they were
    passed, and returns the solver's result. *)
Theorem solver_called_once `{C : Collaborators}
    st a m n mn mx lam num_iter num_levels filter_std :
  shape a = [2; m; n]%nat ->
  allocated st a ->
  reduce fmin (elements st a) = Some mn ->
  reduce fmax (elements st a) = Some mx ->
  F64.ltb F64.zero filter_std = false ->
  let im := {| c_shape := [2; m; n]%nat;
               c_data := map (rescale_value mn mx) (elements st a) |} in
  exists r st',
    run (proesmans a lam num_iter num_levels filter_std) st = (inr r, st') /\
    calls st' = calls st ++
                [Call_compute_advection_field im lam num_iter num_levels] /\
    snapshot st' r
    = returned (_compute_advection_field im lam num_iter num_levels).
Proof.
  intros Hs Ha Hmn Hmx Hf im. unfold proesmans.
  rewrite run_bind, preprocess_split.
  erewrite run_bind_ok
    by (apply (preprocess_without_smoothing_run st a m n mn mx); assumption).
  cbv beta.
  erewrite run_bind_ok by (apply smooth_skipped; exact Hf).
  rewrite run_ret, call_compute_advection_field_run.
  assert (Hsnap : snapshot (after_rescale st a mn mx)
                    (rescaled_array st [2; m; n]%nat) = im).
  { unfold snapshot. rewrite (elements_rescaled_array st a m n mn mx Hs).
    reflexivity. }
  rewrite Hsnap.
  eexists _, _. split; [reflexivity |]. cbn [calls].
  split; [reflexivity |].
  unfold snapshot, returned. cbn [shape]. f_equal. apply elements_fresh.
Qed.

Lemma solver_called_once_witness :
  exists r st',
    run (proesmans (H := sample_collaborators) sample_array
           F64.f255 100 6 F64.nan) sample_state = (inr r, st') /\
    calls st'
    = calls sample_state ++
      [Call_compute_advection_field
         {| c_shape := [2; 1; 2]%nat; c_data := sample_rescaled |}
         F64.f255 100 6] /\
    snapshot st' r
    = returned
        (_compute_advection_field (Collaborators := sample_collaborators)
           {| c_shape := [2; 1; 2]%nat; c_data := sample_rescaled |}
           F64.f255 100 6).
Proof.
  apply (solver_called_once (C := sample_collaborators)
           sample_state sample_array 1 2 F64.zero F64.f255 F64.f255 100 6
           F64.nan).
  - reflexivity.
  - unfold allocated. simpl. lia.
  - reflexivity.
  - reflexivity.
  - reflexivity.
Defined.

(** X7. With [filter_std > 0] and a filter that returns an array of the
    shape of its argument, a call on a non-empty input makes exactly three
    external calls, in this order: [gaussian_filter] on frame 0 of the
    rescaled image, [gaussian_filter] on frame 1 of the rescaled image (the
    smoothing of frame 0 does not reach it), both with [filter_std], and
    the solver on the two filtered frames stacked, with [lam], [num_iter]
    and [num_levels] as they were passed; the solver's result is
    returned. *)
Theorem proesmans_smooths_each_frame `{C : Collaborators}
    st a m n mn mx lam num_iter num_levels filter_std :
  gaussian_filter_contract C ->
  shape a = [2; m; n]%nat ->
  allocated st a ->
  in_bounds st a ->
  reduce fmin (elements st a) = Some mn ->
  reduce fmax (elements st a) = Some mx ->
  F64.ltb F64.zero filter_std = true ->
  let R := map (rescale_value mn mx) (elements st a) in
  let f0 := {| c_shape := [m; n]%nat; c_data := take (size [m; n]%nat) R |} in
  let f1 := {| c_shape := [m; n]%nat; c_data := drop (size [m; n]%nat) R |} in
  let im := {| c_shape := [2; m; n]%nat;
               c_data := c_data (gaussian_filter f0 filter_std) ++
                         c_data (gaussian_filter f1 filter_std) |} in
  exists r st',
    run (proesmans a lam num_iter num_levels filter_std) st = (inr r, st') /\
    calls st' = calls st ++
                [Call_gaussian_filter f0 filter_std;
                 Call_gaussian_filter f1 filter_std;
                 Call_compute_advection_field im lam num_iter num_levels] /\
    snapshot st' r
    = returned (_compute_advection_field im lam num_iter num_levels).
Proof.
  intros Hgf Hs Ha Hb Hmn Hmx Hf R f0 f1 im.
  set (sz := size [m; n]%nat).
  assert (HR : length R = (sz + sz)%nat).
  { unfold R. rewrite length_map, (length_elements_in_bounds st a Hb), Hs.
    unfold sz. simpl. lia. }
  assert (W0 : well_formed f0).
  { unfold well_formed, f0. cbn [c_data c_shape]. fold sz.
    rewrite length_take. lia. }
  assert (W1 : well_formed f1).
  { unfold well_formed, f1. cbn [c_data c_shape]. fold sz.
    rewrite length_drop. lia. }
  destruct (Hgf f0 filter_std W0) as [S0 G0].
  destruct (Hgf f1 filter_std W1) as [S1 G1].
  set (g0 := gaussian_filter f0 filter_std) in *.
  set (g1 := gaussian_filter f1 filter_std) in *.
  unfold well_formed in G0, G1. rewrite S0 in G0. rewrite S1 in G1.
  change (c_shape f0) with [m; n]%nat in *.
  change (c_shape f1) with [m; n]%nat in *.
  fold sz in G0, G1.
  unfold proesmans.
  rewrite run_bind, preprocess_split.
  erewrite run_bind_ok
    by (apply (preprocess_without_smoothing_run st a m n mn mx); assumption).
  cbv beta.
  set (st1 := after_rescale st a mn mx).
  set (im1 := rescaled_array st [2; m; n]%nat).
  assert (Ha1 : allocated st1 im1).
  { unfold allocated, st1, im1. rewrite length_heap_after_rescale.
    simpl. lia. }
  assert (Hbuf1 : buffer st1 (base im1) = R).
  { unfold st1, im1. cbn [base rescaled_array].
    apply buffer_after_rescale. }
  (* frame 0 *)
  assert (Hv0 : {| c_shape := [m; n]%nat;
                   c_data := take (size [m; n]%nat)
                               (drop (0 * size [m; n]%nat)
                                  (buffer st1 (base im1))) |} = f0).
  { rewrite Hbuf1. reflexivity. }
  pose proof (smooth_step_explicit st1 im1 [m; n]%nat 0 filter_std
                eq_refl ltac:(simpl; lia) eq_refl ltac:(lia)) as Step0.
  cbv zeta in Step0. rewrite Hv0 in Step0. fold g0 in Step0.
  specialize (Step0 S0).
  change (Z.of_nat 0) with 0 in Step0.
  set (st2 := {| heap := alter _ (base im1) (heap st1 ++ [c_data g0]);
                 calls := calls st1 ++ [Call_gaussian_filter f0 filter_std] |})
    in Step0.
  assert (Hbuf2 : buffer st2 (base im1) = c_data g0 ++ drop sz R).
  { unfold st2. rewrite (buffer_alter_app st1 _ im1 _ _ Ha1), Hbuf1.
    fold sz. rewrite (take_ge (c_data g0)) by lia.
    rewrite <- (take_drop sz R) at 1.
    apply list_inserts_0_r. rewrite length_take. lia. }
  assert (Ha2 : allocated st2 im1).
  { unfold allocated, st2. cbn [heap].
    rewrite length_alter, length_app. unfold allocated in Ha1. lia. }
  (* frame 1 *)
  assert (Hv1 : {| c_shape := [m; n]%nat;
                   c_data := take (size [m; n]%nat)
                               (drop (1 * size [m; n]%nat)
                                  (buffer st2 (base im1))) |} = f1).
  { rewrite Hbuf2. unfold f1. f_equal. fold sz.
    rewrite Nat.mul_1_l, drop_app_length' by lia.
    apply take_ge. rewrite length_drop. lia. }
  pose proof (smooth_step_explicit st2 im1 [m; n]%nat 1 filter_std
                eq_refl ltac:(simpl; lia) eq_refl ltac:(lia)) as Step1.
  cbv zeta in Step1. rewrite Hv1 in Step1. fold g1 in Step1.
  specialize (Step1 S1).
  change (Z.of_nat 1) with 1 in Step1.
  set (st3 := {| heap := alter _ (base im1) (heap st2 ++ [c_data g1]);
                 calls := calls st2 ++ [Call_gaussian_filter f1 filter_std] |})
    in Step1.
  assert (Hbuf3 : buffer st3 (base im1) = c_data g0 ++ c_data g1).
  { unfold st3. rewrite (buffer_alter_app st2 _ im1 _ _ Ha2), Hbuf2.
    fold sz. rewrite (take_ge (c_data g1)) by lia.
    rewrite Nat.mul_1_l.
    rewrite <- G0 at 1. rewrite <- (Nat.add_0_r (length (c_data g0))).
    rewrite list_inserts_app_r.
    f_equal. rewrite <- (app_nil_r (drop sz R)).
    rewrite list_inserts_0_r by (rewrite length_drop; lia).
    apply app_nil_r. }
  assert (Hsm : run (smooth im1 filter_std) st1 = (inr tt, st3)).
  { unfold smooth. rewrite Hf.
    rewrite run_bind in Step0. rewrite run_bind.
    destruct (run (getitem_frame im1 0) st1) as [[e | w] stw];
      [discriminate Step0 |].
    rewrite run_bind in Step0. rewrite run_bind.
    destruct (run (call_gaussian_filter w filter_std) stw) as [[e | g] stg];
      [discriminate Step0 |].
    rewrite run_bind, Step0. exact Step1. }
  erewrite run_bind_ok by exact Hsm.
  rewrite run_ret, call_compute_advection_field_run.
  assert (Hsnap : snapshot st3 im1 = im).
  { unfold snapshot, elements, im. f_equal.
    change (offset im1) with 0%nat. rewrite drop_0, Hbuf3.
    apply take_ge. rewrite length_app. simpl. unfold sz in *. simpl in *. lia. }
  rewrite Hsnap.
  eexists _, _. split; [reflexivity |]. cbn [calls].
  split.
  - unfold st3, st2, st1. cbn [calls].
    assert (Hc : calls (after_rescale st a mn mx) = calls st) by reflexivity.
    rewrite Hc, <- !app_assoc. reflexivity.
  - unfold snapshot, returned. cbn [shape]. f_equal. apply elements_fresh.
Qed.


Lemma proesmans_smooths_each_frame_witness :
  exists r st',
    run (proesmans (H := sample_collaborators) sample_array
           F64.f255 100 6 F64.one) sample_state = (inr r, st') /\
    calls st'
    = calls sample_state ++
      [Call_gaussian_filter
         {| c_shape := [1; 2]%nat;
            c_data := take (size [1; 2]%nat) sample_rescaled |} F64.one;
       Call_gaussian_filter
         {| c_shape := [1; 2]%nat;
            c_data := drop (size [1; 2]%nat) sample_rescaled |} F64.one;
       Call_compute_advection_field
         {| c_shape := [2; 1; 2]%nat;
            c_data :=
              c_data
                (gaussian_filter (Collaborators := sample_collaborators)
                   {| c_shape := [1; 2]%nat;
                      c_data := take (size [1; 2]%nat) sample_rescaled |}
                   F64.one) ++
              c_data
                (gaussian_filter (Collaborators := sample_collaborators)
                   {| c_shape := [1; 2]%nat;
                      c_data := drop (size [1; 2]%nat) sample_rescaled |}
                   F64.one) |}
         F64.f255 100 6] /\
    snapshot st' r
    = returned
        (_compute_advection_field (Collaborators := sample_collaborators)
           {| c_shape := [2; 1; 2]%nat;
              c_data :=
                c_data
                  (gaussian_filter (Collaborators := sample_collaborators)
                     {| c_shape := [1; 2]%nat;
                        c_data := take (size [1; 2]%nat) sample_rescaled |}
                     F64.one) ++
                c_data
                  (gaussian_filter (Collaborators := sample_collaborators)
                     {| c_shape := [1; 2]%nat;
                        c_data := drop (size [1; 2]%nat) sample_rescaled |}
                     F64.one) |}
           F64.f255 100 6).
Proof.
  apply (proesmans_smooths_each_frame (C := sample_collaborators)
           sample_state sample_array 1 2 F64.zero F64.f255 F64.f255 100 6
           F64.one).
  - exact sample_gaussian_filter_contract.
  - reflexivity.
  - unfold allocated. simpl. lia.
  - unfold in_bounds. simpl. lia.
  - reflexivity.
  - reflexivity.
  - reflexivity.
Defined.

(** * Properties of [get_precipitation_fields] *)

Section HelperRuns.

Context `{Archive}.

Lemma io_run_bind {A B : Type} (m : IO A) (f : A -> IO B) tr :
  io_run (m ≫= f) tr =
    match io_run m tr with
    | (inr x, tr') => io_run (f x) tr'
    | (inl e, tr') => (inl e, tr')
    end.
Proof. reflexivity. Qed.

Lemma import_dependencies_unknown source tr :
  ~ In source (map fst _reference_dates) ->
  io_run (import_dependencies source) tr = (inr tt, tr).
Proof.
  intros Hn. unfold import_dependencies.
  assert (Hne : forall k, In k (map fst _reference_dates) ->
                          String.eqb source k = false).
  { intros k Hk. apply String.eqb_neq. intros ->. contradiction. }
  rewrite !Hne by (simpl; tauto). reflexivity.
Qed.

Lemma import_dependencies_known source modname tr :
  In (source, modname) source_modules ->
  io_run (import_dependencies source) tr
  = (if importable modname then inr tt else inl (Skipped modname),
     tr ++ [Call_importorskip modname]).
Proof.
  intros Hin. unfold source_modules in Hin. simpl in Hin.
  repeat (destruct Hin as [Hin | Hin];
          [injection Hin as <- <-;
           unfold import_dependencies, when, io_run, mbind, IO_bind,
             importorskip; simpl;
           destruct (importable _); reflexivity |]).
  contradiction.
Qed.

Lemma reference_date_known source modname tr :
  In (source, modname) source_modules ->
  exists d, dict_get source _reference_dates = Some d /\
            io_run (reference_date source) tr = (inr d, tr).
Proof.
  intros Hin. unfold source_modules in Hin. simpl in Hin.
  repeat (destruct Hin as [Hin | Hin];
          [injection Hin as <- <-; eexists; split; reflexivity |]).
  contradiction.
Qed.

Lemma dict_get_None {A : Type} key (d : list (string * A)) :
  ~ In key (map fst d) -> dict_get key d = None.
Proof.
  induction d as [| [k v] d IH]; simpl; [reflexivity |].
  intros Hn. destruct (String.eqb_spec key k) as [-> | _]; [tauto |].
  apply IH. tauto.
Qed.

Lemma source_known source :
  In source (map fst _reference_dates) ->
  exists modname, In (source, modname) source_modules.
Proof.
  simpl. intros Hin.
  repeat (destruct Hin as [<- | Hin];
          [eexists; unfold source_modules; simpl; eauto 10 |]).
  contradiction.
Qed.

(** The dependency check makes calls of [pytest.importorskip] only. *)
Lemma import_dependencies_run source tr o tr' :
  io_run (import_dependencies source) tr = (o, tr') ->
  exists cs, tr' = tr ++ cs /\ Forall (fun c => is_importorskip c = true) cs.
Proof.
  intros Hrun.
  destruct (in_dec string_dec source (map fst _reference_dates)) as [Hin | Hn].
  - destruct (source_known source Hin) as [modname Hm].
    rewrite (import_dependencies_known source modname tr Hm) in Hrun.
    injection Hrun as _ <-. eexists. split; [reflexivity |].
    repeat constructor.
  - rewrite (import_dependencies_unknown source tr Hn) in Hrun.
    injection Hrun as _ <-. exists []. split; [symmetry; apply app_nil_r |].
    constructor.
Qed.

Lemma getitem_run {A : Type} (d : string -> option A) key tr :
  io_run (getitem d key) tr
  = (match d key with Some v => inr v | None => inl (KeyError key) end, tr).
Proof. unfold getitem. destruct (d key); reflexivity. Qed.

Lemma call_run {A : Type} c (r : ext_error + A) tr :
  io_run (call c r) tr
  = (match r with inr x => inr x | inl e => inl (External e) end, tr ++ [c]).
Proof. reflexivity. Qed.

(** Lines 114-136 call no routine that changes the field, and what they
    return is what [read_timeseries] returned. *)
Lemma read_reference_field_run date np nn source tr o tr' :
  io_run (read_reference_field date np nn source) tr = (o, tr') ->
  exists cs,
    tr' = tr ++ cs /\
    Forall (fun c => is_transform c = false) cs /\
    forall x, o = inr x ->
      exists fns importer kwargs,
        read_timeseries fns importer kwargs = inr x /\
        last cs = Some (Call_read_timeseries fns importer kwargs).
Proof.
  unfold read_reference_field. intros Hrun.
  repeat (rewrite io_run_bind, getitem_run in Hrun;
          match type of Hrun with
          | context [match ?d ?k with _ => _ end] =>
              destruct (d k);
              [| injection Hrun as <- <-; exists [];
                 split; [symmetry; apply app_nil_r |];
                 split; [constructor | discriminate]]
          end).
  rewrite io_run_bind, call_run in Hrun.
  destruct (find_by_date _ _ _ _ _ _ _ _) as [e | fns].
  { injection Hrun as <- <-. eexists. split; [reflexivity |].
    split; [repeat constructor | discriminate]. }
  rewrite io_run_bind, call_run in Hrun.
  destruct (get_method _ _) as [e | importer].
  { injection Hrun as <- <-. eexists. rewrite <- app_assoc.
    split; [reflexivity |]. split; [repeat constructor | discriminate]. }
  rewrite call_run in Hrun. injection Hrun as <- <-.
  eexists. rewrite <- !app_assoc. split; [reflexivity |].
  split; [repeat constructor |].
  intros x Hx.
  match type of Hx with
  | context [read_timeseries fns importer ?kw] => exists fns, importer, kw
  end.
  destruct (read_timeseries fns importer _) as [e | y]; [discriminate Hx |].
  injection Hx as ->. split; reflexivity.
Qed.

Lemma assign_where_lookup mask v data i :
  length mask = length data ->
  assign_where mask v data !! i
  = match mask !! i with
    | Some true => Some v
    | _ => data !! i
    end.
Proof.
  revert mask i. induction data as [| x data IH]; intros [| b mask] i Hl;
    try discriminate Hl.
  - reflexivity.
  - destruct i as [| i]; simpl.
    + destruct b; reflexivity.
    + apply IH. simpl in Hl. lia.
Qed.

Lemma fill_masked_run a v tr b tr' :
  io_run (fill_masked a v) tr = (inr b, tr') ->
  tr' = tr /\
  ma_shape b = ma_shape a /\ ma_mask b = ma_mask a /\
  ma_fill_value b = ma_fill_value a /\
  length (ma_mask a) = length (ma_data a) /\
  forall i, ma_data b !! i
            = match ma_mask a !! i with
              | Some true => Some v
              | _ => ma_data a !! i
              end.
Proof.
  unfold fill_masked.
  destruct (decide (length (ma_mask a) = length (ma_data a))) as [Hl | Hl];
    [| discriminate].
  intros [= <- <-]. cbn [ma_shape ma_mask ma_fill_value ma_data].
  repeat split; try exact Hl.
  intros i. apply assign_where_lookup. exact Hl.
Qed.

Lemma preprocess_field_run np nn upscale R md tr a md' tr' :
  io_run (preprocess_field np nn upscale R md) tr = (inr (a, md'), tr') ->
  exists R2 md0 B,
    dB_transform (masked_invalid R2) md0 one_tenth minus_15 = inr (B, md') /\
    ma_shape a = ma_shape B /\ ma_mask a = ma_mask B /\
    ma_fill_value a = minus_15 /\
    length (ma_mask B) = length (ma_data B) /\
    forall i, ma_data a !! i
              = match ma_mask B !! i with
                | Some true => Some minus_15
                | _ => ma_data B !! i
                end.
Proof.
  unfold preprocess_field. intros Hrun.
  rewrite io_run_bind, call_run in Hrun.
  destruct (to_rainrate _ md) as [e | [R1 md1]]; [discriminate Hrun |].
  cbv beta iota in Hrun.
  rewrite io_run_bind, call_run in Hrun.
  destruct (aggregate_fields_space R1 md1 upscale) as [e | [R2 md2]];
    [discriminate Hrun |].
  cbv beta iota zeta in Hrun.
  rewrite io_run_bind, call_run in Hrun.
  destruct (dB_transform (masked_invalid R2) md2 one_tenth minus_15)
    as [e | [B md3]] eqn:EB; [discriminate Hrun |].
  cbv beta iota in Hrun.
  rewrite io_run_bind in Hrun.
  destruct (io_run (fill_masked (set_fill_value B minus_15) minus_15) _)
    as [[e | b] tr3] eqn:EF; [discriminate Hrun |].
  injection Hrun as <- <- <-.
  apply fill_masked_run in EF as (_ & Hs & Hm & Hf & Hl & Hd).
  exists R2, md2, B. split; [exact EB |].
  repeat split; assumption.
Qed.

End HelperRuns.

(** X8. A source name that is not one of the six keys of [_reference_dates]
    (the comparison is case-sensitive) is rejected with a [ValueError]
    whose message names the source and lists the six available sources in
    the order of the dictionary; no module is imported and nothing is
    looked up or read before. *)
Theorem unknown_source_rejected `{Archive}
    num_prev_files num_next_files return_raw metadata upscale source tr :
  ~ In source ["bom"; "fmi"; "knmi"; "mch"; "opera"; "saf"]%string ->
  io_run (get_precipitation_fields num_prev_files num_next_files return_raw
            metadata upscale source) tr
  = (inl (Python (ValueError
       ("Unknown source name '" ++ source ++ "'" ++ nl ++
        "The available data sources are: " ++
        "['bom', 'fmi', 'knmi', 'mch', 'opera', 'saf']")%string)), tr).
Proof.
  intros Hn. unfold get_precipitation_fields.
  rewrite io_run_bind, import_dependencies_unknown by exact Hn.
  rewrite io_run_bind. unfold reference_date.
  rewrite dict_get_None by exact Hn. reflexivity.
Qed.

Lemma unknown_source_rejected_witness :
  io_run (get_precipitation_fields (H := sample_archive) 0 0 false false None
            "MCH") []
  = (inl (Python (ValueError
       ("Unknown source name '" ++ "MCH" ++ "'" ++ nl ++
        "The available data sources are: " ++
        "['bom', 'fmi', 'knmi', 'mch', 'opera', 'saf']")%string)), []).
Proof.
  apply (unknown_source_rejected (H := sample_archive)).
  simpl. intros [E | [E | [E | [E | [E | [E | []]]]]]]; discriminate E.
Defined.

(** X9. For each of the six sources exactly one optional module is
    required (netCDF4 for bom and saf, pyproj for fmi, h5py for knmi and
    opera, PIL for mch); when it cannot be imported the call ends with the
    exception by which pytest skips the test, and that check is the only
    thing the call has done: no date, configuration or file is touched. *)
Theorem missing_dependency_skips `{Archive}
    num_prev_files num_next_files return_raw metadata upscale
    source modname tr :
  In (source, modname)
     [ ("bom", "netCDF4"); ("fmi", "pyproj"); ("knmi", "h5py");
       ("mch", "PIL"); ("opera", "h5py"); ("saf", "netCDF4") ]%string ->
  importable modname = false ->
  io_run (get_precipitation_fields num_prev_files num_next_files return_raw
            metadata upscale source) tr
  = (inl (Skipped modname), tr ++ [Call_importorskip modname]).
Proof.
  intros Hin Hm. unfold get_precipitation_fields.
  rewrite io_run_bind, (import_dependencies_known source modname tr Hin), Hm.
  reflexivity.
Qed.

Lemma missing_dependency_skips_witness :
  io_run (get_precipitation_fields (H := incomplete_archive) 0 0 false false
            None "bom") []
  = (inl (Skipped "netCDF4"), [] ++ [Call_importorskip "netCDF4"]).
Proof.
  apply (missing_dependency_skips (H := incomplete_archive)
           0 0 false false None "bom" "netCDF4" []).
  - simpl. auto.
  - reflexivity.
Defined.

(** X10. A source of the helper that the configuration does not describe:
    when [rcparams.data_sources] has no entry for the source the call
    raises [KeyError] for the source name, and when the entry lacks some of
    the seven keys it raises [KeyError] for the first missing key in the
    order root_path, path_fmt, fn_pattern, fn_ext, importer,
    importer_kwargs, timestep. In both cases the archive is not
    searched and no file is read: the dependency check is the only call
    made. *)
Theorem missing_configuration_key `{Archive}
    num_prev_files num_next_files return_raw metadata upscale
    source modname tr :
  In (source, modname) source_modules ->
  importable modname = true ->
  (data_sources source = None ->
   io_run (get_precipitation_fields num_prev_files num_next_files return_raw
             metadata upscale source) tr
   = (inl (KeyError source), tr ++ [Call_importorskip modname])) /\
  (forall data_source key,
     data_sources source = Some data_source ->
     List.find (fun k => match data_source k with None => true | _ => false end)
       data_source_keys = Some key ->
     io_run (get_precipitation_fields num_prev_files num_next_files return_raw
               metadata upscale source) tr
     = (inl (KeyError key), tr ++ [Call_importorskip modname])).
Proof.
  intros Hin Hm.
  destruct (reference_date_known source modname
              (tr ++ [Call_importorskip modname]) Hin) as (date & _ & Hd).
  assert (Hstart : forall o,
    io_run (read_reference_field date num_prev_files num_next_files source)
      (tr ++ [Call_importorskip modname]) = o ->
    fst o = inl (KeyError source) \/ (exists k, fst o = inl (KeyError k)) ->
    forall e, fst o = inl e ->
    io_run (get_precipitation_fields num_prev_files num_next_files return_raw
              metadata upscale source) tr = (inl e, snd o)).
  { intros [o1 o2] Ho _ e He. simpl in He. subst o1.
    unfold get_precipitation_fields.
    rewrite io_run_bind, (import_dependencies_known source modname tr Hin), Hm.
    rewrite io_run_bind, Hd. cbv beta. rewrite io_run_bind, Ho. reflexivity. }
  split.
  - intros Hnone.
    apply (Hstart (inl (KeyError source), tr ++ [Call_importorskip modname]));
      [| left; reflexivity | reflexivity].
    unfold read_reference_field.
    rewrite io_run_bind, getitem_run, Hnone. reflexivity.
  - intros ds key Hds Hfind.
    apply (Hstart (inl (KeyError key), tr ++ [Call_importorskip modname]));
      [| right; eexists; reflexivity | reflexivity].
    unfold read_reference_field.
    rewrite io_run_bind, getitem_run, Hds.
    unfold data_source_keys in Hfind. simpl in Hfind.
    repeat (rewrite io_run_bind, getitem_run;
            match type of Hfind with
            | context [match ds ?k with _ => _ end] =>
                destruct (ds k);
                [| injection Hfind as <-; reflexivity]
            end).
    discriminate Hfind.
Qed.

Lemma missing_configuration_key_witness :
  (data_sources (Archive := incomplete_archive) "mch" = None ->
   io_run (get_precipitation_fields (H := incomplete_archive) 0 0 false false
             None "mch") []
   = (inl (KeyError "mch"), [] ++ [Call_importorskip "PIL"])) /\
  (forall data_source key,
     data_sources (Archive := incomplete_archive) "mch" = Some data_source ->
     List.find (fun k => match data_source k with None => true | _ => false end)
       data_source_keys = Some key ->
     io_run (get_precipitation_fields (H := incomplete_archive) 0 0 false false
               None "mch") []
     = (inl (KeyError key), [] ++ [Call_importorskip "PIL"])).
Proof.
  apply (missing_configuration_key (H := incomplete_archive)
           0 0 false false None "mch" "PIL" []).
  - unfold source_modules. simpl. auto.
  - reflexivity.
Defined.

(** X11. With [return_raw=True] the field is returned as
    [io.read_timeseries] returned it: whatever the other arguments and
    whatever happens, the call calls none of [to_rainrate],
    [aggregate_fields_space] and [dB_transform], and when it returns, the
    last call was the one of [read_timeseries], and the result is the array
    it returned, together with its metadata when [metadata] is set. *)
Theorem raw_field_untouched `{Archive}
    num_prev_files num_next_files metadata upscale source tr o tr' :
  io_run (get_precipitation_fields num_prev_files num_next_files true
            metadata upscale source) tr = (o, tr') ->
  Forall (fun c => is_transform c = false) tr ->
  Forall (fun c => is_transform c = false) tr' /\
  forall r, o = inr r ->
    exists fns importer kwargs R q md,
      read_timeseries fns importer kwargs = inr (R, q, md) /\
      last tr' = Some (Call_read_timeseries fns importer kwargs) /\
      r = if metadata then Field_and_metadata (Raw R) md else Field (Raw R).
Proof.
  unfold get_precipitation_fields. intros Hrun Htr.
  rewrite io_run_bind in Hrun.
  destruct (io_run (import_dependencies source) tr) as [[e | []] tr1] eqn:E1;
    apply import_dependencies_run in E1 as (cs1 & -> & Hcs1);
    assert (Htr1 : Forall (fun c => is_transform c = false) (tr ++ cs1))
      by (apply Forall_app; split; [exact Htr |];
          eapply Forall_impl; [exact Hcs1 |];
          intros [] Hc; try discriminate Hc; reflexivity).
  { injection Hrun as <- <-. split; [exact Htr1 | discriminate]. }
  rewrite io_run_bind in Hrun. unfold reference_date in Hrun.
  destruct (dict_get source _reference_dates) as [date |].
  2: { injection Hrun as <- <-. split; [exact Htr1 | discriminate]. }
  change (io_run (mret date) (tr ++ cs1)) with
    (@inr test_exn _ date, tr ++ cs1) in Hrun.
  cbv beta iota in Hrun. rewrite io_run_bind in Hrun.
  destruct (io_run (read_reference_field date num_prev_files num_next_files
                      source) (tr ++ cs1)) as [[e | [[R q] md]] tr2] eqn:E2;
    apply read_reference_field_run in E2 as (cs2 & -> & Hcs2 & Hread).
  { injection Hrun as <- <-. split; [| discriminate].
    apply Forall_app. split; assumption. }
  destruct (Hread _ eq_refl) as (fns & importer & kwargs & Hr & Hlast).
  assert (Ho : o = inr (if metadata then Field_and_metadata (Raw R) md
                        else Field (Raw R)) /\ tr' = (tr ++ cs1) ++ cs2).
  { destruct metadata; injection Hrun as <- <-; split; reflexivity. }
  destruct Ho as [-> ->]. split; [apply Forall_app; split; assumption |].
  intros r [= <-]. exists fns, importer, kwargs, R, q, md.
  split; [exact Hr |]. split; [| reflexivity].
  destruct cs2 as [| c cs2] using rev_ind; [discriminate Hlast |].
  rewrite app_assoc, last_snoc. rewrite last_snoc in Hlast. exact Hlast.
Qed.

Lemma raw_field_untouched_witness :
  Forall (fun c => is_transform c = false)
    (snd (io_run (get_precipitation_fields (H := sample_archive) 1 0 true
                    true None "fmi") [])) /\
  forall r,
    fst (io_run (get_precipitation_fields (H := sample_archive) 1 0 true
                   true None "fmi") []) = inr r ->
    exists fns importer kwargs R q md,
      read_timeseries (Archive := sample_archive) fns importer kwargs
      = inr (R, q, md) /\
      last (snd (io_run (get_precipitation_fields (H := sample_archive) 1 0
                           true true None "fmi") []))
      = Some (Call_read_timeseries fns importer kwargs) /\
      r = if true then Field_and_metadata (Raw R) md else Field (Raw R).
Proof.
  apply (raw_field_untouched (H := sample_archive) 1 0 true None "fmi" []).
  - vm_compute. reflexivity.
  - constructor.
Defined.

(** X12. What the preprocessing guarantees about missing values: when a
    call with [return_raw=False] returns, the field is a masked array whose
    fill value is [-15.0] and whose data are [-15.0] wherever its mask is
    set. Its mask and its shape are those of the array that [dB_transform]
    returned, called with the threshold [0.1] and the zero value [-15.0] on
    a field in which exactly the NaN and infinite values are masked, and
    the data that are not masked are those of that array. *)
Theorem masked_values_filled `{Archive}
    num_prev_files num_next_files metadata upscale source tr r tr' :
  io_run (get_precipitation_fields num_prev_files num_next_files false
            metadata upscale source) tr = (inr r, tr') ->
  exists a R md0 B md1,
    result_field r = Masked a /\
    dB_transform (masked_invalid R) md0 one_tenth minus_15 = inr (B, md1) /\
    ma_shape a = ma_shape B /\ ma_mask a = ma_mask B /\
    ma_fill_value a = minus_15 /\
    forall i, ma_data a !! i
              = match ma_mask a !! i with
                | Some true => Some minus_15
                | _ => ma_data B !! i
                end.
Proof.
  unfold get_precipitation_fields. intros Hrun.
  rewrite io_run_bind in Hrun.
  destruct (io_run (import_dependencies source) tr) as [[e | []] tr1];
    [discriminate Hrun |].
  rewrite io_run_bind in Hrun.
  destruct (io_run (reference_date source) tr1) as [[e | date] tr2];
    [discriminate Hrun |].
  rewrite io_run_bind in Hrun.
  destruct (io_run (read_reference_field date num_prev_files num_next_files
                      source) tr2) as [[e | [[R q] md]] tr3];
    [discriminate Hrun |].
  cbv beta iota in Hrun. rewrite !io_run_bind in Hrun.
  destruct (io_run (preprocess_field num_prev_files num_next_files upscale
                      R md) tr3) as [[e | [a md']] tr4] eqn:EP;
    [discriminate Hrun |].
  apply preprocess_field_run in EP
    as (R2 & md0 & B & HB & Hs & Hm & Hf & _ & Hd).
  exists a, R2, md0, B, md'.
  assert (Hr : result_field r = Masked a).
  { destruct metadata; injection Hrun as <- _; reflexivity. }
  rewrite Hm. repeat split; assumption.
Qed.

Lemma masked_values_filled_witness :
  exists a R md0 B md1,
    result_field (Field (H := sample_archive) (Masked
      {| ma_shape := [2; 2]%nat;
         ma_data := [F64.one; minus_15; F64.f255; F64.zero];
         ma_mask := [false; true; false; false];
         ma_fill_value := minus_15 |})) = Masked a /\
    dB_transform (Archive := sample_archive) (masked_invalid R) md0
      one_tenth minus_15 = inr (B, md1) /\
    ma_shape a = ma_shape B /\ ma_mask a = ma_mask B /\
    ma_fill_value a = minus_15 /\
    forall i, ma_data a !! i
              = match ma_mask a !! i with
                | Some true => Some minus_15
                | _ => ma_data B !! i
                end.
Proof.
  apply (masked_values_filled (H := sample_archive) 0 0 false None "mch" []
           _ (snd (io_run (get_precipitation_fields (H := sample_archive)
                             0 0 false false None "mch") []))).
  vm_compute. reflexivity.
Defined.

